(** * Employee-mention matcher of the review-analysis scripts

    Shallow embedding of the matching core that [scripts/create_dataset.py]
    and [scripts/process_takeout.py] both define:

    - [similarity_score]           (difflib.SequenceMatcher(...).ratio())
    - [extract_potential_names]    (eight re.finditer patterns + one re.findall)
    - [match_employee_to_review]   (the roster resolver)
    - [add_employee_matches_to_dataframe] (the annotation pass)

    Python values are modelled as follows.
    - [str]: Rocq [string]; a character is a code point below 256, so the
      tables for [str.lower], [str.isspace], [\w] and [\s] are the ones
      CPython uses on that range.  Text with larger code points is outside
      the model.
    - [float]: the exact rational value of the binary64 number ([Q] in
      lowest terms); a division is rounded to 53 bits, ties to even.
    - [dict] iterated with [.items()]: an association list in insertion
      order.
    - [list(set(xs))]: the iteration order of a set of strings depends on
      the interpreter's string hashing, so it is a parameter
      ([set_iteration]) about which only "same elements, no duplicates" is
      known. *)

From Stdlib Require Import Bool Arith List String Ascii ZArith QArith Lia.
From Stdlib Require Import Qround DecimalString Lqa Sorted.
Import ListNotations.

Local Close Scope Q_scope.
Local Open Scope string_scope.
Local Open Scope list_scope.
Local Open Scope nat_scope.

(* ------------------------------------------------------------------ *)
(** ** Python [str] operations *)

Module PyStr.

Definition code (c : ascii) : nat := nat_of_ascii c.

Definition in_range (lo hi : nat) (c : ascii) : bool :=
  (lo <=? code c)%nat && (code c <=? hi)%nat.

(** [str.lower] on one character: A-Z and the Latin-1 capitals
    U+00C0..U+00DE (without the multiplication sign U+00D7). *)
Definition lower_char (c : ascii) : ascii :=
  if in_range 65 90 c || in_range 192 214 c || in_range 216 222 c
  then ascii_of_nat (code c + 32) else c.

(** The inverse mapping, restricted to characters whose capital is again
    below 256. *)
Definition upper_char (c : ascii) : ascii :=
  if in_range 97 122 c || in_range 224 246 c || in_range 248 254 c
  then ascii_of_nat (code c - 32) else c.

Fixpoint lower (s : string) : string :=
  match s with
  | EmptyString => EmptyString
  | String c s' => String (lower_char c) (lower s')
  end.

(** [str.isspace] on one character (also the class [\s] of [re]). *)
Definition isspace (c : ascii) : bool :=
  in_range 9 13 c || in_range 28 32 c || (code c =? 133)%nat || (code c =? 160)%nat.

(** The class [\w] of [re] for [str] patterns. *)
Definition isword (c : ascii) : bool :=
  in_range 48 57 c || in_range 65 90 c || (code c =? 95)%nat || in_range 97 122 c
  || (code c =? 170)%nat || in_range 178 179 c || (code c =? 181)%nat
  || in_range 185 186 c || in_range 188 190 c || in_range 192 214 c
  || in_range 216 246 c || in_range 248 255 c.

Fixpoint lstrip (s : string) : string :=
  match s with
  | EmptyString => EmptyString
  | String c s' => if isspace c then lstrip s' else s
  end.

Fixpoint rstrip (s : string) : string :=
  match s with
  | EmptyString => EmptyString
  | String c s' =>
      match rstrip s' with
      | EmptyString => if isspace c then EmptyString else String c EmptyString
      | t => String c t
      end
  end.

(** [s.strip()] *)
Definition strip (s : string) : string := rstrip (lstrip s).

(** [x in xs] for a list of strings. *)
Definition contains (x : string) (xs : list string) : bool :=
  existsb (String.eqb x) xs.

(** [sep.join(xs)] *)
Fixpoint join (sep : string) (xs : list string) : string :=
  match xs with
  | [] => EmptyString
  | [x] => x
  | x :: rest => x ++ sep ++ join sep rest
  end.

(** Truth value of a [str]: the empty string is false. *)
Definition truthy (s : string) : bool :=
  match s with EmptyString => false | String _ _ => true end.

(** [s[i:j]] for [0 <= i <= j]. *)
Definition slice (i j : nat) (s : string) : string := substring i (j - i) s.

End PyStr.

(* ------------------------------------------------------------------ *)
(** ** The fragment of [re] the patterns use

    A backtracking matcher in continuation-passing style, with the
    priorities of CPython's engine: alternatives are tried left to right,
    repetitions and optional parts are greedy, and a later failure
    backtracks into the latest choice.  Repetition is only needed over
    single-character classes. *)

Module Re.

Import PyStr.

Inductive charset : Type :=
| CRange (lo hi : nat)          (* [x-y], by code point *)
| CSpace                        (* \s *)
| CChar (c : ascii)             (* one literal character inside [...] *)
| CUnion (s1 s2 : charset).

Inductive regex : Type :=
| Lit (s : string)              (* literal text *)
| Cls (cs : charset)            (* one character of a class *)
| Rep (min : nat) (cs : charset)(* cs{min,}, greedy: * is Rep 0, + is Rep 1 *)
| Seq (r1 r2 : regex)
| Alt (r1 r2 : regex)           (* r1|r2 *)
| Opt (r : regex)               (* (?:r)?, greedy *)
| Group (r : regex)             (* capturing group 1 *)
| WordB.                        (* \b *)

Fixpoint in_charset (cs : charset) (c : ascii) : bool :=
  match cs with
  | CRange lo hi => in_range lo hi c
  | CSpace => isspace c
  | CChar x => Ascii.eqb x c
  | CUnion s1 s2 => in_charset s1 c || in_charset s2 c
  end.

(** Under re.IGNORECASE a character belongs to a class when it or one of
    its case variants does; a literal matches when the lower-cased
    characters agree.  This is CPython's rule on the code points below
    256, the only ones a [string] holds.  Above that range four more
    characters have a case variant in [A-Z] or [a-z] (U+0130, U+0131,
    U+017F and U+212A), so on a text with such a character the scripts
    can capture a word that is not made of the 52 letters alone; such
    texts are not covered by the statements below. *)
Definition class_test (ignorecase : bool) (cs : charset) (c : ascii) : bool :=
  in_charset cs c
  || (ignorecase && (in_charset cs (lower_char c) || in_charset cs (upper_char c))).

Definition char_test (ignorecase : bool) (x c : ascii) : bool :=
  if ignorecase then Ascii.eqb (lower_char x) (lower_char c) else Ascii.eqb x c.

(** A position in the subject: the index, the character before it (for
    [\b]) and the text from the index on. *)
Record cursor : Type := Cursor {
  pos : nat;
  prev : option ascii;
  rest : string
}.

Definition span : Type := (nat * nat)%type.

Definition at_word_boundary (c : cursor) : bool :=
  let before := match prev c with Some x => isword x | None => false end in
  let after := match rest c with String x _ => isword x | EmptyString => false end in
  xorb before after.

Section Run.

Variable ignorecase : bool.
Context {A : Type}.

Fixpoint lit (s : string) (c : cursor) : option cursor :=
  match s with
  | EmptyString => Some c
  | String x s' =>
      match rest c with
      | String ch r =>
          if char_test ignorecase x ch
          then lit s' (Cursor (S (pos c)) (Some ch) r)
          else None
      | EmptyString => None
      end
  end.

(** Greedy repetition of a class: take as many characters as possible,
    then give them back one at a time until the continuation succeeds. *)
Fixpoint rep (cs : charset) (min count p : nat) (pv : option ascii)
         (rs : string) (k : cursor -> option A) : option A :=
  let stop := if (min <=? count)%nat then k (Cursor p pv rs) else None in
  match rs with
  | String ch r =>
      if class_test ignorecase cs ch
      then match rep cs min (S count) (S p) (Some ch) r k with
           | Some x => Some x
           | None => stop
           end
      else stop
  | EmptyString => stop
  end.

Fixpoint run (r : regex) (c : cursor) (g : option span)
         (k : cursor -> option span -> option A) : option A :=
  match r with
  | Lit s => match lit s c with Some c' => k c' g | None => None end
  | Cls cs =>
      match rest c with
      | String ch rs =>
          if class_test ignorecase cs ch
          then k (Cursor (S (pos c)) (Some ch) rs) g
          else None
      | EmptyString => None
      end
  | Rep min cs => rep cs min 0 (pos c) (prev c) (rest c) (fun c' => k c' g)
  | Seq r1 r2 => run r1 c g (fun c' g' => run r2 c' g' k)
  | Alt r1 r2 =>
      match run r1 c g k with
      | Some x => Some x
      | None => run r2 c g k
      end
  | Opt r1 =>
      match run r1 c g k with
      | Some x => Some x
      | None => k c g
      end
  | Group r1 => run r1 c g (fun c' _ => k c' (Some (pos c, pos c')))
  | WordB => if at_word_boundary c then k c g else None
  end.

End Run.

(** A match object: the span of the whole match and of group 1. *)
Record match_obj : Type := MatchObj {
  m_start : nat;
  m_end : nat;
  m_group1 : option span
}.

(** One attempt to match [r] starting exactly at the cursor. *)
Definition match_at (ignorecase : bool) (r : regex) (c : cursor) : option match_obj :=
  run ignorecase r c None (fun c' g => Some (MatchObj (pos c) (pos c') g)).

(** Left-to-right scan for non-overlapping matches.  [skip] counts the
    characters still covered by the previous match: no attempt starts
    inside it.  (After an empty match the scan resumes one character
    further; none of the patterns below can match the empty string.) *)
Fixpoint scan (ignorecase : bool) (r : regex) (skip p : nat)
         (pv : option ascii) (rs : string) : list match_obj :=
  let here := match skip with
              | O => match_at ignorecase r (Cursor p pv rs)
              | S _ => None
              end in
  let skip' := match skip, here with
               | S n, _ => n
               | O, Some m => m_end m - p - 1
               | O, None => 0
               end in
  let found := match here with Some m => [m] | None => [] end in
  found ++ match rs with
           | String ch rs' => scan ignorecase r skip' (S p) (Some ch) rs'
           | EmptyString => []
           end.

(** [re.finditer(pattern, text, flags)] *)
Definition finditer (ignorecase : bool) (r : regex) (text : string) : list match_obj :=
  scan ignorecase r 0 0 None text.

(** [match.group(0)] and [match.group(1)]; a group that took no part in
    the match gives [None]. *)
Definition group0 (text : string) (m : match_obj) : string :=
  slice (m_start m) (m_end m) text.

Definition group1 (text : string) (m : match_obj) : option string :=
  match m_group1 m with
  | Some (s, e) => Some (slice s e text)
  | None => None
  end.

(** [re.findall(pattern, text)] for a pattern without groups. *)
Definition findall (ignorecase : bool) (r : regex) (text : string) : list string :=
  map (group0 text) (finditer ignorecase r text).

(** Pattern syntax helpers. *)
Fixpoint seqs (rs : list regex) : regex :=
  match rs with
  | [] => Lit ""
  | [r] => r
  | r :: rest => Seq r (seqs rest)
  end.

Fixpoint alts (rs : list regex) : regex :=
  match rs with
  | [] => Cls (CRange 1 0)
  | [r] => r
  | r :: rest => Alt r (alts rest)
  end.

Definition words (ws : list string) : regex := alts (map Lit ws).

Definition upper_AZ : charset := CRange 65 90.
Definition lower_az : charset := CRange 97 122.

End Re.

(* ------------------------------------------------------------------ *)
(** ** Python [float]: the values the scripts compute

    A float is represented by its exact value.  The only arithmetic the
    matcher performs is [2.0 * matches / length] on integers far below
    2^53, i.e. one correctly rounded division, and the formatting of the
    result with [:.2f]. *)

Module PyFloat.

Local Open Scope Z_scope.

Definition float : Type := Q.

(** [n / d] rounded to the nearest integer, ties to even ([0 < d]). *)
Definition round_half_even (n d : Z) : Z :=
  let q := n / d in
  let r := n mod d in
  match (2 * r ?= d) with
  | Lt => q
  | Gt => q + 1
  | Eq => if Z.even q then q else q + 1
  end.

(** [n < d * 2^e] for an exponent of either sign. *)
Definition below_pow2 (n d e : Z) : bool :=
  if 0 <=? e then n <? d * 2 ^ e else n * 2 ^ (- e) <? d.

(** The binary64 quotient of two integers [0 <= n], [0 < d]: the exponent
    [e] with [2^e <= n/d < 2^(e+1)], then the 53-bit significand rounded
    to nearest-even. *)
Definition div (n d : Z) : float :=
  if n =? 0 then 0%Q
  else
    let e0 := Z.log2 n - Z.log2 d in
    let e := if below_pow2 n d e0 then e0 - 1 else e0 in
    let s := 52 - e in
    if 0 <=? s
    then Qred (Qmake (round_half_even (n * 2 ^ s) d) (Z.to_pos (2 ^ s)))
    else inject_Z (round_half_even n (d * 2 ^ (- s)) * 2 ^ (- s)).

(** A decimal literal [digits / 10^scale], e.g. [0.8] is [literal 8 1]. *)
Definition literal (digits scale : Z) : float := div digits (10 ^ scale).

Definition leb (x y : float) : bool := Qle_bool x y.
Definition ltb (x y : float) : bool := negb (Qle_bool y x).

Definition digits_of (z : Z) : string :=
  NilZero.string_of_uint (N.to_uint (Z.to_N z)).

(** [f"{x:.2f}"]: the exact value rounded to two decimals, ties to even. *)
Definition format_2f (x : float) : string :=
  let neg := Qnum x <? 0 in
  let h := round_half_even (Z.abs (Qnum x) * 100) (Zpos (Qden x)) in
  let frac := h mod 100 in
  let sign := if neg then "-" else "" in
  let pad := if frac <? 10 then "0" else "" in
  (sign ++ digits_of (h / 100) ++ "." ++ pad ++ digits_of frac)%string.

End PyFloat.

(* ------------------------------------------------------------------ *)
(** ** [difflib.SequenceMatcher(None, a, b)] with the default [autojunk]

    [isjunk] is [None], so the junk set is empty; with [autojunk] a
    character of a [b] of 200 or more characters that occurs more than
    [len(b) // 100 + 1] times is "popular" and left out of [b2j]. *)

Module Difflib.

Definition match_t : Type := (nat * nat * nat)%type.   (* Match(a, b, size) *)

Section SequenceMatcher.

Variables a b : list ascii.

Fixpoint indices (c : ascii) (l : list ascii) (i : nat) : list nat :=
  match l with
  | [] => []
  | x :: l' => (if Ascii.eqb x c then [i] else []) ++ indices c l' (S i)
  end.

Definition popular (c : ascii) : bool :=
  (200 <=? List.length b) && (List.length b / 100 + 1 <? List.length (indices c b 0)).

(** [b2j.get(c, [])]: the positions of [c] in [b], increasing. *)
Definition b2j (c : ascii) : list nat :=
  if popular c then [] else indices c b 0.

(** [j2len.get(j, 0)] on a dict kept as an association list. *)
Fixpoint j2len_get (d : list (nat * nat)) (j : nat) : nat :=
  match d with
  | [] => 0
  | (j', k) :: d' => if j' =? j then k else j2len_get d' j
  end.

(** [j2len.get(j - 1, 0)]; the key [-1] is never present. *)
Definition j2len_prev (d : list (nat * nat)) (j : nat) : nat :=
  match j with
  | O => 0
  | S j' => j2len_get d j'
  end.

(** Body of [for j in b2j.get(a[i], nothing)] (for [blo <= j < bhi]). *)
Definition inner_step (i : nat) (j2len : list (nat * nat))
           (st : list (nat * nat) * match_t) (j : nat)
  : list (nat * nat) * match_t :=
  let '(newj2len, (besti, bestj, bestsize)) := st in
  let k := j2len_prev j2len j + 1 in
  let newj2len := (j, k) :: newj2len in
  if bestsize <? k
  then (newj2len, (i + 1 - k, j + 1 - k, k))
  else (newj2len, (besti, bestj, bestsize)).

(** Body of [for i in range(alo, ahi)].  The indices in [b2j] increase, so
    [continue] below [blo] and [break] from [bhi] keep exactly the [j]
    with [blo <= j < bhi]. *)
Definition outer_step (blo bhi : nat) (st : list (nat * nat) * match_t) (i : nat)
  : list (nat * nat) * match_t :=
  let '(j2len, best) := st in
  match nth_error a i with
  | Some x =>
      fold_left (inner_step i j2len)
                (filter (fun j => (blo <=? j) && (j <? bhi)) (b2j x))
                ([], best)
  | None => ([], best)
  end.

Definition same_at (i j : nat) : bool :=
  match nth_error a i, nth_error b j with
  | Some x, Some y => Ascii.eqb x y
  | _, _ => false
  end.

(** [while besti > alo and bestj > blo and a[besti-1] == b[bestj-1]] *)
Fixpoint extend_left (alo blo besti bestj bestsize : nat) : match_t :=
  match besti, bestj with
  | S i', S j' =>
      if (alo <? besti) && (blo <? bestj) && same_at i' j'
      then extend_left alo blo i' j' (S bestsize)
      else (besti, bestj, bestsize)
  | _, _ => (besti, bestj, bestsize)
  end.

(** [while besti+bestsize < ahi and bestj+bestsize < bhi and
     a[besti+bestsize] == b[bestj+bestsize]]; at most [ahi - besti -
    bestsize] rounds. *)
Fixpoint extend_right (rounds ahi bhi besti bestj bestsize : nat) : nat :=
  match rounds with
  | O => bestsize
  | S n =>
      if (besti + bestsize <? ahi) && (bestj + bestsize <? bhi)
         && same_at (besti + bestsize) (bestj + bestsize)
      then extend_right n ahi bhi besti bestj (S bestsize)
      else bestsize
  end.

(** [find_longest_match(alo, ahi, blo, bhi)].  The second pair of
    extension loops of the library only consumes junk, and there is
    none. *)
Definition find_longest_match (alo ahi blo bhi : nat) : match_t :=
  let '(_, (besti, bestj, bestsize)) :=
    fold_left (outer_step blo bhi) (seq alo (ahi - alo)) ([], (alo, blo, 0)) in
  let '(besti, bestj, bestsize) := extend_left alo blo besti bestj bestsize in
  let bestsize :=
    extend_right (ahi - (besti + bestsize)) ahi bhi besti bestj bestsize in
  (besti, bestj, bestsize).

(** The blocks [get_matching_blocks] appends, in the order of its work
    stack: the block found in a region, then those of the region to its
    right, then those of the region to its left.  Each nested region is
    a strictly shorter stretch of [a], so [depth = len(a)] suffices. *)
Fixpoint matching_blocks (depth alo ahi blo bhi : nat) : list match_t :=
  match depth with
  | O => []
  | S d =>
      let '(i, j, k) := find_longest_match alo ahi blo bhi in
      if k =? 0 then []
      else
        (i, j, k)
          :: (if (i + k <? ahi) && (j + k <? bhi)
              then matching_blocks d (i + k) ahi (j + k) bhi else [])
          ++ (if (alo <? i) && (blo <? j)
              then matching_blocks d alo i blo j else [])
  end.

Definition get_matching_blocks : list match_t :=
  matching_blocks (List.length a) 0 (List.length a) 0 (List.length b).

(** [sum(triple[-1] for triple in self.get_matching_blocks())]: sorting
    the blocks, merging adjacent ones and the final dummy of size 0 leave
    the sum as it is. *)
Definition matches : nat :=
  fold_right (fun t acc => snd t + acc) 0 get_matching_blocks.

(** [ratio()], through [_calculate_ratio(matches, len(a) + len(b))]. *)
Definition ratio : PyFloat.float :=
  let length := List.length a + List.length b in
  if length =? 0 then PyFloat.literal 10 1
  else PyFloat.div (2 * Z.of_nat matches) (Z.of_nat length).

End SequenceMatcher.

End Difflib.

(* ------------------------------------------------------------------ *)
(** ** [list(set(xs))] *)

Module PySet.

(** The order in which a set of strings is iterated is fixed by the
    interpreter (hash seed, insertion history) and not by the scripts.
    All that is used here is that the resulting list has the elements of
    [xs], each once. *)
Record set_iteration : Type := SetIteration {
  list_of_set : list string -> list string;
  list_of_set_NoDup : forall xs, NoDup (list_of_set xs);
  list_of_set_In : forall xs x, In x (list_of_set xs) <-> In x xs
}.

End PySet.

(* ------------------------------------------------------------------ *)
(** ** Data shared by the two scripts *)

Module Data.

(** A value of [employee_dict]: ['full_name'], ['first_name'],
    ['restaurants']. *)
Record employee_info : Type := EmployeeInfo {
  full_name : string;
  first_name : string;
  restaurants : list string
}.

(** [employee_dict], keyed by the lower-cased first name, in insertion
    order. *)
Definition employee_dict : Type := list (string * employee_info).

(** One element of the list [match_employee_to_review] returns. *)
Record match_result : Type := MatchResult {
  potential_name : string;
  matched_employee : string;
  confidence : PyFloat.float
}.

(** The locals [best_match], [best_score], [best_employee_info]. *)
Record best : Type := Best {
  best_match : option string;
  best_score : PyFloat.float;
  best_employee_info : option employee_info
}.

(** A row of the reviews table.  [comment] is [None] for a missing
    (null/NaN) cell, [published_datetime] is [None] for NaT; the three
    output columns are [None] as long as the table does not have them. *)
Record review_row : Type := ReviewRow {
  restaurant : string;
  comment : option string;
  published_datetime : option Z;
  mentioned_employees : option string;
  employee_matches : option string;
  employee_confidence : option string
}.

Definition dataframe : Type := list review_row.

End Data.

(* ------------------------------------------------------------------ *)
(** ** scripts/create_dataset.py *)

Module CreateDataset.

Import PyStr Re PySet Data.

(** [SequenceMatcher(None, a.lower(), b.lower()).ratio()] *)
Definition similarity_score (a b : string) : PyFloat.float :=
  Difflib.ratio (list_ascii_of_string (lower a)) (list_ascii_of_string (lower b)).

(** [([A-Z][a-z]+)] *)
Definition name_group : regex := Group (Seq (Cls upper_AZ) (Rep 1 lower_az)).

(** [(?:server|waiter|waitress|bartender|host|hostess)] *)
Definition role : regex :=
  words ["server"; "waiter"; "waitress"; "bartender"; "host"; "hostess"].

Definition spaces1 : regex := Rep 1 CSpace.    (* \s+ *)
Definition spaces0 : regex := Rep 0 CSpace.    (* \s* *)
Definition comma_space : charset := CUnion (CChar ",") CSpace.   (* [,\s] *)

Definition patterns : list regex :=
  [ (* \b([A-Z][a-z]+)\s+(?:was|is|had|did|helped|served|took)\b *)
    seqs [WordB; name_group; spaces1;
          words ["was"; "is"; "had"; "did"; "helped"; "served"; "took"]; WordB];
    (* (?:server|...|hostess)\s+([A-Z][a-z]+) *)
    seqs [role; spaces1; name_group];
    (* (?:our|my)?\s*(?:server|...|hostess)[,\s]+([A-Z][a-z]+) *)
    seqs [Opt (words ["our"; "my"]); spaces0; role; Rep 1 comma_space; name_group];
    (* \b([A-Z][a-z]+)(?:\s+[A-Z][a-z]{0,})?[,\s]+(?:our|my|the)?\s*(?:server|...|hostess),
       where {0,} stands for the star of the source *)
    seqs [WordB; name_group;
          Opt (seqs [spaces1; Cls upper_AZ; Rep 0 lower_az]);
          Rep 1 comma_space; Opt (words ["our"; "my"; "the"]); spaces0; role];
    (* (?:Thanks?|Thank\s+you),?\s+([A-Z][a-z]+)[!\.\s] *)
    seqs [Alt (Seq (Lit "Thank") (Opt (Lit "s")))
              (seqs [Lit "Thank"; spaces1; Lit "you"]);
          Opt (Lit ","); spaces1; name_group;
          Cls (CUnion (CChar "!") (CUnion (CChar ".") CSpace))];
    (* \b([A-Z][a-z]+)\s+(?:provided|delivered|gave|recommended|suggested) *)
    seqs [WordB; name_group; spaces1;
          words ["provided"; "delivered"; "gave"; "recommended"; "suggested"]];
    (* (?:served\s+by|helped\s+by)\s+([A-Z][a-z]+) *)
    seqs [Alt (seqs [Lit "served"; spaces1; Lit "by"])
              (seqs [Lit "helped"; spaces1; Lit "by"]);
          spaces1; name_group];
    (* \b([A-Z][a-z]+)\s+(?:at\s+the\s+)?(?:bar|front|host) *)
    seqs [WordB; name_group; spaces1;
          Opt (seqs [Lit "at"; spaces1; Lit "the"; spaces1]);
          words ["bar"; "front"; "host"]] ].

(** [\b[A-Z][a-z]{2,}\b] *)
Definition capitalized_word : regex :=
  seqs [WordB; Cls upper_AZ; Rep 2 lower_az; WordB].

(** The list [word.lower()] is looked up in. *)
Definition common_words : list string :=
  ["The"; "This"; "That"; "They"; "There"; "When"; "Where"; "What"; "Who";
   "Why"; "How"; "And"; "But"; "Or"; "So"; "Very"; "Really"; "Great"; "Good";
   "Bad"; "Nice"; "Food"; "Service"; "Restaurant"; "Place"; "Time"; "First";
   "Last"; "Next"; "Best"; "Worst"; "Perfect"; "Amazing"; "Awesome";
   "Terrible"; "Horrible"; "Excellent"; "Outstanding"; "Wonderful";
   "Fantastic"; "Incredible"].

(** [match.group(1).strip()]; group 1 takes part in every match of the
    eight patterns. *)
Definition captured_name (text : string) (m : match_obj) : string :=
  match group1 text m with
  | Some s => strip s
  | None => ""
  end.

(** The list [potential_names] before duplicates are removed. *)
Definition collected_names (text : string) : list string :=
  flat_map (fun pattern =>
              filter (fun name => 3 <=? String.length name)
                     (map (captured_name text) (finditer true pattern text)))
           patterns
  ++ filter (fun word => negb (contains (lower word) common_words))
            (findall false capitalized_word text).

Definition extract_potential_names (S : set_iteration) (text : option string)
  : list string :=
  match text with
  | None => []
  | Some "" => []
  | Some t => list_of_set S (collected_names t)
  end.

(** The words the resolver skips. *)
Definition skipped_words : list string :=
  ["and"; "the"; "was"; "had"; "our"; "very"; "great"; "good"; "food";
   "service"; "place"; "time"; "first"; "last"; "next"; "best"; "nice";
   "said"; "just"; "that"; "this"; "they"; "with"; "were"; "have"; "been";
   "will"; "would"; "could"; "should"; "made"; "came"; "went"; "got"; "get";
   "one"; "two"; "all"; "but"; "not"; "can"; "did"; "has"; "are"; "for";
   "you"; "your"; "his"; "her"; "him"; "she"; "he"; "we"; "us"; "me"; "my";
   "so"; "if"; "or"; "an"; "as"; "at"; "be"; "by"; "do"; "in"; "is"; "it";
   "no"; "of"; "on"; "to"; "up"; "clearly"].

(** The default of the parameter [min_similarity]. *)
Definition default_min_similarity : PyFloat.float := PyFloat.literal 8 1.

(** Body of [for first_name_key, employee_info in employee_dict.items()]. *)
Definition consider (potential_name restaurant_name : string)
           (min_similarity : PyFloat.float)
           (st : best) (item : string * employee_info) : best :=
  let employee_info := snd item in
  if negb (contains restaurant_name (restaurants employee_info)) then st
  else
    let score := similarity_score potential_name (first_name employee_info) in
    if PyFloat.ltb (best_score st) score && PyFloat.leb min_similarity score
    then Best (Some (full_name employee_info)) score (Some employee_info)
    else st.

Definition best_for (potential_name restaurant_name : string)
           (employees : employee_dict) (min_similarity : PyFloat.float) : best :=
  fold_left (consider potential_name restaurant_name min_similarity)
            employees (Best None 0%Q None).

(** Body of [for potential_name in potential_names]: what it appends to
    [matches]. *)
Definition resolve (restaurant_name : string) (employees : employee_dict)
           (min_similarity : PyFloat.float) (potential_name : string)
  : list match_result :=
  if contains (lower potential_name) skipped_words then []
  else
    let st := best_for potential_name restaurant_name employees min_similarity in
    match best_match st with
    | Some name =>
        if truthy name then [MatchResult potential_name name (best_score st)]
        else []
    | None => []
    end.

Definition match_employee_to_review (S : set_iteration) (review_text : option string)
           (restaurant_name : string) (employees : employee_dict)
           (min_similarity : PyFloat.float) : list match_result :=
  flat_map (resolve restaurant_name employees min_similarity)
           (extract_potential_names S review_text).

(** [published_datetime >= six_months_ago] on a column of timestamps (as
    [main] parses it); a comparison with NaT is false. *)
Definition is_recent (six_months_ago : Z) (row : review_row) : bool :=
  match published_datetime row with
  | Some t => (six_months_ago <=? t)%Z
  | None => false
  end.

Definition set_columns (row : review_row) (mentioned matched conf : string)
  : review_row :=
  ReviewRow (restaurant row) (comment row) (published_datetime row)
            (Some mentioned) (Some matched) (Some conf).

(** What the function does to one row once the roster is known to be
    non-empty: blank the three columns, then fill them for a recent row
    with at least one match. *)
Definition annotate_row (S : set_iteration) (six_months_ago : Z)
           (employees : employee_dict) (row : review_row) : review_row :=
  let blank := set_columns row "" "" "" in
  if is_recent six_months_ago row then
    let comment_matches :=
      match_employee_to_review S (comment row) (restaurant row) employees
                               default_min_similarity in
    match comment_matches with
    | [] => blank
    | _ :: _ =>
        let mentioned := map potential_name comment_matches in
        let matched := map matched_employee comment_matches in
        let conf := map (fun m => PyFloat.format_2f (confidence m)) comment_matches in
        set_columns row (join "; " mentioned) (join "; " matched) (join "; " conf)
    end
  else blank.

(** [six_months_ago] is [pd.Timestamp.now() - pd.DateOffset(months=6)],
    read from the clock; it is an input here. *)
Definition add_employee_matches_to_dataframe (S : set_iteration)
           (six_months_ago : Z) (df : dataframe) (employees : employee_dict)
  : dataframe :=
  match employees with
  | [] => df
  | _ :: _ => map (annotate_row S six_months_ago employees) df
  end.

End CreateDataset.

(* ------------------------------------------------------------------ *)
(** ** scripts/process_takeout.py

    The script defines the matching core a second time; the definitions
    below are taken from its own text. *)

Module ProcessTakeout.

Import PyStr Re PySet Data.

(** [SequenceMatcher(None, a.lower(), b.lower()).ratio()] *)
Definition similarity_score (a b : string) : PyFloat.float :=
  Difflib.ratio (list_ascii_of_string (lower a)) (list_ascii_of_string (lower b)).

(** [([A-Z][a-z]+)] *)
Definition name_group : regex := Group (Seq (Cls upper_AZ) (Rep 1 lower_az)).

(** [(?:server|waiter|waitress|bartender|host|hostess)] *)
Definition role : regex :=
  words ["server"; "waiter"; "waitress"; "bartender"; "host"; "hostess"].

Definition spaces1 : regex := Rep 1 CSpace.    (* \s+ *)
Definition spaces0 : regex := Rep 0 CSpace.    (* \s* *)
Definition comma_space : charset := CUnion (CChar ",") CSpace.   (* [,\s] *)

Definition patterns : list regex :=
  [ (* \b([A-Z][a-z]+)\s+(?:was|is|had|did|helped|served|took)\b *)
    seqs [WordB; name_group; spaces1;
          words ["was"; "is"; "had"; "did"; "helped"; "served"; "took"]; WordB];
    (* (?:server|...|hostess)\s+([A-Z][a-z]+) *)
    seqs [role; spaces1; name_group];
    (* (?:our|my)?\s*(?:server|...|hostess)[,\s]+([A-Z][a-z]+) *)
    seqs [Opt (words ["our"; "my"]); spaces0; role; Rep 1 comma_space; name_group];
    (* \b([A-Z][a-z]+)(?:\s+[A-Z][a-z]{0,})?[,\s]+(?:our|my|the)?\s*(?:server|...|hostess),
       where {0,} stands for the star of the source *)
    seqs [WordB; name_group;
          Opt (seqs [spaces1; Cls upper_AZ; Rep 0 lower_az]);
          Rep 1 comma_space; Opt (words ["our"; "my"; "the"]); spaces0; role];
    (* (?:Thanks?|Thank\s+you),?\s+([A-Z][a-z]+)[!\.\s] *)
    seqs [Alt (Seq (Lit "Thank") (Opt (Lit "s")))
              (seqs [Lit "Thank"; spaces1; Lit "you"]);
          Opt (Lit ","); spaces1; name_group;
          Cls (CUnion (CChar "!") (CUnion (CChar ".") CSpace))];
    (* \b([A-Z][a-z]+)\s+(?:provided|delivered|gave|recommended|suggested) *)
    seqs [WordB; name_group; spaces1;
          words ["provided"; "delivered"; "gave"; "recommended"; "suggested"]];
    (* (?:served\s+by|helped\s+by)\s+([A-Z][a-z]+) *)
    seqs [Alt (seqs [Lit "served"; spaces1; Lit "by"])
              (seqs [Lit "helped"; spaces1; Lit "by"]);
          spaces1; name_group];
    (* \b([A-Z][a-z]+)\s+(?:at\s+the\s+)?(?:bar|front|host) *)
    seqs [WordB; name_group; spaces1;
          Opt (seqs [Lit "at"; spaces1; Lit "the"; spaces1]);
          words ["bar"; "front"; "host"]] ].

(** [\b[A-Z][a-z]{2,}\b] *)
Definition capitalized_word : regex :=
  seqs [WordB; Cls upper_AZ; Rep 2 lower_az; WordB].

(** The list [word.lower()] is looked up in. *)
Definition common_words : list string :=
  ["The"; "This"; "That"; "They"; "There"; "When"; "Where"; "What"; "Who";
   "Why"; "How"; "And"; "But"; "Or"; "So"; "Very"; "Really"; "Great"; "Good";
   "Bad"; "Nice"; "Food"; "Service"; "Restaurant"; "Place"; "Time"; "First";
   "Last"; "Next"; "Best"; "Worst"; "Perfect"; "Amazing"; "Awesome";
   "Terrible"; "Horrible"; "Excellent"; "Outstanding"; "Wonderful";
   "Fantastic"; "Incredible"].

(** [match.group(1).strip()]; group 1 takes part in every match of the
    eight patterns. *)
Definition captured_name (text : string) (m : match_obj) : string :=
  match group1 text m with
  | Some s => strip s
  | None => ""
  end.

(** The list [potential_names] before duplicates are removed. *)
Definition collected_names (text : string) : list string :=
  flat_map (fun pattern =>
              filter (fun name => 3 <=? String.length name)
                     (map (captured_name text) (finditer true pattern text)))
           patterns
  ++ filter (fun word => negb (contains (lower word) common_words))
            (findall false capitalized_word text).

Definition extract_potential_names (S : set_iteration) (text : option string)
  : list string :=
  match text with
  | None => []
  | Some "" => []
  | Some t => list_of_set S (collected_names t)
  end.

(** The words the resolver skips. *)
Definition skipped_words : list string :=
  ["and"; "the"; "was"; "had"; "our"; "very"; "great"; "good"; "food";
   "service"; "place"; "time"; "first"; "last"; "next"; "best"; "nice";
   "said"; "just"; "that"; "this"; "they"; "with"; "were"; "have"; "been";
   "will"; "would"; "could"; "should"; "made"; "came"; "went"; "got"; "get";
   "one"; "two"; "all"; "but"; "not"; "can"; "did"; "has"; "are"; "for";
   "you"; "your"; "his"; "her"; "him"; "she"; "he"; "we"; "us"; "me"; "my";
   "so"; "if"; "or"; "an"; "as"; "at"; "be"; "by"; "do"; "in"; "is"; "it";
   "no"; "of"; "on"; "to"; "up"; "clearly"].

(** The default of the parameter [min_similarity]. *)
Definition default_min_similarity : PyFloat.float := PyFloat.literal 8 1.

(** Body of [for first_name_key, employee_info in employee_dict.items()]. *)
Definition consider (potential_name restaurant_name : string)
           (min_similarity : PyFloat.float)
           (st : best) (item : string * employee_info) : best :=
  let employee_info := snd item in
  if negb (contains restaurant_name (restaurants employee_info)) then st
  else
    let score := similarity_score potential_name (first_name employee_info) in
    if PyFloat.ltb (best_score st) score && PyFloat.leb min_similarity score
    then Best (Some (full_name employee_info)) score (Some employee_info)
    else st.

Definition best_for (potential_name restaurant_name : string)
           (employees : employee_dict) (min_similarity : PyFloat.float) : best :=
  fold_left (consider potential_name restaurant_name min_similarity)
            employees (Best None 0%Q None).

(** Body of [for potential_name in potential_names]: what it appends to
    [matches]. *)
Definition resolve (restaurant_name : string) (employees : employee_dict)
           (min_similarity : PyFloat.float) (potential_name : string)
  : list match_result :=
  if contains (lower potential_name) skipped_words then []
  else
    let st := best_for potential_name restaurant_name employees min_similarity in
    match best_match st with
    | Some name =>
        if truthy name then [MatchResult potential_name name (best_score st)]
        else []
    | None => []
    end.

Definition match_employee_to_review (S : set_iteration) (review_text : option string)
           (restaurant_name : string) (employees : employee_dict)
           (min_similarity : PyFloat.float) : list match_result :=
  flat_map (resolve restaurant_name employees min_similarity)
           (extract_potential_names S review_text).

End ProcessTakeout.

(* ------------------------------------------------------------------ *)
(** ** One admissible iteration order

    Keeping one occurrence of every element is a possible outcome of
    [list(set(xs))]; it serves to run the scripts on examples. *)

Definition insertion_order : PySet.set_iteration :=
  PySet.SetIteration (nodup string_dec)
                     (fun xs => NoDup_nodup string_dec xs)
                     (fun xs x => nodup_In string_dec xs x).

(** Another one: the same elements the other way round. *)
Definition reverse_order : PySet.set_iteration :=
  PySet.SetIteration
    (fun xs => rev (nodup string_dec xs))
    (fun xs => NoDup_rev (NoDup_nodup string_dec xs))
    (fun xs x => iff_trans (iff_sym (in_rev (nodup string_dec xs) x))
                           (nodup_In string_dec xs x)).

(* ------------------------------------------------------------------ *)
(** ** More [str] operations: [in], [split] *)

Module PyText.

Import PyStr.

(** [needle in hay] for two strings. *)
Fixpoint str_in (needle hay : string) : bool :=
  String.prefix needle hay
  || match hay with
     | String _ hay' => str_in needle hay'
     | EmptyString => false
     end.

(** [s.split(sep)] for a non-empty separator: the text is cut at every
    occurrence of [sep], found from left to right; [skip] counts the
    characters of an occurrence that are still to be passed over and
    [cur] is the piece read so far. *)
Fixpoint split_from (sep : string) (skip : nat) (cur s : string) : list string :=
  match s with
  | EmptyString => [cur]
  | String ch s' =>
      match skip with
      | S n => split_from sep n cur s'
      | O =>
          if String.prefix sep s
          then cur :: split_from sep (String.length sep - 1) EmptyString s'
          else split_from sep 0 (cur ++ String ch EmptyString) s'
      end
  end.

Definition split (sep s : string) : list string := split_from sep 0 EmptyString s.

(** [s.split()]: the words between runs of whitespace. *)
Fixpoint split_ws_from (cur s : string) : list string :=
  match s with
  | EmptyString => if truthy cur then [cur] else []
  | String ch s' =>
      if isspace ch
      then (if truthy cur then [cur] else []) ++ split_ws_from EmptyString s'
      else split_ws_from (cur ++ String ch EmptyString) s'
  end.

Definition split_ws (s : string) : list string := split_ws_from EmptyString s.

End PyText.

(* ------------------------------------------------------------------ *)
(** ** [load_employee_list] (the same text in both scripts)

    The file system and pandas are inputs: whether the file exists, its
    suffix, and the table [pd.read_csv] returns (or the fact that it
    raises).  A cell is missing (NaN), a [str], or a number; for a number
    the model keeps the text [str()] gives for it. *)

Module EmployeeFile.

Import PyStr PyText Data.

Inductive cell : Type :=
| NaN
| Text (s : string)
| Number (repr : string).

Record table : Type := Table {
  columns : list string;
  rows : list (list cell)
}.

Record employee_file : Type := MkEmployeeFile {
  file_exists : bool;        (* file_path.exists() *)
  suffix : string;           (* file_path.suffix *)
  read_csv : option table    (* [None]: pd.read_csv raises *)
}.

(** [str(value)] *)
Definition str (c : cell) : string :=
  match c with
  | NaN => "nan"
  | Text s => s
  | Number repr => repr
  end.

Fixpoint column_index (name : string) (cols : list string) : option nat :=
  match cols with
  | [] => None
  | col :: cols' =>
      if String.eqb col name then Some 0
      else option_map S (column_index name cols')
  end.

(** [row[name]] for a column the table has. *)
Definition get (t : table) (row : list cell) (name : string) : cell :=
  match column_index name (columns t) with
  | Some i => nth i row NaN
  | None => NaN
  end.

(** [employees[key] = value]: a key that is present keeps its place. *)
Fixpoint dict_set (key : string) (value : employee_info) (d : employee_dict)
  : employee_dict :=
  match d with
  | [] => [(key, value)]
  | (k, v) :: d' =>
      if String.eqb k key then (k, value) :: d'
      else (k, v) :: dict_set key value d'
  end.

(** [d.get(key)] *)
Fixpoint dict_get (key : string) (d : employee_dict) : option employee_info :=
  match d with
  | [] => None
  | (k, v) :: d' => if String.eqb k key then Some v else dict_get key d'
  end.

Definition target_roles : list string := ["Server"; "Bartender"; "Bar Prep"].

Definition system_entries : list string := ["server"; "pm"; "bar"; "catering"; "take"].

Definition grackle : string := "Grackle".
Definition margies_kitchen : string := "Margie's Kitchen & Cocktails".

(** Body of [for _, row in df.iterrows()] for the 7shifts format. *)
Definition seven_shifts_row (t : table) (employees : employee_dict)
           (row : list cell) : employee_dict :=
  let roles := lower (str (get t row "Roles")) in
  if existsb (fun role => str_in (lower role) roles) target_roles then
    let first_name := strip (str (get t row "First Name")) in
    let last_name := strip (str (get t row "Last name")) in
    let locations := lower (str (get t row "Locations")) in
    if truthy first_name && negb (String.eqb first_name "nan")
       && truthy last_name && negb (String.eqb last_name "nan")
    then
      let full_name := (first_name ++ " " ++ last_name)%string in
      let works_at :=
        (if str_in "grackle" locations then [grackle] else [])
        ++ (if str_in "margie" locations then [margies_kitchen] else []) in
      if contains (lower first_name) system_entries then employees
      else
        match works_at with
        | _ :: _ =>
            dict_set (lower first_name)
                     (EmployeeInfo full_name first_name works_at) employees
        | [] => employees
        end
    else employees
  else employees.

(** [series.dropna().tolist()] *)
Definition dropna (cells : list cell) : list cell :=
  filter (fun c => match c with NaN => false | _ => true end) cells.

(** The generic format: the column [name], else [Name], else the first
    column; an empty table has no first column ([IndexError]). *)
Definition generic_names (t : table) : option (list cell) :=
  if contains "name" (columns t)
  then Some (dropna (map (fun row => get t row "name") (rows t)))
  else if contains "Name" (columns t)
  then Some (dropna (map (fun row => get t row "Name") (rows t)))
  else match columns t with
       | [] => None
       | _ :: _ => Some (dropna (map (fun row => nth 0 row NaN) (rows t)))
       end.

(** [for name in names] of the generic format; a name that is a number
    has no [split] ([AttributeError]). *)
Fixpoint generic_rows (names : list cell) (employees : employee_dict)
  : option employee_dict :=
  match names with
  | [] => Some employees
  | Text name :: names' =>
      let first_name := match split_ws name with
                        | first :: _ => first
                        | [] => name
                        end in
      generic_rows names'
                   (dict_set (lower first_name)
                             (EmployeeInfo name first_name [grackle; margies_kitchen])
                             employees)
  | _ :: _ => None
  end.

Definition seven_shifts_format (t : table) : bool :=
  contains "First Name" (columns t) && contains "Last name" (columns t)
  && contains "Roles" (columns t) && contains "Locations" (columns t).

(** Every exception inside the [try] ends in [return {}]. *)
Definition load_employee_list (f : employee_file) : employee_dict :=
  if negb (file_exists f) then []
  else if String.eqb (lower (suffix f)) ".csv" then
    match read_csv f with
    | None => []
    | Some t =>
        if seven_shifts_format t
        then fold_left (seven_shifts_row t) (rows t) []
        else match generic_names t with
             | None => []
             | Some names =>
                 match generic_rows names [] with
                 | Some employees => employees
                 | None => []
                 end
             end
    end
  else [].

End EmployeeFile.

(* ------------------------------------------------------------------ *)
(** ** scripts/process_takeout.py: the annotation pass and its summary

    The script's own [add_employee_matches_to_dataframe]: the same pass as
    in create_dataset.py, followed by the list [all_matches] from which
    the mentions per employee are counted (the counts are only printed). *)

Module TakeoutSummary.

Import PyStr PyText PySet Data.

Definition is_recent (six_months_ago : Z) (row : review_row) : bool :=
  match published_datetime row with
  | Some t => (six_months_ago <=? t)%Z
  | None => false
  end.

Definition set_columns (row : review_row) (mentioned matched conf : string)
  : review_row :=
  ReviewRow (restaurant row) (comment row) (published_datetime row)
            (Some mentioned) (Some matched) (Some conf).

Definition annotate_row (S : set_iteration) (six_months_ago : Z)
           (employees : employee_dict) (row : review_row) : review_row :=
  let blank := set_columns row "" "" "" in
  if is_recent six_months_ago row then
    let comment_matches :=
      ProcessTakeout.match_employee_to_review
        S (comment row) (restaurant row) employees
        ProcessTakeout.default_min_similarity in
    match comment_matches with
    | [] => blank
    | _ :: _ =>
        let mentioned := map potential_name comment_matches in
        let matched := map matched_employee comment_matches in
        let conf := map (fun m => PyFloat.format_2f (confidence m)) comment_matches in
        set_columns row (join "; " mentioned) (join "; " matched) (join "; " conf)
    end
  else blank.

(** The table the function returns. *)
Definition add_employee_matches_to_dataframe (S : set_iteration)
           (six_months_ago : Z) (df : dataframe) (employees : employee_dict)
  : dataframe :=
  match employees with
  | [] => df
  | _ :: _ => map (annotate_row S six_months_ago employees) df
  end.

(** [all_matches]: for every index of [recent_df], the cell
    [df.at[idx, 'employee_matches']] of the annotated table, split at
    ["; "] when it is not empty.  [rows] pairs every row of the table
    that came in with its annotated row. *)
Definition all_matches (six_months_ago : Z) (rows : list (review_row * review_row))
  : list string :=
  flat_map (fun pair =>
              if is_recent six_months_ago (fst pair) then
                match employee_matches (snd pair) with
                | Some matches_str =>
                    if truthy matches_str then split "; " matches_str else []
                | None => []
                end
              else [])
           rows.

(** The list [all_matches] of a run of the function on a roster that is
    not empty. *)
Definition summary_matches (S : set_iteration) (six_months_ago : Z)
           (df : dataframe) (employees : employee_dict) : list string :=
  all_matches six_months_ago
              (combine df (add_employee_matches_to_dataframe S six_months_ago df
                                                             employees)).

End TakeoutSummary.

(* ------------------------------------------------------------------ *)
(** ** scripts/process_takeout.py: reading the review files

    [get_restaurant_name_from_location] and [parse_reviews] (the same text
    is in scripts/import_reviews.py).  The files are inputs: what
    [json.load] returned for them.  An exception that the script does not
    catch ends the function; the model returns it. *)

Module TakeoutJson.

(** A value [json.load] returns. *)
#[local] Unset Elimination Schemes.
Inductive json : Type :=
| JNull
| JBool (b : bool)
| JNumber (repr : string)
| JString (s : string)
| JArray (items : list json)
| JObject (members : list (string * json)).
#[local] Set Elimination Schemes.

Inductive exn : Type := AttributeError | TypeError.

Inductive result (A : Type) : Type :=
| Ok (a : A)
| Raise (e : exn).

Arguments Ok {A} a.
Arguments Raise {A} e.

Definition bind {A B : Type} (r : result A) (k : A -> result B) : result B :=
  match r with
  | Ok a => k a
  | Raise e => Raise e
  end.

Notation "x <- r ;; k" := (bind r (fun x => k))
  (at level 61, r at next level, right associativity).

Fixpoint lookup (key : string) (members : list (string * json)) : option json :=
  match members with
  | [] => None
  | (k, v) :: members' => if String.eqb k key then Some v else lookup key members'
  end.

(** [value.get(key, default)]: only a dict has the method. *)
Definition get (value : json) (key : string) (default : json) : result json :=
  match value with
  | JObject members =>
      Ok (match lookup key members with Some v => v | None => default end)
  | _ => Raise AttributeError
  end.

(** [rating_map.get(star_rating, 0)]: a list or a dict cannot be looked
    up in a dict ("unhashable type"). *)
Definition rating_map : list (string * Z) :=
  [("ONE", 1%Z); ("TWO", 2%Z); ("THREE", 3%Z); ("FOUR", 4%Z); ("FIVE", 5%Z)].

Fixpoint rating_lookup (s : string) (m : list (string * Z)) : Z :=
  match m with
  | [] => 0%Z
  | (k, n) :: m' => if String.eqb k s then n else rating_lookup s m'
  end.

Definition rating_of (star_rating : json) : result Z :=
  match star_rating with
  | JString s => Ok (rating_lookup s rating_map)
  | JArray _ | JObject _ => Raise TypeError
  | JNull | JBool _ | JNumber _ => Ok 0%Z
  end.

(** The state of [data.json] in the location folder. *)
Inductive data_file : Type :=
| Missing                  (* data_file.exists() is false *)
| Malformed                (* json.load raises JSONDecodeError *)
| Loaded (value : json).

Definition get_restaurant_name_from_location (location : data_file) : result json :=
  match location with
  | Loaded location_data => get location_data "title" (JString "Unknown")
  | Malformed | Missing => Ok (JString "Unknown")
  end.

(** The dict [review_data]. *)
Record review_data : Type := ReviewData {
  rd_restaurant : json;
  rd_rating : Z;
  rd_comment : json;
  rd_reviewer_name : json;
  rd_published_date : json;
  rd_updated_date : json;
  rd_response : json;
  rd_response_date : json;
  rd_review_id : json
}.

(** Body of [for item in review_items]. *)
Definition parse_item (restaurant_name item : json) : result review_data :=
  star_rating <- get item "starRating" (JString "ONE") ;;
  rating <- rating_of star_rating ;;
  review_reply <- get item "reviewReply" (JObject []) ;;
  response_comment <- get review_reply "comment" (JString "") ;;
  response_date <- get review_reply "updateTime" (JString "") ;;
  comment <- get item "comment" (JString "") ;;
  reviewer <- get item "reviewer" (JObject []) ;;
  reviewer_name <- get reviewer "displayName" (JString "") ;;
  published_date <- get item "createTime" (JString "") ;;
  updated_date <- get item "updateTime" (JString "") ;;
  review_id <- get item "name" (JString "") ;;
  Ok (ReviewData restaurant_name rating comment reviewer_name published_date
                 updated_date response_comment response_date review_id).

Fixpoint chars (s : string) : list json :=
  match s with
  | EmptyString => []
  | String c s' => JString (String c EmptyString) :: chars s'
  end.

(** What [for item in review_items] iterates over. *)
Definition iterate (review_items : json) : result (list json) :=
  match review_items with
  | JArray items => Ok items
  | JObject members => Ok (map (fun kv => JString (fst kv)) members)
  | JString s => Ok (chars s)
  | JNull | JBool _ | JNumber _ => Raise TypeError
  end.

Fixpoint parse_items (restaurant_name : json) (items : list json)
  : result (list review_data) :=
  match items with
  | [] => Ok []
  | item :: items' =>
      review <- parse_item restaurant_name item ;;
      reviews <- parse_items restaurant_name items' ;;
      Ok (review :: reviews)
  end.

(** [parse_reviews]: [location] is the [data.json] beside the review file,
    [data] what [json.load] returned for the review file. *)
Definition parse_reviews (location : data_file) (data : json)
  : result (list review_data) :=
  restaurant_name <- get_restaurant_name_from_location location ;;
  review_items <- get data "reviews" (JArray []) ;;
  items <- iterate review_items ;;
  parse_items restaurant_name items.

End TakeoutJson.

(* ================================================================== *)
(** * Vocabulary of the statements *)

Import PyStr PySet Data CreateDataset.

(** [Subsequence xs ys]: [xs] is [ys] with some elements left out, the
    others in their order. *)
Inductive Subsequence {A : Type} : list A -> list A -> Prop :=
| Subsequence_nil : Subsequence [] []
| Subsequence_skip : forall x xs ys, Subsequence xs ys -> Subsequence xs (x :: ys)
| Subsequence_keep : forall x xs ys, Subsequence xs ys -> Subsequence (x :: xs) (x :: ys).

Definition assigned (restaurant_name : string) (item : string * employee_info) : bool :=
  contains restaurant_name (restaurants (snd item)).

(** What holds of the three locals after any number of roster entries: a
    recorded match comes from an entry assigned to the restaurant, with
    the score of that entry, and the score passed the threshold. *)
Definition chosen_from (potential_name restaurant_name : string)
           (employees : employee_dict) (min_similarity : PyFloat.float)
           (st : best) : Prop :=
  match best_match st with
  | None => True
  | Some name =>
      PyFloat.leb min_similarity (best_score st) = true
      /\ exists item,
          In item employees
          /\ assigned restaurant_name item = true
          /\ name = full_name (snd item)
          /\ best_score st = similarity_score potential_name (first_name (snd item))
  end.

(** [occurs_in name text]: [name] is a contiguous piece of [text],
    character for character. *)
Definition occurs_in (name text : string) : Prop :=
  exists before after : string, text = (before ++ name ++ after)%string.

(** The least number of characters a match of a pattern consumes. *)
Fixpoint min_len (r : Re.regex) : nat :=
  match r with
  | Re.Lit s => String.length s
  | Re.Cls _ => 1
  | Re.Rep min _ => min
  | Re.Seq r1 r2 => min_len r1 + min_len r2
  | Re.Alt r1 r2 => Nat.min (min_len r1) (min_len r2)
  | Re.Opt _ => 0
  | Re.Group r1 => min_len r1
  | Re.WordB => 0
  end.

(** The length of the subject, seen from a cursor. *)
Definition extent (c : Re.cursor) : nat := Re.pos c + String.length (Re.rest c).

(** What [annotate_row] leaves in the three columns, in terms of the list
    of results of the row. *)
Definition results_of (S : set_iteration) (six_months_ago : Z)
           (emps : employee_dict) (row : review_row) : list match_result :=
  if is_recent six_months_ago row
  then match_employee_to_review S (comment row) (restaurant row) emps
                                default_min_similarity
  else [].

(** The recorded run lengths after [n] rows of a search that started at
    [blo]: a run ending at [j] is no longer than [n] and does not start
    before [blo]. *)
Definition runs_within (blo n : nat) (d : list (nat * nat)) : Prop :=
  forall j : nat, Difflib.j2len_get d j <= n /\ Difflib.j2len_get d j <= j + 1 - blo.

Definition block_within (alo ahi blo bhi : nat) (m : Difflib.match_t) : Prop :=
  let '(i, j, k) := m in alo <= i /\ i + k <= ahi /\ blo <= j /\ j + k <= bhi.

(** The characters a list of blocks covers. *)
Definition total_size (blocks : list Difflib.match_t) : nat :=
  fold_right (fun t acc => snd t + acc) 0 blocks.

(** Whether every match of a pattern goes through its capturing group. *)
Fixpoint sets_group (r : Re.regex) : bool :=
  match r with
  | Re.Seq r1 r2 => sets_group r1 || sets_group r2
  | Re.Alt r1 r2 => sets_group r1 && sets_group r2
  | Re.Group _ => true
  | Re.Lit _ | Re.Cls _ | Re.Rep _ _ | Re.Opt _ | Re.WordB => false
  end.

(** A row of a table that has none of the three output columns. *)
Definition lacks_output_fields (row : review_row) : Prop :=
  mentioned_employees row = None
  /\ employee_matches row = None
  /\ employee_confidence row = None.

(** The score of a candidate against one roster entry. *)
Definition score_for (candidate : string) (item : string * employee_info)
  : PyFloat.float :=
  similarity_score candidate (first_name (snd item)).

(** What the three locals record about the entries seen so far: nothing is
    recorded while the score is still 0; a recorded match is the first
    entry of the restaurant that reaches the recorded score, and no entry
    of the restaurant that passes the threshold scores higher. *)
Definition best_so_far (candidate restaurant_name : string)
           (min_similarity : PyFloat.float) (seen : employee_dict) (st : best)
  : Prop :=
  (0 <= best_score st)%Q
  /\ (best_match st = None -> best_score st = 0%Q)
  /\ (forall item,
         In item seen -> assigned restaurant_name item = true ->
         (min_similarity <= score_for candidate item)%Q ->
         (score_for candidate item <= best_score st)%Q)
  /\ (forall name,
         best_match st = Some name ->
         (0 < best_score st)%Q
         /\ (min_similarity <= best_score st)%Q
         /\ exists before item after,
             seen = before ++ item :: after
             /\ assigned restaurant_name item = true
             /\ name = full_name (snd item)
             /\ best_employee_info st = Some (snd item)
             /\ best_score st = score_for candidate item
             /\ forall earlier,
                 In earlier before -> assigned restaurant_name earlier = true ->
                 (score_for candidate earlier < best_score st)%Q).

(** In a string compared with itself: the number of characters up to and
    including position [i] that follow each other without a "popular"
    one. *)
Fixpoint run_length (x : list ascii) (i : nat) {struct i} : nat :=
  match nth_error x i with
  | Some c =>
      if Difflib.popular x c then 0
      else match i with
           | O => 1
           | S i' => S (run_length x i')
           end
  | None => 0
  end.

Definition run_before (x : list ascii) (i : nat) : nat :=
  match i with
  | O => 0
  | S i' => run_length x i'
  end.

(** The state of the longest-block search of a string against itself
    after [i] rows: the recorded runs are bounded by the runs of the
    string, the run on the diagonal is recorded exactly, and the best block
    lies on the diagonal and is at least as long as every run so far. *)
Definition diagonal_state (x : list ascii) (i : nat)
           (st : list (nat * nat) * Difflib.match_t) : Prop :=
  let '(j2len, (besti, bestj, bestsize)) := st in
  (forall j, Difflib.j2len_get j2len j <= run_before x i
             /\ Difflib.j2len_get j2len j <= run_length x j)
  /\ (forall i', i = S i' -> Difflib.j2len_get j2len i' = run_length x i')
  /\ (forall i', i' < i -> run_length x i' <= bestsize)
  /\ besti = bestj
  /\ besti + bestsize <= i.

(** Letters of the English alphabet. *)
Definition is_letter (c : ascii) : bool := in_range 65 90 c || in_range 97 122 c.

Fixpoint all_letters (s : string) : bool :=
  match s with
  | EmptyString => true
  | String c s' => is_letter c && all_letters s'
  end.

(** A class that, with or without re.IGNORECASE, only accepts letters. *)
Definition letter_class (cs : Re.charset) : Prop :=
  forall (ic : bool) (ch : ascii), Re.class_test ic cs ch = true -> is_letter ch = true.

(** A pattern that only consumes letters. *)
Fixpoint letters_only (r : Re.regex) : Prop :=
  match r with
  | Re.Lit s => s = EmptyString
  | Re.Cls cs => letter_class cs
  | Re.Rep _ cs => letter_class cs
  | Re.Seq r1 r2 => letters_only r1 /\ letters_only r2
  | Re.Alt r1 r2 => letters_only r1 /\ letters_only r2
  | Re.Opt r1 => letters_only r1
  | Re.Group r1 => letters_only r1
  | Re.WordB => True
  end.

(** A pattern whose capturing groups only consume letters. *)
Fixpoint groups_letters (r : Re.regex) : Prop :=
  match r with
  | Re.Seq r1 r2 => groups_letters r1 /\ groups_letters r2
  | Re.Alt r1 r2 => groups_letters r1 /\ groups_letters r2
  | Re.Opt r1 => groups_letters r1
  | Re.Group r1 => letters_only r1 /\ groups_letters r1
  | Re.Lit _ | Re.Cls _ | Re.Rep _ _ | Re.WordB => True
  end.

(** A recorded span of the subject that holds letters only. *)
Definition span_letters (text : string) (g : option Re.span) : Prop :=
  match g with
  | Some (a, b) => all_letters (slice a b text) = true
  | None => True
  end.

(** The cursor stands at its index in the subject. *)
Definition cursor_in (text : string) (c : Re.cursor) : Prop :=
  exists before : string,
    text = (before ++ Re.rest c)%string /\ String.length before = Re.pos c.

(** What [load_employee_list] reads from a row of a 7shifts table. *)
Definition first_name_of (t : EmployeeFile.table) (row : list EmployeeFile.cell)
  : string :=
  strip (EmployeeFile.str (EmployeeFile.get t row "First Name")).

Definition last_name_of (t : EmployeeFile.table) (row : list EmployeeFile.cell)
  : string :=
  strip (EmployeeFile.str (EmployeeFile.get t row "Last name")).

Definition roles_of (t : EmployeeFile.table) (row : list EmployeeFile.cell)
  : string :=
  lower (EmployeeFile.str (EmployeeFile.get t row "Roles")).

Definition locations_of (t : EmployeeFile.table) (row : list EmployeeFile.cell)
  : string :=
  lower (EmployeeFile.str (EmployeeFile.get t row "Locations")).

(** The row has one of the roles Server, Bartender, Bar Prep. *)
Definition customer_facing (t : EmployeeFile.table) (row : list EmployeeFile.cell)
  : bool :=
  existsb (fun role => PyText.str_in (lower role) (roles_of t row))
          EmployeeFile.target_roles.

(** Both names are present. *)
Definition named (t : EmployeeFile.table) (row : list EmployeeFile.cell) : bool :=
  truthy (first_name_of t row) && negb (String.eqb (first_name_of t row) "nan")
  && truthy (last_name_of t row) && negb (String.eqb (last_name_of t row) "nan").

(** The restaurants whose keyword occurs in the Locations cell. *)
Definition works_at (t : EmployeeFile.table) (row : list EmployeeFile.cell)
  : list string :=
  (if PyText.str_in "grackle" (locations_of t row) then [EmployeeFile.grackle] else [])
  ++ (if PyText.str_in "margie" (locations_of t row)
      then [EmployeeFile.margies_kitchen] else []).

(** The row puts an entry into the roster. *)
Definition listed (t : EmployeeFile.table) (row : list EmployeeFile.cell) : bool :=
  customer_facing t row && named t row
  && negb (contains (lower (first_name_of t row)) EmployeeFile.system_entries)
  && match works_at t row with [] => false | _ :: _ => true end.

(** The entry a listed row puts into the roster. *)
Definition entry_of (t : EmployeeFile.table) (row : list EmployeeFile.cell)
  : string * employee_info :=
  (lower (first_name_of t row),
   EmployeeInfo (first_name_of t row ++ " " ++ last_name_of t row)
                (first_name_of t row) (works_at t row)).

(** A file in the 7shifts format that can be read. *)
Definition seven_shifts_file (f : EmployeeFile.employee_file) (t : EmployeeFile.table)
  : Prop :=
  EmployeeFile.file_exists f = true
  /\ lower (EmployeeFile.suffix f) = ".csv"
  /\ EmployeeFile.read_csv f = Some t
  /\ EmployeeFile.seven_shifts_format t = true.

(** The shape every roster entry has. *)
Definition well_formed_entry (item : string * employee_info) : Prop :=
  fst item = lower (first_name (snd item))
  /\ restaurants (snd item) <> []
  /\ incl (restaurants (snd item))
          [EmployeeFile.grackle; EmployeeFile.margies_kitchen].

(** A string without semicolon. *)
Fixpoint no_semicolon (s : string) : bool :=
  match s with
  | EmptyString => true
  | String c s' => negb (Ascii.eqb c ";") && no_semicolon s'
  end.

(** The full name of a roster entry does not contain the separator of
    the joined fields. *)
Definition separator_free (item : string * employee_info) : Prop :=
  PyText.str_in "; " (full_name (snd item)) = false.

(** The five star-rating words of the review files. *)
Definition star_words : list string := ["ONE"; "TWO"; "THREE"; "FOUR"; "FIVE"].


(** The restaurant name [parse_reviews] tags the reviews with. *)
Definition location_title (location : TakeoutJson.data_file) : TakeoutJson.json :=
  match location with
  | TakeoutJson.Loaded (TakeoutJson.JObject members) =>
      match TakeoutJson.lookup "title" members with
      | Some title => title
      | None => TakeoutJson.JString "Unknown"
      end
  | _ => TakeoutJson.JString "Unknown"
  end.

(** The value of [key] in an object, [default] when the key is absent. *)
Definition field (key : string) (default : TakeoutJson.json)
           (members : list (string * TakeoutJson.json)) : TakeoutJson.json :=
  match TakeoutJson.lookup key members with
  | Some v => v
  | None => default
  end.

(** [review_of name item r]: [r] is the review of the object [item], tagged
    with the restaurant [name]; absent text fields are empty strings. *)
Definition review_of (name item : TakeoutJson.json) (r : TakeoutJson.review_data)
  : Prop :=
  exists members,
    item = TakeoutJson.JObject members
    /\ TakeoutJson.rd_restaurant r = name
    /\ TakeoutJson.rd_comment r = field "comment" (TakeoutJson.JString "") members
    /\ TakeoutJson.rd_published_date r
       = field "createTime" (TakeoutJson.JString "") members
    /\ TakeoutJson.rd_updated_date r
       = field "updateTime" (TakeoutJson.JString "") members
    /\ TakeoutJson.rd_review_id r = field "name" (TakeoutJson.JString "") members.




(** The length of the common run of [a] and [b] that ends at the
    positions [i] and [j] and starts neither before [alo] in [a] nor
    before [blo] in [b]. *)
Fixpoint run_at (a b : list ascii) (alo blo i j : nat) {struct i} : nat :=
  if (alo <=? i) && (blo <=? j) && Difflib.same_at a b i j
  then match i, j with
       | S i', S j' => S (run_at a b alo blo i' j')
       | _, _ => 1
       end
  else 0.

(** The run that ends one step before [(i, j)] on its diagonal. *)
Definition run_pred (a b : list ascii) (alo blo i j : nat) : nat :=
  match i, j with
  | S i', S j' => run_at a b alo blo i' j'
  | _, _ => 0
  end.

(** [common_block a b (i, j, k)]: the [k] characters of [a] from [i] on
    are the [k] characters of [b] from [j] on. *)
Definition common_block (a b : list ascii) (m : Difflib.match_t) : Prop :=
  let '(i, j, k) := m in
  forall t : nat, t < k -> Difflib.same_at a b (i + t) (j + t) = true.

(** A longest common block of a region that starts, among the common
    blocks of its length, first in [a] and first in [b]. *)
Definition first_longest_block (a b : list ascii) (alo ahi blo bhi : nat)
           (m : Difflib.match_t) : Prop :=
  let '(i, j, k) := m in
  1 <= k
  /\ block_within alo ahi blo bhi m
  /\ common_block a b m
  /\ forall i' j' k' : nat,
      1 <= k' ->
      block_within alo ahi blo bhi (i', j', k') ->
      common_block a b (i', j', k') ->
      k' <= k /\ (k' = k -> i <= i' /\ j <= j').

(** [ties_agree a b alo ahi blo bhi]: in the region, and then in the
    regions to the left and to the right of the block taken out, either
    no character of [a] equals one of [b], or the longest common blocks
    have one that starts first in both strings. *)
Inductive ties_agree (a b : list ascii) : nat -> nat -> nat -> nat -> Prop :=
| ties_agree_none : forall alo ahi blo bhi : nat,
    (forall i j : nat,
        alo <= i < ahi -> blo <= j < bhi -> Difflib.same_at a b i j = false) ->
    ties_agree a b alo ahi blo bhi
| ties_agree_block : forall alo ahi blo bhi i j k : nat,
    first_longest_block a b alo ahi blo bhi (i, j, k) ->
    ties_agree a b alo i blo j ->
    ties_agree a b (i + k) ahi (j + k) bhi ->
    ties_agree a b alo ahi blo bhi.

(** The cells of the search table that have been visited when [n] rows
    are done and the next row is done up to column [jf]. *)
Definition searched (alo blo bhi n jf i j : nat) : Prop :=
  blo <= j < bhi /\ alo <= i /\ (i < alo + n \/ (i = alo + n /\ j < jf)).

(** What the best block records about a set of cells: no run that ends
    in one of them is longer, and the block is the run of the first cell,
    row by row, that reaches its length. *)
Definition best_of (a b : list ascii) (alo blo : nat) (P : nat -> nat -> Prop)
           (best : Difflib.match_t) : Prop :=
  let '(bi, bj, bk) := best in
  (forall i j : nat, P i j -> run_at a b alo blo i j <= bk)
  /\ (bk = 0 -> bi = alo /\ bj = blo)
  /\ (1 <= bk ->
      exists ie je : nat,
        P ie je
        /\ run_at a b alo blo ie je = bk
        /\ bi = ie + 1 - bk /\ bj = je + 1 - bk
        /\ forall i j : nat,
            P i j -> run_at a b alo blo i j = bk ->
            ie < i \/ (ie = i /\ je <= j)).

(** The run lengths recorded for row [i] up to column [jf]. *)
Definition row_runs (a b : list ascii) (alo blo bhi i jf : nat)
           (d : list (nat * nat)) : Prop :=
  forall j : nat,
    Difflib.j2len_get d j
    = if (blo <=? j) && (j <? bhi) && (j <? jf) then run_at a b alo blo i j else 0.

(** The state of the search before row [alo + n]. *)
Definition rows_done (a b : list ascii) (alo blo bhi n : nat)
           (st : list (nat * nat) * Difflib.match_t) : Prop :=
  (forall j : nat,
      blo <= j < bhi -> Difflib.j2len_prev (fst st) j = run_pred a b alo blo (alo + n) j)
  /\ best_of a b alo blo (searched alo blo bhi n 0) (snd st).


(** A Python text given by its code points is a [string] when all of
    them are below 256. *)
Definition text_of_code_points (cps : list nat) : option string :=
  if forallb (fun n => n <? 256) cps
  then Some (string_of_list_ascii (map ascii_of_nat cps))
  else None.

(** The elements of a list in the order of their first occurrence. *)
Fixpoint first_seen (seen xs : list string) : list string :=
  match xs with
  | [] => []
  | x :: xs' =>
      if contains x seen then first_seen seen xs'
      else x :: first_seen (x :: seen) xs'
  end.

(** The candidates of a text in the order in which the extractor finds
    them. *)
Definition discovery_order (text : string) : list string :=
  first_seen [] (collected_names text).

(** ** Sample inputs *)

Definition jacob : employee_info :=
  EmployeeInfo "Jacob Smith" "Jacob" ["Grackle"].

Definition jacob_roster : employee_dict := [("jacob", jacob)].

Definition margies : string := "Margie's Kitchen & Cocktails".

Definition jacob_review : review_row :=
  ReviewRow "Grackle" (Some "Jacob was excellent tonight!") (Some 100%Z)
            None None None.

(** A perfect first-name match that works elsewhere, and a near match
    that works at Grackle. *)
Definition two_jacobs : employee_dict :=
  [("jacob", EmployeeInfo "Jacob Jones" "Jacob" [margies]);
   ("jakob", EmployeeInfo "Jakob Smith" "Jakob" ["Grackle"])].

Definition perfecto_roster : employee_dict :=
  [("perfecto", EmployeeInfo "Perfecto Garcia" "Perfecto" ["Grackle"])].

Definition food_comment : string := "The food and service were great".

(** Two first names that are equally close to Jacob. *)
Definition tied_roster : employee_dict :=
  [("jacobe", EmployeeInfo "Jacobe Lee" "Jacobe" ["Grackle"]);
   ("jacobi", EmployeeInfo "Jacobi Ray" "Jacobi" ["Grackle"])].

(** A 7shifts export: two listed employees, a system entry, a row without
    last name, a kitchen role, and a second Jacob further down. *)
Definition staff_table : EmployeeFile.table :=
  EmployeeFile.Table
    ["First Name"; "Last name"; "Roles"; "Locations"]
    [ [EmployeeFile.Text "Jacob"; EmployeeFile.Text "Smith";
       EmployeeFile.Text "Server, Host"; EmployeeFile.Text "Grackle"];
      [EmployeeFile.Text " Maria "; EmployeeFile.Text "Lopez";
       EmployeeFile.Text "Bartender"; EmployeeFile.Text "Margie's, Grackle"];
      [EmployeeFile.Text "Server"; EmployeeFile.Text "One";
       EmployeeFile.Text "Server"; EmployeeFile.Text "Grackle"];
      [EmployeeFile.Text "Ann"; EmployeeFile.NaN;
       EmployeeFile.Text "Server"; EmployeeFile.Text "Grackle"];
      [EmployeeFile.Text "Tom"; EmployeeFile.Text "Cook";
       EmployeeFile.Text "Line Cook"; EmployeeFile.Text "Grackle"];
      [EmployeeFile.Text "Jacob"; EmployeeFile.Text "Jones";
       EmployeeFile.Text "Bar Prep"; EmployeeFile.Text "Margies"] ].

Definition staff_file : EmployeeFile.employee_file :=
  EmployeeFile.MkEmployeeFile true ".CSV" (Some staff_table).

(** A review file with a five-star review, a review without rating and
    one with a rating word the script does not know. *)
Definition sample_reviews : TakeoutJson.json :=
  TakeoutJson.JObject
    [("reviews",
      TakeoutJson.JArray
        [TakeoutJson.JObject [("starRating", TakeoutJson.JString "FIVE");
                              ("comment", TakeoutJson.JString "Jacob was great")];
         TakeoutJson.JObject [("comment", TakeoutJson.JString "No stars given")];
         TakeoutJson.JObject [("starRating", TakeoutJson.JString "SIX")]])].

Definition sample_location : TakeoutJson.data_file :=
  TakeoutJson.Loaded (TakeoutJson.JObject [("title", TakeoutJson.JString "Grackle")]).


(** A review that mentions two employees of Grackle. *)
Definition pair_roster : employee_dict :=
  [("jacob", jacob);
   ("maria", EmployeeInfo "Maria Lopez" "Maria" ["Grackle"])].

Definition pair_comment : string := "Jacob was great and Maria was helpful".




(* ================================================================== *)
(** * Properties *)

(** ** Lists *)

Lemma Subsequence_In {A : Type} (xs ys : list A) :
  Subsequence xs ys -> forall x, In x xs -> In x ys.
Proof.
  induction 1 as [| y xs ys _ IH | y xs ys _ IH]; intros x Hx.
  - exact Hx.
  - right. apply IH, Hx.
  - destruct Hx as [<- | Hx]; [now left | right; apply IH, Hx].
Qed.

Lemma Subsequence_NoDup {A : Type} (xs ys : list A) :
  Subsequence xs ys -> NoDup ys -> NoDup xs.
Proof.
  induction 1 as [| y xs ys _ IH | y xs ys Hsub IH]; intros Hnd.
  - constructor.
  - inversion Hnd; subst. now apply IH.
  - inversion Hnd as [| ? ? Hnotin Hnd']; subst. constructor.
    + intros Hin. apply Hnotin. eapply Subsequence_In; eauto.
    + now apply IH.
Qed.

Lemma NoDup_singleton_eq {A : Type} (l : list A) (a : A) :
  NoDup l -> (forall x, In x l <-> In x [a]) -> l = [a].
Proof.
  intros Hnd Hin. destruct l as [| x l].
  - destruct (proj2 (Hin a) (or_introl eq_refl)).
  - assert (Hx : x = a).
    { destruct (proj1 (Hin x) (or_introl eq_refl)) as [E | []]. now symmetry. }
    subst x. f_equal. destruct l as [| y l]; [reflexivity | exfalso].
    assert (Hy : y = a).
    { destruct (proj1 (Hin y) (or_intror (or_introl eq_refl))) as [E | []].
      now symmetry. }
    subst y. inversion Hnd as [| ? ? Hnotin _]; subst. apply Hnotin. now left.
Qed.

(** ** Strings *)

Lemma string_app_nil_r (s : string) : (s ++ "")%string = s.
Proof. induction s as [| c s IH]; simpl; [reflexivity | now rewrite IH]. Qed.

Lemma string_app_assoc (s t u : string) :
  ((s ++ t) ++ u)%string = (s ++ t ++ u)%string.
Proof. induction s as [| c s IH]; simpl; [reflexivity | now rewrite IH]. Qed.

Lemma string_app_length (s t : string) :
  String.length (s ++ t) = String.length s + String.length t.
Proof. induction s as [| c s IH]; simpl; [reflexivity | now rewrite IH]. Qed.

Lemma string_app_empty (s t : string) :
  (s ++ t)%string = "" -> s = "" /\ t = "".
Proof. destruct s; simpl; [now split | discriminate]. Qed.

Lemma occurs_in_refl (s : string) : occurs_in s s.
Proof. exists "", "". simpl. now rewrite string_app_nil_r. Qed.

Lemma occurs_in_trans (s t u : string) :
  occurs_in s t -> occurs_in t u -> occurs_in s u.
Proof.
  intros (b1 & a1 & ->) (b2 & a2 & ->).
  exists (b2 ++ b1)%string, (a1 ++ a2)%string.
  now rewrite !string_app_assoc.
Qed.

Lemma occurs_in_cons (c : ascii) (s t : string) :
  occurs_in s t -> occurs_in s (String c t).
Proof. intros (b & a & ->). now exists (String c b), a. Qed.

Lemma substring_prefix (s : string) :
  forall m : nat, exists after : string, s = (substring 0 m s ++ after)%string.
Proof.
  induction s as [| c s IH]; intros m.
  - exists "". now destruct m.
  - destruct m as [| m]; simpl.
    + now exists (String c s).
    + destruct (IH m) as (a & E). exists a. now rewrite <- E.
Qed.

Lemma substring_occurs (s : string) :
  forall n m : nat, occurs_in (substring n m s) s.
Proof.
  induction s as [| c s IH]; intros n m.
  - destruct n, m; apply occurs_in_refl.
  - destruct n as [| n].
    + destruct (substring_prefix (String c s) m) as (a & E).
      now exists "", a.
    + simpl. apply occurs_in_cons, IH.
Qed.

Lemma substring_length (s : string) :
  forall n m : nat,
    n + m <= String.length s -> String.length (substring n m s) = m.
Proof.
  induction s as [| c s IH]; intros n m H; simpl in H.
  - assert (n = 0) by lia. assert (m = 0) by lia. now subst.
  - destruct n as [| n].
    + destruct m as [| m]; simpl; [reflexivity |].
      f_equal. apply IH. simpl. lia.
    + simpl. apply IH. lia.
Qed.

Lemma lstrip_occurs (s : string) : occurs_in (lstrip s) s.
Proof.
  induction s as [| c s IH]; simpl.
  - apply occurs_in_refl.
  - destruct (isspace c).
    + now apply occurs_in_cons.
    + apply occurs_in_refl.
Qed.

Lemma rstrip_prefix (s : string) :
  exists after : string, s = (rstrip s ++ after)%string.
Proof.
  induction s as [| c s IH]; simpl.
  - now exists "".
  - destruct IH as (a & E). destruct (rstrip s) as [| c' t].
    + destruct (isspace c); simpl.
      * now exists (String c s).
      * now exists s.
    + exists a. simpl in *. now rewrite <- E.
Qed.

Lemma strip_occurs (s : string) : occurs_in (strip s) s.
Proof.
  unfold strip. apply occurs_in_trans with (lstrip s); [| apply lstrip_occurs].
  destruct (rstrip_prefix (lstrip s)) as (a & E). now exists "", a.
Qed.

(** ** The matcher: how far a match reaches *)

Lemma lit_reaches (ic : bool) (s : string) :
  forall c c' : Re.cursor,
    Re.lit ic s c = Some c' ->
    Re.pos c + String.length s <= Re.pos c' /\ extent c' = extent c.
Proof.
  induction s as [| x s IH]; intros c c' H; simpl in H.
  - injection H as <-. split; simpl; lia.
  - destruct (Re.rest c) as [| ch r] eqn:Er; [discriminate |].
    destruct (Re.char_test ic x ch); [| discriminate].
    apply IH in H. unfold extent in *. simpl in *. rewrite Er. simpl. lia.
Qed.

Lemma rep_reaches {A : Type} (ic : bool) (cs : Re.charset) (min : nat)
      (k : Re.cursor -> option A) (x : A) (rs : string) :
  forall (count p : nat) (pv : option ascii),
    Re.rep ic cs min count p pv rs k = Some x ->
    exists c' : Re.cursor,
      k c' = Some x
      /\ p + (min - count) <= Re.pos c'
      /\ extent c' = p + String.length rs.
Proof.
  assert (Hstop : forall (count p : nat) (pv : option ascii) (rs0 : string),
             (if min <=? count then k (Re.Cursor p pv rs0) else None) = Some x ->
             exists c' : Re.cursor,
               k c' = Some x
               /\ p + (min - count) <= Re.pos c'
               /\ extent c' = p + String.length rs0).
  { intros count p pv rs0 H. destruct (min <=? count) eqn:Hle; [| discriminate].
    apply Nat.leb_le in Hle. exists (Re.Cursor p pv rs0).
    unfold extent; simpl. repeat split; [exact H | lia]. }
  induction rs as [| ch r IH]; intros count p pv H; simpl in H.
  - now apply Hstop in H.
  - destruct (Re.class_test ic cs ch).
    + destruct (Re.rep ic cs min (S count) (S p) (Some ch) r k) as [y |] eqn:Hrec.
      * injection H as ->. apply IH in Hrec.
        destruct Hrec as (c' & Hk & Hpos & Hext).
        exists c'. simpl. repeat split; [exact Hk | lia | lia].
      * now apply Hstop in H.
    + now apply Hstop in H.
Qed.

Lemma run_reaches {A : Type} (ic : bool) (r : Re.regex) :
  forall (c : Re.cursor) (g : option Re.span)
         (k : Re.cursor -> option Re.span -> option A) (x : A),
    Re.run ic r c g k = Some x ->
    exists (c' : Re.cursor) (g' : option Re.span),
      k c' g' = Some x
      /\ Re.pos c + min_len r <= Re.pos c'
      /\ extent c' = extent c.
Proof.
  induction r as [s | cs | min cs | r1 IH1 r2 IH2 | r1 IH1 r2 IH2 | r1 IH1 | r1 IH1 |];
    intros c g k x H; simpl in H.
  - destruct (Re.lit ic s c) as [c' |] eqn:Hl; [| discriminate].
    apply lit_reaches in Hl. exists c', g. simpl. tauto.
  - destruct (Re.rest c) as [| ch rs] eqn:Er; [discriminate |].
    destruct (Re.class_test ic cs ch); [| discriminate].
    eexists; exists g. split; [exact H |].
    unfold extent; simpl. rewrite Er; simpl. lia.
  - apply rep_reaches in H. destruct H as (c' & Hk & Hpos & Hext).
    exists c', g. simpl. unfold extent at 2. repeat split; [exact Hk | lia | lia].
  - apply IH1 in H. destruct H as (c1 & g1 & H & Hpos1 & Hext1).
    apply IH2 in H. destruct H as (c2 & g2 & H & Hpos2 & Hext2).
    exists c2, g2. simpl. repeat split; [exact H | lia | congruence].
  - destruct (Re.run ic r1 c g k) as [y |] eqn:H1.
    + injection H as ->. apply IH1 in H1.
      destruct H1 as (c' & g' & Hk & Hpos & Hext).
      exists c', g'. simpl. repeat split; [exact Hk | lia | exact Hext].
    + apply IH2 in H. destruct H as (c' & g' & Hk & Hpos & Hext).
      exists c', g'. simpl. repeat split; [exact Hk | lia | exact Hext].
  - destruct (Re.run ic r1 c g k) as [y |] eqn:H1.
    + injection H as ->. apply IH1 in H1.
      destruct H1 as (c' & g' & Hk & Hpos & Hext).
      exists c', g'. simpl. repeat split; [exact Hk | lia | exact Hext].
    + exists c, g. simpl. repeat split; [exact H | lia].
  - apply IH1 in H. destruct H as (c' & g' & Hk & Hpos & Hext).
    exists c'. eexists. simpl. repeat split; [exact Hk | lia | exact Hext].
  - destruct (Re.at_word_boundary c); [| discriminate].
    exists c, g. simpl. repeat split; [exact H | lia].
Qed.

Lemma match_at_span (ic : bool) (r : Re.regex) (c : Re.cursor) (m : Re.match_obj) :
  Re.match_at ic r c = Some m ->
  Re.m_start m = Re.pos c
  /\ Re.pos c + min_len r <= Re.m_end m
  /\ Re.m_end m <= extent c.
Proof.
  unfold Re.match_at. intros H. apply run_reaches in H.
  destruct H as (c' & g' & Hk & Hpos & Hext).
  injection Hk as <-. simpl. repeat split; [exact Hpos |].
  rewrite <- Hext. unfold extent. lia.
Qed.

Lemma scan_spans (ic : bool) (r : Re.regex) (m : Re.match_obj) (rs : string) :
  forall (skip p : nat) (pv : option ascii),
    In m (Re.scan ic r skip p pv rs) ->
    Re.m_start m + min_len r <= Re.m_end m
    /\ Re.m_end m <= p + String.length rs.
Proof.
  assert (Hhere : forall (skip p : nat) (pv : option ascii) (rs0 : string),
             In m (match (match skip with
                          | O => Re.match_at ic r (Re.Cursor p pv rs0)
                          | S _ => None
                          end) with
                   | Some m0 => [m0]
                   | None => []
                   end) ->
             Re.m_start m + min_len r <= Re.m_end m
             /\ Re.m_end m <= p + String.length rs0).
  { intros skip p pv rs0 H. destruct skip; [| contradiction].
    destruct (Re.match_at ic r (Re.Cursor p pv rs0)) as [m0 |] eqn:Hm;
      [| contradiction].
    destruct H as [<- | []]. apply match_at_span in Hm.
    unfold extent in Hm; simpl in Hm. lia. }
  induction rs as [| ch rs IH]; intros skip p pv H; simpl in H;
    apply in_app_or in H; destruct H as [H | H].
  - now apply Hhere in H.
  - contradiction.
  - now apply Hhere in H.
  - apply IH in H. simpl. lia.
Qed.

Lemma finditer_spans (ic : bool) (r : Re.regex) (text : string) (m : Re.match_obj) :
  In m (Re.finditer ic r text) ->
  Re.m_start m + min_len r <= Re.m_end m
  /\ Re.m_end m <= String.length text.
Proof. unfold Re.finditer. intros H. now apply scan_spans in H. Qed.

(** ** The matcher: group 1 *)

Lemma run_sets_group {A : Type} (ic : bool) (r : Re.regex) :
  forall (c : Re.cursor) (g : option Re.span)
         (k : Re.cursor -> option Re.span -> option A) (x : A),
    Re.run ic r c g k = Some x ->
    exists (c' : Re.cursor) (g' : option Re.span),
      k c' g' = Some x
      /\ (sets_group r = true \/ g <> None -> g' <> None).
Proof.
  induction r as [s | cs | min cs | r1 IH1 r2 IH2 | r1 IH1 r2 IH2 | r1 IH1 | r1 IH1 |];
    intros c g k x H; simpl in H.
  - destruct (Re.lit ic s c) as [c' |]; [| discriminate].
    exists c', g. split; [exact H |]. now intros [Hs | Hg].
  - destruct (Re.rest c) as [| ch rs]; [discriminate |].
    destruct (Re.class_test ic cs ch); [| discriminate].
    eexists; exists g. split; [exact H |]. now intros [Hs | Hg].
  - apply rep_reaches in H. destruct H as (c' & Hk & _).
    exists c', g. split; [exact Hk |]. now intros [Hs | Hg].
  - apply IH1 in H. destruct H as (c1 & g1 & H & Hg1).
    apply IH2 in H. destruct H as (c2 & g2 & H & Hg2).
    exists c2, g2. split; [exact H |]. simpl. intros [Hs | Hg].
    + apply orb_true_iff in Hs. destruct Hs as [Hs | Hs]; auto.
    + auto.
  - destruct (Re.run ic r1 c g k) as [y |] eqn:H1.
    + injection H as ->. apply IH1 in H1. destruct H1 as (c' & g' & Hk & Hg').
      exists c', g'. split; [exact Hk |]. simpl. intros [Hs | Hg]; auto.
      apply andb_true_iff in Hs. destruct Hs; auto.
    + apply IH2 in H. destruct H as (c' & g' & Hk & Hg').
      exists c', g'. split; [exact Hk |]. simpl. intros [Hs | Hg]; auto.
      apply andb_true_iff in Hs. destruct Hs; auto.
  - destruct (Re.run ic r1 c g k) as [y |] eqn:H1.
    + injection H as ->. apply IH1 in H1. destruct H1 as (c' & g' & Hk & Hg').
      exists c', g'. split; [exact Hk |]. simpl. intros [Hs | Hg]; auto.
      discriminate.
    + exists c, g. split; [exact H |]. simpl. now intros [Hs | Hg].
  - apply IH1 in H. destruct H as (c' & g' & Hk & _).
    exists c'. eexists. split; [exact Hk |]. discriminate.
  - destruct (Re.at_word_boundary c); [| discriminate].
    exists c, g. split; [exact H |]. now intros [Hs | Hg].
Qed.

Lemma scan_sets_group (ic : bool) (r : Re.regex) (m : Re.match_obj) (rs : string) :
  sets_group r = true ->
  forall (skip p : nat) (pv : option ascii),
    In m (Re.scan ic r skip p pv rs) -> Re.m_group1 m <> None.
Proof.
  intros Hr.
  assert (Hhere : forall (skip p : nat) (pv : option ascii) (rs0 : string),
             In m (match (match skip with
                          | O => Re.match_at ic r (Re.Cursor p pv rs0)
                          | S _ => None
                          end) with
                   | Some m0 => [m0]
                   | None => []
                   end) ->
             Re.m_group1 m <> None).
  { intros skip p pv rs0 H. destruct skip; [| contradiction].
    destruct (Re.match_at ic r (Re.Cursor p pv rs0)) as [m0 |] eqn:Hm;
      [| contradiction].
    destruct H as [<- | []]. unfold Re.match_at in Hm.
    apply run_sets_group in Hm. destruct Hm as (c' & g' & Hk & Hg).
    injection Hk as <-. simpl. auto. }
  induction rs as [| ch rs IH]; intros skip p pv H; simpl in H;
    apply in_app_or in H; destruct H as [H | H].
  - now apply Hhere in H.
  - contradiction.
  - now apply Hhere in H.
  - now apply IH in H.
Qed.

(** Group 1 takes part in every match of the eight contextual patterns,
    so that [match.group(1)] is a string whenever the script strips it. *)
Lemma patterns_capture (pattern : Re.regex) (text : string) (m : Re.match_obj) :
  In pattern patterns ->
  In m (Re.finditer true pattern text) ->
  Re.group1 text m <> None.
Proof.
  intros Hp Hm.
  assert (Hs : sets_group pattern = true).
  { assert (Hall : forallb sets_group patterns = true) by reflexivity.
    rewrite forallb_forall in Hall. now apply Hall. }
  apply (scan_sets_group true pattern m text Hs) in Hm.
  unfold Re.group1. destruct (Re.m_group1 m) as [[s e] |]; [discriminate | contradiction].
Qed.

(** No pattern of the scripts matches the empty string. *)
Lemma patterns_consume :
  forallb (fun r => 1 <=? min_len r) (capitalized_word :: patterns) = true.
Proof. reflexivity. Qed.

(** ** The extractor *)

Lemma captured_name_occurs (text : string) (m : Re.match_obj) :
  occurs_in (captured_name text m) text.
Proof.
  unfold captured_name, Re.group1. destruct (Re.m_group1 m) as [[s e] |].
  - eapply occurs_in_trans; [apply strip_occurs | apply substring_occurs].
  - now exists "", text.
Qed.

Lemma capitalized_word_length (text word : string) :
  In word (Re.findall false capitalized_word text) ->
  3 <= String.length word /\ occurs_in word text.
Proof.
  unfold Re.findall. rewrite in_map_iff. intros (m & <- & Hm).
  apply finditer_spans in Hm. change (min_len capitalized_word) with 3 in Hm.
  unfold Re.group0, slice. split; [| apply substring_occurs].
  rewrite substring_length; lia.
Qed.

Lemma collected_names_spec (text name : string) :
  In name (collected_names text) ->
  3 <= String.length name /\ occurs_in name text.
Proof.
  unfold collected_names. intros H. apply in_app_or in H. destruct H as [H | H].
  - apply in_flat_map in H. destruct H as (pattern & _ & H).
    apply filter_In in H. destruct H as [H Hlen].
    apply in_map_iff in H. destruct H as (m & <- & _).
    split; [now apply Nat.leb_le | apply captured_name_occurs].
  - apply filter_In in H. destruct H as [H _].
    now apply capitalized_word_length.
Qed.

Lemma extract_potential_names_collected (S : set_iteration) (text : option string)
      (name : string) :
  In name (extract_potential_names S text) ->
  exists t : string, text = Some t /\ t <> "" /\ In name (collected_names t).
Proof.
  destruct text as [[| c t] |]; simpl; try contradiction.
  intros H. apply list_of_set_In in H.
  exists (String c t). repeat split; [discriminate | exact H].
Qed.

Lemma extract_potential_names_length (S : set_iteration) (text : option string)
      (name : string) :
  In name (extract_potential_names S text) -> 3 <= String.length name.
Proof.
  intros H. apply extract_potential_names_collected in H.
  destruct H as (t & _ & _ & H). now apply collected_names_spec in H.
Qed.

(** C6: every token the extractor returns has at least three characters
    and is a contiguous piece of the input text, character for character;
    in particular a token is only ever returned for a text that is
    present and not empty. *)
Theorem extract_tokens_occur_in_text (S : set_iteration) (text : option string)
        (name : string) :
  In name (extract_potential_names S text) ->
  3 <= String.length name
  /\ exists t : string, text = Some t /\ t <> "" /\ occurs_in name t.
Proof.
  intros H. split.
  - now apply extract_potential_names_length in H.
  - destruct (extract_potential_names_collected S text name H) as (t & E & Ht & Hin).
    exists t. repeat split; try assumption.
    now apply collected_names_spec in Hin.
Qed.

(** C6 on the token Jacob. *)
Lemma extract_tokens_occur_in_text_witness :
  In "Jacob" (extract_potential_names insertion_order
                (Some "Jacob was excellent tonight!"))
  /\ 3 <= String.length "Jacob"
  /\ exists t : string,
      Some "Jacob was excellent tonight!" = Some t /\ t <> ""
      /\ occurs_in "Jacob" t.
Proof.
  assert (H : In "Jacob" (extract_potential_names insertion_order
                            (Some "Jacob was excellent tonight!")))
    by (vm_compute; left; reflexivity).
  split; [exact H |].
  exact (extract_tokens_occur_in_text _ _ _ H).
Defined.

(** ** The longest-block search stays inside its region *)

Section Regions.

Variables a b : list ascii.

Lemma j2len_prev_within (blo n : nat) (d : list (nat * nat)) (j : nat) :
  runs_within blo n d -> blo <= j ->
  Difflib.j2len_prev d j <= n /\ Difflib.j2len_prev d j <= j - blo.
Proof.
  intros Hd Hj. destruct j as [| j']; unfold Difflib.j2len_prev; [lia |].
  destruct (Hd j') as [H1 H2]. lia.
Qed.

Lemma inner_step_within (alo blo bhi n : nat) (j2len : list (nat * nat))
      (st : list (nat * nat) * Difflib.match_t) (j : nat) :
  runs_within blo n j2len ->
  blo <= j < bhi ->
  runs_within blo (S n) (fst st) ->
  block_within alo (alo + S n) blo bhi (snd st) ->
  runs_within blo (S n) (fst (Difflib.inner_step (alo + n) j2len st j))
  /\ block_within alo (alo + S n) blo bhi
                  (snd (Difflib.inner_step (alo + n) j2len st j)).
Proof.
  intros Hprev Hj Hnew Hbest.
  destruct st as [newj2len [[besti bestj] bestsize]]. simpl in Hnew, Hbest.
  destruct (j2len_prev_within blo n j2len j Hprev (proj1 Hj)) as [Hk1 Hk2].
  unfold Difflib.inner_step.
  assert (Hruns : runs_within blo (S n)
                    ((j, Difflib.j2len_prev j2len j + 1) :: newj2len)).
  { intros j0. simpl. destruct (Nat.eqb_spec j j0) as [<- | _].
    - lia.
    - apply Hnew. }
  destruct (bestsize <? Difflib.j2len_prev j2len j + 1); simpl.
  - split; [exact Hruns | lia].
  - split; [exact Hruns | exact Hbest].
Qed.

Lemma fold_inner_step_within (alo blo bhi n : nat) (j2len : list (nat * nat))
      (js : list nat) :
  runs_within blo n j2len ->
  Forall (fun j => blo <= j < bhi) js ->
  forall st : list (nat * nat) * Difflib.match_t,
    runs_within blo (S n) (fst st) ->
    block_within alo (alo + S n) blo bhi (snd st) ->
    runs_within blo (S n)
                (fst (fold_left (Difflib.inner_step (alo + n) j2len) js st))
    /\ block_within alo (alo + S n) blo bhi
                    (snd (fold_left (Difflib.inner_step (alo + n) j2len) js st)).
Proof.
  intros Hprev Hjs. induction Hjs as [| j js Hj _ IH]; intros st Hnew Hbest; simpl.
  - now split.
  - destruct (inner_step_within alo blo bhi n j2len st j Hprev Hj Hnew Hbest)
      as [H1 H2].
    now apply IH.
Qed.

Lemma block_within_grow (alo ahi ahi' blo bhi : nat) (m : Difflib.match_t) :
  ahi <= ahi' -> block_within alo ahi blo bhi m -> block_within alo ahi' blo bhi m.
Proof. destruct m as [[i j] k]. simpl. lia. Qed.

Lemma runs_within_nil (blo n : nat) : runs_within blo n [].
Proof. intros j. simpl. lia. Qed.

Lemma outer_step_within (alo blo bhi n : nat)
      (st : list (nat * nat) * Difflib.match_t) :
  runs_within blo n (fst st) ->
  block_within alo (alo + n) blo bhi (snd st) ->
  runs_within blo (S n) (fst (Difflib.outer_step a b blo bhi st (alo + n)))
  /\ block_within alo (alo + S n) blo bhi
                  (snd (Difflib.outer_step a b blo bhi st (alo + n))).
Proof.
  intros Hd Hbest. destruct st as [j2len best]. simpl in Hd, Hbest.
  assert (Hbest' : block_within alo (alo + S n) blo bhi best)
    by (eapply block_within_grow; [| exact Hbest]; lia).
  unfold Difflib.outer_step. destruct (nth_error a (alo + n)) as [x |].
  - apply fold_inner_step_within; simpl; auto using runs_within_nil.
    apply Forall_forall. intros j Hj. apply filter_In in Hj. destruct Hj as [_ Hj].
    apply andb_true_iff in Hj. destruct Hj as [H1 H2].
    apply Nat.leb_le in H1. apply Nat.ltb_lt in H2. lia.
  - simpl. split; [apply runs_within_nil | exact Hbest'].
Qed.

Lemma fold_outer_step_within (alo blo bhi : nat) (m : nat) :
  forall (n : nat) (st : list (nat * nat) * Difflib.match_t),
    runs_within blo n (fst st) ->
    block_within alo (alo + n) blo bhi (snd st) ->
    block_within alo (alo + n + m) blo bhi
                 (snd (fold_left (Difflib.outer_step a b blo bhi)
                                 (seq (alo + n) m) st)).
Proof.
  induction m as [| m IH]; intros n st Hd Hbest; simpl.
  - now rewrite Nat.add_0_r.
  - destruct (outer_step_within alo blo bhi n st Hd Hbest) as [H1 H2].
    replace (S (alo + n)) with (alo + S n) by lia.
    replace (alo + n + S m) with (alo + S n + m) by lia.
    now apply IH.
Qed.

Lemma extend_left_within (alo ahi blo bhi : nat) :
  forall besti bestj bestsize : nat,
    block_within alo ahi blo bhi (besti, bestj, bestsize) ->
    block_within alo ahi blo bhi
                 (Difflib.extend_left a b alo blo besti bestj bestsize).
Proof.
  induction besti as [| i' IH]; intros bestj bestsize H; simpl.
  - exact H.
  - destruct bestj as [| j']; [exact H |].
    destruct ((alo <? S i') && (blo <? S j') && Difflib.same_at a b i' j') eqn:Hc;
      [| exact H].
    apply andb_true_iff in Hc. destruct Hc as [Hc _].
    apply andb_true_iff in Hc. destruct Hc as [H1 H2].
    apply Nat.ltb_lt in H1. apply Nat.ltb_lt in H2.
    apply IH. simpl in *. lia.
Qed.

Lemma extend_right_within (ahi bhi besti bestj : nat) (rounds : nat) :
  forall bestsize : nat,
    besti + bestsize <= ahi -> bestj + bestsize <= bhi ->
    let size := Difflib.extend_right a b rounds ahi bhi besti bestj bestsize in
    bestsize <= size /\ besti + size <= ahi /\ bestj + size <= bhi.
Proof.
  induction rounds as [| n IH]; intros bestsize Ha Hb; simpl.
  - lia.
  - destruct ((besti + bestsize <? ahi) && (bestj + bestsize <? bhi)
              && Difflib.same_at a b (besti + bestsize) (bestj + bestsize)) eqn:Hc;
      [| lia].
    apply andb_true_iff in Hc. destruct Hc as [Hc _].
    apply andb_true_iff in Hc. destruct Hc as [H1 H2].
    apply Nat.ltb_lt in H1. apply Nat.ltb_lt in H2.
    destruct (IH (S bestsize)) as (H3 & H4 & H5); lia.
Qed.

(** The loop to the right stops by itself before its rounds are used up:
    more rounds change nothing. *)
Lemma extend_right_rounds (ahi bhi besti bestj : nat) (rounds : nat) :
  forall bestsize : nat,
    ahi - (besti + bestsize) <= rounds ->
    Difflib.extend_right a b rounds ahi bhi besti bestj bestsize
    = Difflib.extend_right a b (ahi - (besti + bestsize)) ahi bhi besti bestj bestsize.
Proof.
  induction rounds as [| n IH]; intros bestsize Hr.
  - now replace (ahi - (besti + bestsize)) with 0 by lia.
  - destruct (Nat.ltb_spec (besti + bestsize) ahi) as [Hlt | Hge].
    + replace (ahi - (besti + bestsize)) with (S (ahi - (besti + S bestsize))) by lia.
      cbn [Difflib.extend_right].
      destruct ((besti + bestsize <? ahi) && (bestj + bestsize <? bhi)
                && Difflib.same_at a b (besti + bestsize) (bestj + bestsize));
        [| reflexivity].
      apply IH. lia.
    + replace (ahi - (besti + bestsize)) with 0 by lia.
      cbn [Difflib.extend_right].
      apply Nat.ltb_ge in Hge. now rewrite Hge.
Qed.

(** The block [find_longest_match] returns lies inside the region it was
    asked to search. *)
Lemma find_longest_match_within (alo ahi blo bhi : nat) :
  alo <= ahi -> blo <= bhi ->
  block_within alo ahi blo bhi (Difflib.find_longest_match a b alo ahi blo bhi).
Proof.
  intros Ha Hb. unfold Difflib.find_longest_match.
  pose proof (fold_outer_step_within alo blo bhi (ahi - alo) 0 ([], (alo, blo, 0)))
    as H.
  rewrite !Nat.add_0_r in H.
  replace (alo + (ahi - alo)) with ahi in H by lia.
  specialize (H (runs_within_nil blo 0)). simpl in H.
  specialize (H ltac:(lia)).
  destruct (fold_left (Difflib.outer_step a b blo bhi) (seq alo (ahi - alo))
                      ([], (alo, blo, 0))) as [j2len [[besti bestj] bestsize]].
  simpl in H.
  pose proof (extend_left_within alo ahi blo bhi besti bestj bestsize H) as HL.
  destruct (Difflib.extend_left a b alo blo besti bestj bestsize)
    as [[besti' bestj'] bestsize'].
  simpl in HL.
  pose proof (extend_right_within ahi bhi besti' bestj'
                (ahi - (besti' + bestsize')) bestsize') as HR.
  simpl in HR. simpl. lia.
Qed.

Lemma matching_blocks_empty_region (d alo blo bhi : nat) :
  blo <= bhi -> Difflib.matching_blocks a b d alo alo blo bhi = [].
Proof.
  intros Hb. destruct d as [| d]; simpl; [reflexivity |].
  pose proof (find_longest_match_within alo alo blo bhi (le_n alo) Hb) as H.
  destruct (Difflib.find_longest_match a b alo alo blo bhi) as [[i j] k].
  simpl in H. replace k with 0 by lia. reflexivity.
Qed.

(** Every nested region is a shorter stretch of [a]: a depth of at least
    the length of the region gives the same blocks as any other such
    depth, so the depth [len(a)] of [get_matching_blocks] never cuts the
    search short. *)
Lemma matching_blocks_depth (d : nat) :
  forall d' alo ahi blo bhi : nat,
    alo <= ahi -> blo <= bhi -> ahi - alo <= d -> ahi - alo <= d' ->
    Difflib.matching_blocks a b d alo ahi blo bhi
    = Difflib.matching_blocks a b d' alo ahi blo bhi.
Proof.
  induction d as [| d IH]; intros d' alo ahi blo bhi Ha Hb Hd Hd'.
  - replace ahi with alo by lia. now rewrite !matching_blocks_empty_region.
  - destruct d' as [| d'].
    + replace ahi with alo by lia. now rewrite !matching_blocks_empty_region.
    + simpl.
      pose proof (find_longest_match_within alo ahi blo bhi Ha Hb) as H.
      destruct (Difflib.find_longest_match a b alo ahi blo bhi) as [[i j] k].
      simpl in H. destruct (Nat.eqb_spec k 0) as [_ | Hk]; [reflexivity |].
      f_equal. f_equal.
      * destruct ((i + k <? ahi) && (j + k <? bhi)); [| reflexivity].
        apply IH; lia.
      * destruct ((alo <? i) && (blo <? j)); [| reflexivity].
        apply IH; lia.
Qed.

Lemma total_size_app (xs ys : list Difflib.match_t) :
  total_size (xs ++ ys) = total_size xs + total_size ys.
Proof.
  induction xs as [| x xs IH]; simpl; [reflexivity |]. rewrite IH. lia.
Qed.

(** The blocks found in a region cover no more characters than either
    side of the region has. *)
Lemma matching_blocks_total (d : nat) :
  forall alo ahi blo bhi : nat,
    alo <= ahi -> blo <= bhi ->
    total_size (Difflib.matching_blocks a b d alo ahi blo bhi) <= ahi - alo
    /\ total_size (Difflib.matching_blocks a b d alo ahi blo bhi) <= bhi - blo.
Proof.
  induction d as [| d IH]; intros alo ahi blo bhi Ha Hb; simpl; [lia |].
  pose proof (find_longest_match_within alo ahi blo bhi Ha Hb) as H.
  destruct (Difflib.find_longest_match a b alo ahi blo bhi) as [[i j] k].
  simpl in H. destruct (k =? 0); simpl; [lia |].
  rewrite total_size_app.
  assert (HR : total_size (if (i + k <? ahi) && (j + k <? bhi)
                           then Difflib.matching_blocks a b d (i + k) ahi (j + k) bhi
                           else []) <= ahi - (i + k)
               /\ total_size (if (i + k <? ahi) && (j + k <? bhi)
                              then Difflib.matching_blocks a b d (i + k) ahi (j + k) bhi
                              else []) <= bhi - (j + k)).
  { destruct ((i + k <? ahi) && (j + k <? bhi)); [apply IH; lia | simpl; lia]. }
  assert (HL : total_size (if (alo <? i) && (blo <? j)
                           then Difflib.matching_blocks a b d alo i blo j
                           else []) <= i - alo
               /\ total_size (if (alo <? i) && (blo <? j)
                              then Difflib.matching_blocks a b d alo i blo j
                              else []) <= j - blo).
  { destruct ((alo <? i) && (blo <? j)); [apply IH; lia | simpl; lia]. }
  lia.
Qed.

(** [matches] never exceeds the length of either string, so that
    [2.0 * matches / length] is a quotient between 0 and 1. *)
Lemma matches_bounded :
  Difflib.matches a b <= List.length a /\ Difflib.matches a b <= List.length b.
Proof.
  pose proof (matching_blocks_total (List.length a) 0 (List.length a) 0
                (List.length b) (Nat.le_0_l _) (Nat.le_0_l _)) as H.
  unfold Difflib.matches, Difflib.get_matching_blocks.
  unfold total_size in H. lia.
Qed.

End Regions.

(** ** The similarity of two strings *)

Section NoCommonCharacter.

Variables a b : list ascii.
Hypothesis apart : forall c : ascii, In c a -> ~ In c b.

Lemma indices_absent (c : ascii) (l : list ascii) :
  ~ In c l -> forall i : nat, Difflib.indices c l i = [].
Proof.
  induction l as [| x l IH]; intros Hc i; simpl; [reflexivity |].
  destruct (Ascii.eqb_spec x c) as [-> | _].
  - exfalso. apply Hc. now left.
  - simpl. apply IH. intros H. apply Hc. now right.
Qed.

Lemma b2j_apart (c : ascii) : In c a -> Difflib.b2j b c = [].
Proof.
  intros Hc. unfold Difflib.b2j. destruct (Difflib.popular b c); [reflexivity |].
  apply indices_absent. now apply apart.
Qed.

Lemma same_at_apart (i j : nat) : Difflib.same_at a b i j = false.
Proof.
  unfold Difflib.same_at.
  destruct (nth_error a i) as [x |] eqn:Ha; [| reflexivity].
  destruct (nth_error b j) as [y |] eqn:Hb; [| reflexivity].
  destruct (Ascii.eqb_spec x y) as [-> | _]; [| reflexivity].
  exfalso. apply (apart y); eauto using nth_error_In.
Qed.

Lemma outer_step_apart (blo bhi : nat) (st : list (nat * nat) * Difflib.match_t)
      (i : nat) :
  snd (Difflib.outer_step a b blo bhi st i) = snd st.
Proof.
  unfold Difflib.outer_step. destruct st as [j2len best].
  destruct (nth_error a i) as [x |] eqn:Ha; [| reflexivity].
  rewrite b2j_apart by eauto using nth_error_In. reflexivity.
Qed.

Lemma fold_outer_step_apart (blo bhi : nat) (rows : list nat) :
  forall st : list (nat * nat) * Difflib.match_t,
    snd (fold_left (Difflib.outer_step a b blo bhi) rows st) = snd st.
Proof.
  induction rows as [| i rows IH]; intros st; simpl; [reflexivity |].
  now rewrite IH, outer_step_apart.
Qed.

Lemma extend_left_stuck (alo blo size : nat) :
  Difflib.extend_left a b alo blo alo blo size = (alo, blo, size).
Proof.
  destruct alo, blo; simpl; try reflexivity.
  now rewrite Nat.ltb_irrefl.
Qed.

Lemma extend_right_apart (rounds ahi bhi besti bestj size : nat) :
  Difflib.extend_right a b rounds ahi bhi besti bestj size = size.
Proof.
  destruct rounds; simpl; [reflexivity |].
  now rewrite same_at_apart, andb_false_r.
Qed.

Lemma find_longest_match_apart (alo ahi blo bhi : nat) :
  Difflib.find_longest_match a b alo ahi blo bhi = (alo, blo, 0).
Proof.
  unfold Difflib.find_longest_match.
  pose proof (fold_outer_step_apart blo bhi (seq alo (ahi - alo)) ([], (alo, blo, 0)))
    as H.
  destruct (fold_left (Difflib.outer_step a b blo bhi) (seq alo (ahi - alo))
                      ([], (alo, blo, 0))) as [j2len [[besti bestj] bestsize]].
  simpl in H. injection H as -> -> ->.
  rewrite extend_left_stuck. now rewrite extend_right_apart.
Qed.

Lemma matches_apart : Difflib.matches a b = 0.
Proof.
  unfold Difflib.matches, Difflib.get_matching_blocks.
  destruct (List.length a) as [| d]; [reflexivity |].
  simpl. now rewrite find_longest_match_apart.
Qed.

Lemma ratio_apart :
  Difflib.ratio a b
  = if List.length a + List.length b =? 0 then PyFloat.literal 10 1 else 0%Q.
Proof.
  unfold Difflib.ratio. rewrite matches_apart.
  destruct (List.length a + List.length b =? 0); reflexivity.
Qed.

End NoCommonCharacter.

Lemma similarity_tide_diet :
  similarity_score "tide" "diet" = (1 # 4)%Q
  /\ similarity_score "diet" "tide" = (1 # 2)%Q.
Proof. split; vm_compute; reflexivity. Qed.

(** C7 as stated fails: the longest-block search breaks ties by the first
    argument, and the two orders of tide and diet give 0.25 and 0.5. *)
Lemma similarity_not_symmetric :
  ~ (forall a b : string, similarity_score a b = similarity_score b a).
Proof.
  intros H. specialize (H "tide" "diet").
  destruct similarity_tide_diet as [E1 E2]. rewrite E1, E2 in H. discriminate H.
Qed.

(** ** The resolver: one candidate *)

Lemma chosen_from_more (pn rn : string) (item : string * employee_info)
      (emps : employee_dict) (ms : PyFloat.float) (st : best) :
  chosen_from pn rn emps ms st -> chosen_from pn rn (emps ++ [item]) ms st.
Proof.
  unfold chosen_from. destruct (best_match st); [| trivial].
  intros [Hle (it & Hin & Hrest)]. split; [exact Hle |].
  exists it. split; [apply in_or_app; now left | exact Hrest].
Qed.

Lemma consider_chosen (pn rn : string) (emps : employee_dict)
      (ms : PyFloat.float) (st : best) (item : string * employee_info) :
  chosen_from pn rn emps ms st ->
  chosen_from pn rn (emps ++ [item]) ms (consider pn rn ms st item).
Proof.
  intros Hst. unfold consider.
  destruct (contains rn (restaurants (snd item))) eqn:Hassigned; simpl.
  - destruct (PyFloat.ltb (best_score st)
                          (similarity_score pn (first_name (snd item)))); simpl.
    + destruct (PyFloat.leb ms (similarity_score pn (first_name (snd item))))
        eqn:Hle.
      * unfold chosen_from; simpl. split; [exact Hle |].
        exists item. repeat split; try assumption.
        apply in_or_app; right; now left.
      * now apply chosen_from_more.
    + now apply chosen_from_more.
  - now apply chosen_from_more.
Qed.

Lemma fold_consider_chosen (pn rn : string) (ms : PyFloat.float)
      (rest_emps seen : employee_dict) (st : best) :
  chosen_from pn rn seen ms st ->
  chosen_from pn rn (seen ++ rest_emps) ms
              (fold_left (consider pn rn ms) rest_emps st).
Proof.
  revert seen st. induction rest_emps as [| item rest_emps IH]; intros seen st Hst.
  - now rewrite app_nil_r.
  - simpl. replace (seen ++ item :: rest_emps) with ((seen ++ [item]) ++ rest_emps)
      by (now rewrite <- app_assoc).
    apply IH. now apply consider_chosen.
Qed.

Lemma best_for_chosen (pn rn : string) (emps : employee_dict) (ms : PyFloat.float) :
  chosen_from pn rn emps ms (best_for pn rn emps ms).
Proof.
  unfold best_for. apply (fold_consider_chosen pn rn ms emps []). exact I.
Qed.

(** Entries of other restaurants leave the three locals as they are. *)
Lemma fold_consider_filter (pn rn : string) (ms : PyFloat.float)
      (emps : employee_dict) (st : best) :
  fold_left (consider pn rn ms) (filter (assigned rn) emps) st
  = fold_left (consider pn rn ms) emps st.
Proof.
  revert st. induction emps as [| item emps IH]; intros st; [reflexivity |].
  simpl. destruct (assigned rn item) eqn:Ha; simpl.
  - apply IH.
  - rewrite IH. f_equal. unfold consider. unfold assigned in Ha. now rewrite Ha.
Qed.

Lemma resolve_filter (rn : string) (emps : employee_dict) (ms : PyFloat.float)
      (pn : string) :
  resolve rn (filter (assigned rn) emps) ms pn = resolve rn emps ms pn.
Proof.
  unfold resolve, best_for. now rewrite fold_consider_filter.
Qed.

(** A candidate contributes nothing or one result that carries its own
    token. *)
Lemma resolve_cases (rn : string) (emps : employee_dict) (ms : PyFloat.float)
      (pn : string) :
  resolve rn emps ms pn = []
  \/ exists name score,
      resolve rn emps ms pn = [MatchResult pn name score]
      /\ contains (lower pn) skipped_words = false
      /\ truthy name = true
      /\ best_match (best_for pn rn emps ms) = Some name
      /\ best_score (best_for pn rn emps ms) = score.
Proof.
  unfold resolve.
  destruct (contains (lower pn) skipped_words) eqn:Hskip; [now left |].
  destruct (best_match (best_for pn rn emps ms)) as [name |] eqn:Hbest; [| now left].
  destruct (truthy name) eqn:Htruthy; [| now left].
  right. exists name, (best_score (best_for pn rn emps ms)). repeat split; auto.
Qed.

Lemma match_employee_to_review_In (S : set_iteration) (text : option string)
      (rn : string) (emps : employee_dict) (ms : PyFloat.float) (m : match_result) :
  In m (match_employee_to_review S text rn emps ms) ->
  In (potential_name m) (extract_potential_names S text)
  /\ resolve rn emps ms (potential_name m) = [m].
Proof.
  unfold match_employee_to_review. rewrite in_flat_map.
  intros (pn & Hpn & Hm).
  destruct (resolve_cases rn emps ms pn) as [E | (name & score & E & _)];
    rewrite E in Hm; simpl in Hm; [contradiction |].
  destruct Hm as [<- | []]. simpl. now split.
Qed.

(** ** The resolver: the whole review *)

Lemma default_min_similarity_value :
  default_min_similarity = (3602879701896397 # 4503599627370496)%Q.
Proof. vm_compute. reflexivity. Qed.

Lemma match_confidence_threshold (S : set_iteration) (text : option string)
      (rn : string) (emps : employee_dict) (ms : PyFloat.float) (m : match_result) :
  In m (match_employee_to_review S text rn emps ms) ->
  (ms <= confidence m)%Q.
Proof.
  intros Hm. apply match_employee_to_review_In in Hm. destruct Hm as [_ Hres].
  destruct (resolve_cases rn emps ms (potential_name m))
    as [E | (name & score & E & _ & _ & Hbest & Hscore)];
    rewrite E in Hres; [discriminate |].
  injection Hres as <-. simpl.
  pose proof (best_for_chosen (potential_name (MatchResult (potential_name m) name score))
                              rn emps ms) as Hc.
  simpl in Hc. unfold chosen_from in Hc. rewrite Hbest in Hc.
  destruct Hc as [Hle _]. rewrite Hscore in Hle.
  now apply Qle_bool_iff.
Qed.

(** C1: with the default minimum similarity 0.80, every result the roster
    resolver returns has a confidence of at least the float 0.8 the code
    compares with, hence of at least 0.80. *)
Theorem match_confidence_at_least_080 (S : set_iteration) (text : option string)
        (rn : string) (emps : employee_dict) (m : match_result) :
  In m (match_employee_to_review S text rn emps default_min_similarity) ->
  (default_min_similarity <= confidence m)%Q /\ (8 # 10 <= confidence m)%Q.
Proof.
  intros Hm. apply match_confidence_threshold in Hm. split; [exact Hm |].
  eapply Qle_trans; [| exact Hm].
  rewrite default_min_similarity_value. unfold Qle; simpl. lia.
Qed.

(** C1 on a review that names Jacob, who works at Grackle. *)
Lemma match_confidence_at_least_080_witness :
  In (MatchResult "Jacob" "Jacob Smith" 1%Q)
     (match_employee_to_review insertion_order (Some "Jacob was excellent tonight!")
                               "Grackle" jacob_roster default_min_similarity)
  /\ (8 # 10 <= 1)%Q.
Proof.
  assert (H : In (MatchResult "Jacob" "Jacob Smith" 1%Q)
                 (match_employee_to_review insertion_order
                    (Some "Jacob was excellent tonight!")
                    "Grackle" jacob_roster default_min_similarity)).
  { vm_compute. left. reflexivity. }
  split; [exact H |].
  exact (proj2 (match_confidence_at_least_080 _ _ _ _ _ H)).
Defined.

Lemma match_filter_roster (S : set_iteration) (text : option string)
      (rn : string) (emps : employee_dict) (ms : PyFloat.float) :
  match_employee_to_review S text rn (filter (assigned rn) emps) ms
  = match_employee_to_review S text rn emps ms.
Proof.
  unfold match_employee_to_review.
  induction (extract_potential_names S text) as [| pn l IH]; [reflexivity |].
  simpl. now rewrite resolve_filter, IH.
Qed.

(** C2: the resolver only ever matches a candidate to a roster entry
    whose restaurants list contains the queried restaurant; the other
    entries are skipped before scoring, so that the result is the one
    computed on the roster without them, whatever their names are. *)
Theorem match_uses_only_assigned_entries (S : set_iteration) (text : option string)
        (rn : string) (emps : employee_dict) (ms : PyFloat.float) (m : match_result) :
  In m (match_employee_to_review S text rn emps ms) ->
  (exists item,
      In item emps
      /\ contains rn (restaurants (snd item)) = true
      /\ matched_employee m = full_name (snd item)
      /\ confidence m = similarity_score (potential_name m) (first_name (snd item)))
  /\ match_employee_to_review S text rn emps ms
     = match_employee_to_review S text rn
         (filter (fun item => contains rn (restaurants (snd item))) emps) ms.
Proof.
  intros Hm. split.
  - apply match_employee_to_review_In in Hm. destruct Hm as [_ Hres].
    destruct (resolve_cases rn emps ms (potential_name m))
      as [E | (name & score & E & _ & _ & Hbest & Hscore)];
      rewrite E in Hres; [discriminate |].
    injection Hres as <-. simpl in *.
    pose proof (best_for_chosen (potential_name m) rn emps ms) as Hc.
    unfold chosen_from in Hc. rewrite Hbest in Hc.
    destruct Hc as [_ (item & Hin & Ha & Hname & Hsc)].
    exists item. repeat split; try assumption. now rewrite <- Hscore.
  - symmetry. apply (match_filter_roster S text rn emps ms).
Qed.

(** C2 on a roster whose perfect match works elsewhere: the near match
    assigned to Grackle is returned, with the score 0.8. *)
Lemma match_uses_only_assigned_entries_witness :
  let found :=
    match_employee_to_review insertion_order (Some "Jacob was excellent tonight!")
                             "Grackle" two_jacobs default_min_similarity in
  let m := MatchResult "Jacob" "Jakob Smith" default_min_similarity in
  In m found
  /\ (exists item,
        In item two_jacobs
        /\ contains "Grackle" (restaurants (snd item)) = true
        /\ matched_employee m = full_name (snd item)
        /\ confidence m = similarity_score (potential_name m) (first_name (snd item)))
  /\ found
     = match_employee_to_review insertion_order (Some "Jacob was excellent tonight!")
         "Grackle"
         (filter (fun item => contains "Grackle" (restaurants (snd item))) two_jacobs)
         default_min_similarity.
Proof.
  intros found m.
  assert (H : In m found) by (vm_compute; left; reflexivity).
  split; [exact H |].
  exact (match_uses_only_assigned_entries _ _ _ _ _ _ H).
Defined.

Lemma resolve_subsequence (rn : string) (emps : employee_dict) (ms : PyFloat.float)
      (candidates : list string) :
  Subsequence (map potential_name (flat_map (resolve rn emps ms) candidates))
              candidates.
Proof.
  induction candidates as [| pn l IH]; simpl; [constructor |].
  destruct (resolve_cases rn emps ms pn) as [E | (name & score & E & _)];
    rewrite E; simpl.
  - now constructor.
  - now constructor.
Qed.

Lemma extract_potential_names_NoDup (S : set_iteration) (text : option string) :
  NoDup (extract_potential_names S text).
Proof.
  destruct text as [[| c t] |]; simpl; try constructor.
  apply list_of_set_NoDup.
Qed.

(** C8, as the code has it: the candidate tokens of the results come in
    the order of the list the extractor returns (they are a subsequence of
    it), and no two results carry the same candidate token.  That list is
    [list(set(potential_names))]: its order is the iteration order of a
    set, not the order in which the candidates were found. *)
Theorem match_keeps_order_one_result_per_candidate
        (S : set_iteration) (text : option string) (rn : string)
        (emps : employee_dict) (ms : PyFloat.float) :
  Subsequence (map potential_name (match_employee_to_review S text rn emps ms))
              (extract_potential_names S text)
  /\ NoDup (map potential_name (match_employee_to_review S text rn emps ms)).
Proof.
  assert (Hsub : Subsequence
                   (map potential_name (match_employee_to_review S text rn emps ms))
                   (extract_potential_names S text))
    by apply resolve_subsequence.
  split; [exact Hsub |].
  eapply Subsequence_NoDup; [exact Hsub | apply extract_potential_names_NoDup].
Qed.

(** C8 as stated fails: the extractor finds Jacob before Maria, and when
    the set that removes the duplicates is iterated the other way round
    the results name Maria before Jacob. *)
Lemma match_order_not_discovery_order :
  ~ (forall (S : set_iteration) (text : string) (rn : string)
            (emps : employee_dict) (ms : PyFloat.float),
        Subsequence
          (map potential_name (match_employee_to_review S (Some text) rn emps ms))
          (discovery_order text)).
Proof.
  intros H.
  specialize (H reverse_order pair_comment "Grackle" pair_roster
                default_min_similarity).
  assert (E1 : map potential_name
                   (match_employee_to_review reverse_order (Some pair_comment)
                      "Grackle" pair_roster default_min_similarity)
               = ["Maria"; "Jacob"]) by (vm_compute; reflexivity).
  assert (E2 : discovery_order pair_comment = ["Jacob"; "Maria"])
    by (vm_compute; reflexivity).
  rewrite E1, E2 in H.
  inversion H as [| x xs ys H1 | x xs ys H1]; subst.
  - inversion H1 as [| x xs ys H2 | x xs ys H2]; subst.
    + inversion H2.
    + inversion H2.
Qed.

(** ** Stop-lists *)

Lemma resolve_skipped (rn : string) (emps : employee_dict) (ms : PyFloat.float)
      (pn : string) :
  contains (lower pn) skipped_words = true -> resolve rn emps ms pn = [].
Proof. intros H. unfold resolve. now rewrite H. Qed.

(** C4, as the code has it: a word whose lower-cased form is in the
    resolver's stop-list (such as The, Great, Service) is never the
    candidate token of a result, whatever the roster contains. *)
Theorem skipped_words_never_accepted (S : set_iteration) (text : option string)
        (rn : string) (emps : employee_dict) (ms : PyFloat.float) (w : string) :
  contains (lower w) skipped_words = true ->
  ~ In w (map potential_name (match_employee_to_review S text rn emps ms)).
Proof.
  intros Hw Hin. apply in_map_iff in Hin. destruct Hin as (m & <- & Hm).
  apply match_employee_to_review_In in Hm. destruct Hm as [_ Hres].
  rewrite (resolve_skipped _ _ _ _ Hw) in Hres. discriminate.
Qed.

(** C4, amended, on a roster that has the first name Great. *)
Lemma skipped_words_never_accepted_witness :
  contains (lower "Great") skipped_words = true
  /\ ~ In "Great"
         (map potential_name
              (match_employee_to_review insertion_order
                 (Some "Great was our server") "Grackle"
                 [("great", EmployeeInfo "Great Scott" "Great" ["Grackle"])]
                 default_min_similarity)).
Proof.
  split; [reflexivity |].
  apply skipped_words_never_accepted. reflexivity.
Defined.

(** C4 as stated fails for the extractor's stop-list: Perfect is on it,
    is captured by the first contextual pattern, and is accepted against
    the first name Perfecto. *)
Lemma extractor_stop_word_accepted :
  ~ (forall (S : set_iteration) (text : option string) (rn : string)
            (emps : employee_dict) (w : string),
        In w common_words \/ contains (lower w) skipped_words = true ->
        ~ In w (map potential_name
                    (match_employee_to_review S text rn emps default_min_similarity))).
Proof.
  intros H.
  apply (H insertion_order (Some "Perfect was the evening") "Grackle"
           perfecto_roster "Perfect").
  - left. unfold common_words. simpl. tauto.
  - vm_compute. left. reflexivity.
Qed.

Lemma lower_char_not_capital (c : ascii) : in_range 65 90 (lower_char c) = false.
Proof. destruct c as [[] [] [] [] [] [] [] []]; reflexivity. Qed.

(** The test [word.lower() not in [...]] of the fallback scan always
    succeeds: every entry of the list starts with a capital letter and no
    lower-cased word does. *)
Lemma common_words_never_apply (word : string) :
  contains (lower word) common_words = false.
Proof.
  unfold contains. destruct (existsb (String.eqb (lower word)) common_words) eqn:E;
    [| reflexivity].
  apply existsb_exists in E. destruct E as (x & Hx & E).
  apply String.eqb_eq in E.
  assert (Hcap : forallb (fun y => match y with
                                   | String c _ => in_range 65 90 c
                                   | EmptyString => false
                                   end) common_words = true) by reflexivity.
  rewrite forallb_forall in Hcap. apply Hcap in Hx. rewrite <- E in Hx.
  destruct word as [| c w]; simpl in Hx; [discriminate |].
  now rewrite lower_char_not_capital in Hx.
Qed.

Lemma collected_names_food_comment : collected_names food_comment = ["The"].
Proof. vm_compute. reflexivity. Qed.

(** C5, evaluated on the code: for the comment of the scenario the
    extractor returns the candidate The (its stop-list is compared with
    the lower-cased word and so never applies); the annotation is empty
    all the same, because the resolver skips it. *)
Theorem extract_food_comment_keeps_The (S : set_iteration) :
  extract_potential_names S (Some food_comment) = ["The"]
  /\ forall (rn : string) (emps : employee_dict) (ms : PyFloat.float),
      match_employee_to_review S (Some food_comment) rn emps ms = [].
Proof.
  assert (E : extract_potential_names S (Some food_comment) = ["The"]).
  { change (list_of_set S (collected_names food_comment) = ["The"]).
    rewrite collected_names_food_comment.
    apply NoDup_singleton_eq; [apply list_of_set_NoDup | apply list_of_set_In]. }
  split; [exact E |].
  intros rn emps ms. unfold match_employee_to_review. rewrite E.
  cbn [flat_map]. rewrite resolve_skipped; reflexivity.
Qed.

(** ** The annotation pass *)

Lemma join_nonempty (sep x : string) (xs : list string) :
  x <> "" -> join sep (x :: xs) <> "".
Proof.
  intros Hx H. destruct xs as [| y ys]; simpl in H; [contradiction |].
  apply string_app_empty in H. now destruct H.
Qed.


Lemma truthy_nonempty (s : string) : truthy s = true -> s <> "".
Proof. destruct s; [discriminate | discriminate]. Qed.

Lemma match_result_fields_nonempty (S : set_iteration) (text : option string)
      (rn : string) (emps : employee_dict) (ms : PyFloat.float) (m : match_result) :
  In m (match_employee_to_review S text rn emps ms) ->
  potential_name m <> "" /\ matched_employee m <> "".
Proof.
  intros Hm. apply match_employee_to_review_In in Hm. destruct Hm as [Hpn Hres].
  split.
  - apply extract_potential_names_length in Hpn. intros E. rewrite E in Hpn.
    simpl in Hpn. lia.
  - destruct (resolve_cases rn emps ms (potential_name m))
      as [E | (name & score & E & _ & Htruthy & _)];
      rewrite E in Hres; [discriminate |].
    injection Hres as <-. simpl. now apply truthy_nonempty.
Qed.

Lemma annotate_row_columns (S : set_iteration) (six_months_ago : Z)
      (emps : employee_dict) (row : review_row) :
  let ms := results_of S six_months_ago emps row in
  let row' := annotate_row S six_months_ago emps row in
  mentioned_employees row' = Some (join "; " (map potential_name ms))
  /\ employee_matches row' = Some (join "; " (map matched_employee ms))
  /\ employee_confidence row'
     = Some (join "; " (map (fun m => PyFloat.format_2f (confidence m)) ms)).
Proof.
  unfold results_of, annotate_row. destruct (is_recent six_months_ago row).
  - destruct (match_employee_to_review S (comment row) (restaurant row) emps
                                       default_min_similarity);
      simpl; auto.
  - simpl. auto.
Qed.

(** The scenarios of the specification: Jacob is found at Grackle and not
    at the restaurant he is not assigned to; a review older than the
    cut-off stays blank. *)
Example jacob_found_at_grackle :
  add_employee_matches_to_dataframe insertion_order 0%Z [jacob_review] jacob_roster
  = [ReviewRow "Grackle" (Some "Jacob was excellent tonight!") (Some 100%Z)
               (Some "Jacob") (Some "Jacob Smith") (Some "1.00")].
Proof. vm_compute. reflexivity. Qed.

Example jacob_not_found_at_margies :
  match_employee_to_review insertion_order (Some "Jacob was excellent tonight!")
                           margies jacob_roster default_min_similarity
  = [].
Proof. vm_compute. reflexivity. Qed.

Example old_review_stays_blank :
  add_employee_matches_to_dataframe insertion_order 200%Z [jacob_review] jacob_roster
  = [ReviewRow "Grackle" (Some "Jacob was excellent tonight!") (Some 100%Z)
               (Some "") (Some "") (Some "")].
Proof. vm_compute. reflexivity. Qed.

(** ** The annotation pass without a roster *)

(** C9, as the code has it: with an empty (or missing) roster the
    annotation pass is skipped and the table is returned as it came in; no
    output column is added or changed. *)
Theorem empty_roster_returns_table_unchanged (S : set_iteration) (six_months_ago : Z)
        (df : dataframe) :
  add_employee_matches_to_dataframe S six_months_ago df [] = df
  /\ (Forall lacks_output_fields df ->
      Forall lacks_output_fields
             (add_employee_matches_to_dataframe S six_months_ago df [])).
Proof.
  split.
  - reflexivity.
  - intros H. exact H.
Qed.

(** C9 as stated fails: a row of a table that had no output columns still
    has none after the pass with an empty roster. *)
Lemma empty_roster_rows_lack_output_fields :
  ~ (forall (S : set_iteration) (six_months_ago : Z) (df : dataframe)
            (row : review_row),
        In row (add_employee_matches_to_dataframe S six_months_ago df []) ->
        mentioned_employees row = Some ""
        /\ employee_matches row = Some ""
        /\ employee_confidence row = Some "").
Proof.
  intros H.
  destruct (H insertion_order 0%Z [jacob_review] jacob_review (or_introl eq_refl))
    as [Hm _].
  discriminate Hm.
Qed.

(** ** The two copies of the matching core *)


(* ================================================================== *)
(** * Further properties of the scripts *)

(** ** The resolver: which entry wins *)

Lemma float_ltb_lt (x y : PyFloat.float) : PyFloat.ltb x y = true <-> (x < y)%Q.
Proof.
  unfold PyFloat.ltb. rewrite negb_true_iff. split.
  - intros H. apply Qnot_le_lt. intros Hle. apply Qle_bool_iff in Hle. congruence.
  - intros H. destruct (Qle_bool y x) eqn:E; [| reflexivity].
    apply Qle_bool_iff in E. lra.
Qed.

Lemma float_ltb_ge (x y : PyFloat.float) : PyFloat.ltb x y = false <-> (y <= x)%Q.
Proof.
  unfold PyFloat.ltb. rewrite negb_false_iff. apply Qle_bool_iff.
Qed.

Lemma float_leb_le (x y : PyFloat.float) : PyFloat.leb x y = true <-> (x <= y)%Q.
Proof. apply Qle_bool_iff. Qed.

Lemma float_leb_gt (x y : PyFloat.float) : PyFloat.leb x y = false <-> (y < x)%Q.
Proof.
  unfold PyFloat.leb. split.
  - intros H. apply Qnot_le_lt. intros Hle. apply Qle_bool_iff in Hle. congruence.
  - intros H. destruct (Qle_bool x y) eqn:E; [| reflexivity].
    apply Qle_bool_iff in E. lra.
Qed.

Lemma consider_best_so_far (c rn : string) (ms : PyFloat.float)
      (seen : employee_dict) (st : best) (item : string * employee_info) :
  best_so_far c rn ms seen st ->
  best_so_far c rn ms (seen ++ [item]) (consider c rn ms st item).
Proof.
  intros (Hpos & Hnone & Hmax & Hsome).
  unfold consider. fold (assigned rn item). fold (score_for c item).
  destruct (assigned rn item) eqn:Ha; simpl.
  - destruct (PyFloat.ltb (best_score st) (score_for c item)) eqn:Hlt; simpl.
    + apply float_ltb_lt in Hlt.
      destruct (PyFloat.leb ms (score_for c item)) eqn:Hle.
      * (* the entry becomes the best one *)
        apply float_leb_le in Hle. unfold best_so_far; simpl.
        split; [lra |]. split; [discriminate |]. split.
        -- intros it Hin Hit Hms. apply in_app_or in Hin.
           destruct Hin as [Hin | [<- | []]]; [| lra].
           specialize (Hmax it Hin Hit Hms). lra.
        -- intros name Hname. injection Hname as <-.
           split; [lra |]. split; [exact Hle |].
           exists seen, item, []. repeat split; try assumption.
           intros e He Hae.
           destruct (Qlt_le_dec (score_for c e) ms) as [Hlow | Hhigh]; [lra |].
           specialize (Hmax e He Hae Hhigh). lra.
      * (* below the threshold *)
        apply float_leb_gt in Hle. unfold best_so_far.
        split; [exact Hpos |]. split; [exact Hnone |]. split.
        -- intros it Hin Hit Hms. apply in_app_or in Hin.
           destruct Hin as [Hin | [<- | []]]; [now apply Hmax | lra].
        -- intros name Hname. destruct (Hsome name Hname)
             as (H0 & Hms & before & it & after & -> & Hrest).
           split; [exact H0 |]. split; [exact Hms |].
           exists before, it, (after ++ [item]).
           split; [now rewrite <- app_assoc | exact Hrest].
    + (* not better than the best so far *)
      apply float_ltb_ge in Hlt. unfold best_so_far.
      split; [exact Hpos |]. split; [exact Hnone |]. split.
      * intros it Hin Hit Hms. apply in_app_or in Hin.
        destruct Hin as [Hin | [<- | []]]; [now apply Hmax | exact Hlt].
      * intros name Hname. destruct (Hsome name Hname)
          as (H0 & Hms & before & it & after & -> & Hrest).
        split; [exact H0 |]. split; [exact Hms |].
        exists before, it, (after ++ [item]).
        split; [now rewrite <- app_assoc | exact Hrest].
  - (* works elsewhere *)
    unfold best_so_far.
    split; [exact Hpos |]. split; [exact Hnone |]. split.
    + intros it Hin Hit Hms. apply in_app_or in Hin.
      destruct Hin as [Hin | [<- | []]]; [now apply Hmax | congruence].
    + intros name Hname. destruct (Hsome name Hname)
        as (H0 & Hms & before & it & after & -> & Hrest).
      split; [exact H0 |]. split; [exact Hms |].
      exists before, it, (after ++ [item]).
      split; [now rewrite <- app_assoc | exact Hrest].
Qed.

Lemma fold_consider_best_so_far (c rn : string) (ms : PyFloat.float)
      (todo : employee_dict) :
  forall (seen : employee_dict) (st : best),
    best_so_far c rn ms seen st ->
    best_so_far c rn ms (seen ++ todo) (fold_left (consider c rn ms) todo st).
Proof.
  induction todo as [| item todo IH]; intros seen st H; simpl.
  - now rewrite app_nil_r.
  - replace (seen ++ item :: todo) with ((seen ++ [item]) ++ todo)
      by (now rewrite <- app_assoc).
    apply IH. now apply consider_best_so_far.
Qed.

Lemma best_for_best_so_far (c rn : string) (emps : employee_dict) (ms : PyFloat.float) :
  best_so_far c rn ms emps (best_for c rn emps ms).
Proof.
  unfold best_for. apply (fold_consider_best_so_far c rn ms emps []).
  unfold best_so_far; simpl. split; [lra |]. split; [reflexivity |].
  split; [intros it [] | discriminate].
Qed.

Lemma result_best_for (S : set_iteration) (text : option string) (rn : string)
      (emps : employee_dict) (ms : PyFloat.float) (m : match_result) :
  In m (match_employee_to_review S text rn emps ms) ->
  best_match (best_for (potential_name m) rn emps ms) = Some (matched_employee m)
  /\ best_score (best_for (potential_name m) rn emps ms) = confidence m.
Proof.
  intros Hm. apply match_employee_to_review_In in Hm. destruct Hm as [_ Hres].
  destruct (resolve_cases rn emps ms (potential_name m))
    as [E | (name & score & E & _ & _ & Hbest & Hscore)];
    rewrite E in Hres; [discriminate |].
  injection Hres as <-. simpl in *. now split.
Qed.

(** X1: the confidence of a result is the score of the roster entry the
    result names, an entry assigned to the restaurant, and it is the
    highest score the candidate reaches against the first names of the
    roster entries assigned to the restaurant. *)
Theorem match_confidence_is_highest_score (S : set_iteration) (text : option string)
        (rn : string) (emps : employee_dict) (ms : PyFloat.float) (m : match_result) :
  In m (match_employee_to_review S text rn emps ms) ->
  exists item,
    In item emps /\ assigned rn item = true
    /\ matched_employee m = full_name (snd item)
    /\ confidence m = score_for (potential_name m) item
    /\ forall other,
        In other emps -> assigned rn other = true ->
        (score_for (potential_name m) other <= confidence m)%Q.
Proof.
  intros Hm. destruct (result_best_for _ _ _ _ _ _ Hm) as [Hbest Hscore].
  destruct (best_for_best_so_far (potential_name m) rn emps ms)
    as (_ & _ & Hmax & Hsome).
  destruct (Hsome _ Hbest)
    as (_ & Hms & before & it & after & E & Ha & Hname & _ & Hsc & _).
  rewrite Hscore in *.
  exists it. split; [rewrite E; apply in_elt |].
  split; [exact Ha |]. split; [exact Hname |]. split; [exact Hsc |].
  intros other Hin Hassigned.
  destruct (Qlt_le_dec (score_for (potential_name m) other) ms) as [Hlow | Hhigh].
  - lra.
  - now apply Hmax.
Qed.

(** X1 on the roster with a near match at Grackle. *)
Lemma match_confidence_is_highest_score_witness :
  let m := MatchResult "Jacob" "Jakob Smith" default_min_similarity in
  In m (match_employee_to_review insertion_order (Some "Jacob was excellent tonight!")
                                 "Grackle" two_jacobs default_min_similarity)
  /\ exists item,
      In item two_jacobs /\ assigned "Grackle" item = true
      /\ matched_employee m = full_name (snd item)
      /\ confidence m = score_for (potential_name m) item
      /\ forall other,
          In other two_jacobs -> assigned "Grackle" other = true ->
          (score_for (potential_name m) other <= confidence m)%Q.
Proof.
  intros m.
  assert (H : In m (match_employee_to_review insertion_order
                      (Some "Jacob was excellent tonight!")
                      "Grackle" two_jacobs default_min_similarity))
    by (vm_compute; left; reflexivity).
  split; [exact H |].
  exact (match_confidence_is_highest_score _ _ _ _ _ _ H).
Defined.

(** X2: when several entries of the restaurant reach the highest score,
    the result names the one that comes first in the roster: every entry
    of the restaurant before the matched one scores strictly lower. *)
Theorem match_tie_keeps_first_entry (S : set_iteration) (text : option string)
        (rn : string) (emps : employee_dict) (ms : PyFloat.float) (m : match_result) :
  In m (match_employee_to_review S text rn emps ms) ->
  exists before item after,
    emps = before ++ item :: after
    /\ assigned rn item = true
    /\ matched_employee m = full_name (snd item)
    /\ confidence m = score_for (potential_name m) item
    /\ forall earlier,
        In earlier before -> assigned rn earlier = true ->
        (score_for (potential_name m) earlier < confidence m)%Q.
Proof.
  intros Hm. destruct (result_best_for _ _ _ _ _ _ Hm) as [Hbest Hscore].
  destruct (best_for_best_so_far (potential_name m) rn emps ms)
    as (_ & _ & _ & Hsome).
  destruct (Hsome _ Hbest)
    as (_ & _ & before & it & after & E & Ha & Hname & _ & Hsc & Hfirst).
  rewrite Hscore in *.
  exists before, it, after. repeat split; assumption.
Qed.

(** X2 on two first names with the same score for Jacob. *)
Lemma match_tie_keeps_first_entry_witness :
  let m := MatchResult "Jacob" "Jacobe Lee" (PyFloat.div 10 11) in
  In m (match_employee_to_review insertion_order (Some "Jacob was excellent tonight!")
                                 "Grackle" tied_roster default_min_similarity)
  /\ score_for "Jacob" ("jacobi", EmployeeInfo "Jacobi Ray" "Jacobi" ["Grackle"])
     = confidence m
  /\ exists before item after,
      tied_roster = before ++ item :: after
      /\ assigned "Grackle" item = true
      /\ matched_employee m = full_name (snd item)
      /\ confidence m = score_for (potential_name m) item
      /\ forall earlier,
          In earlier before -> assigned "Grackle" earlier = true ->
          (score_for (potential_name m) earlier < confidence m)%Q.
Proof.
  intros m.
  assert (H : In m (match_employee_to_review insertion_order
                      (Some "Jacob was excellent tonight!")
                      "Grackle" tied_roster default_min_similarity))
    by (vm_compute; left; reflexivity).
  split; [exact H |]. split; [vm_compute; reflexivity |].
  exact (match_tie_keeps_first_entry _ _ _ _ _ _ H).
Defined.

Lemma best_for_finds_qualifying (c rn : string) (emps : employee_dict)
      (ms : PyFloat.float) (item : string * employee_info) :
  In item emps -> assigned rn item = true ->
  (ms <= score_for c item)%Q -> (0 < score_for c item)%Q ->
  exists winner,
    In winner emps /\ assigned rn winner = true
    /\ best_match (best_for c rn emps ms) = Some (full_name (snd winner)).
Proof.
  intros Hin Ha Hms Hpos.
  destruct (best_for_best_so_far c rn emps ms) as (_ & Hnone & Hmax & Hsome).
  specialize (Hmax item Hin Ha Hms).
  destruct (best_match (best_for c rn emps ms)) as [name |] eqn:Hbest.
  - destruct (Hsome name eq_refl) as (_ & _ & before & w & after & E & Hw & -> & _).
    exists w. split; [rewrite E; apply in_elt | now split].
  - rewrite (Hnone eq_refl) in Hmax. lra.
Qed.

Lemma qualifying_candidate_result (S : set_iteration) (text : option string)
      (rn : string) (emps : employee_dict) (ms : PyFloat.float) (c : string)
      (item : string * employee_info) :
  (forall it, In it emps -> assigned rn it = true -> full_name (snd it) <> "") ->
  In c (extract_potential_names S text) ->
  contains (lower c) skipped_words = false ->
  In item emps -> assigned rn item = true ->
  (ms <= score_for c item)%Q -> (0 < score_for c item)%Q ->
  exists winner,
    In winner emps /\ assigned rn winner = true
    /\ In (MatchResult c (full_name (snd winner))
                       (best_score (best_for c rn emps ms)))
          (match_employee_to_review S text rn emps ms).
Proof.
  intros Hnames Hin Hskip Hitem Ha Hms Hpos.
  destruct (best_for_finds_qualifying c rn emps ms item Hitem Ha Hms Hpos)
    as (w & Hw & Haw & Hbest).
  exists w. split; [exact Hw |]. split; [exact Haw |].
  unfold match_employee_to_review. apply in_flat_map.
  exists c. split; [exact Hin |].
  unfold resolve. rewrite Hskip, Hbest.
  destruct (full_name (snd w)) as [| ch rest] eqn:Hname.
  - exfalso. now apply (Hnames w Hw Haw).
  - simpl. now left.
Qed.

(** X3: on a roster whose entries of the restaurant have non-empty full
    names, a candidate gets a result exactly when the extractor returned
    it, the resolver does not skip it, and some entry of the restaurant
    scores at least the threshold (and more than 0) against it. *)
Theorem candidate_accepted_iff (S : set_iteration) (text : option string)
        (rn : string) (emps : employee_dict) (ms : PyFloat.float) (c : string) :
  (forall item, In item emps -> assigned rn item = true ->
                full_name (snd item) <> "") ->
  In c (map potential_name (match_employee_to_review S text rn emps ms))
  <-> (In c (extract_potential_names S text)
       /\ contains (lower c) skipped_words = false
       /\ exists item,
           In item emps /\ assigned rn item = true
           /\ (ms <= score_for c item)%Q /\ (0 < score_for c item)%Q).
Proof.
  intros Hnames. split.
  - intros Hc. apply in_map_iff in Hc. destruct Hc as (m & <- & Hm).
    destruct (result_best_for _ _ _ _ _ _ Hm) as [Hbest Hscore].
    pose proof (match_employee_to_review_In _ _ _ _ _ _ Hm) as [Hin Hres].
    split; [exact Hin |]. split.
    + destruct (contains (lower (potential_name m)) skipped_words) eqn:Hskip;
        [| reflexivity].
      rewrite (resolve_skipped _ _ _ _ Hskip) in Hres. discriminate.
    + destruct (best_for_best_so_far (potential_name m) rn emps ms)
        as (_ & _ & _ & Hsome).
      destruct (Hsome _ Hbest)
        as (Hpos & Hms & before & it & after & E & Ha & _ & _ & Hsc & _).
      exists it. rewrite <- Hsc.
      split; [rewrite E; apply in_elt |]. now repeat split.
  - intros (Hin & Hskip & item & Hitem & Ha & Hms & Hpos).
    destruct (qualifying_candidate_result S text rn emps ms c item Hnames Hin Hskip
                Hitem Ha Hms Hpos) as (w & _ & _ & Hres).
    apply in_map_iff. eexists. split; [| exact Hres]. reflexivity.
Qed.

(** X3 on the sample roster. *)
Lemma candidate_accepted_iff_witness :
  In "Jacob"
     (map potential_name
          (match_employee_to_review insertion_order
             (Some "Jacob was excellent tonight!") "Grackle" jacob_roster
             default_min_similarity))
  <-> (In "Jacob" (extract_potential_names insertion_order
                     (Some "Jacob was excellent tonight!"))
       /\ contains (lower "Jacob") skipped_words = false
       /\ exists item,
           In item jacob_roster /\ assigned "Grackle" item = true
           /\ (default_min_similarity <= score_for "Jacob" item)%Q
           /\ (0 < score_for "Jacob" item)%Q).
Proof.
  apply candidate_accepted_iff.
  intros item [<- | []] _. discriminate.
Defined.

(** ** The similarity is a number between 0 and 1 *)

Lemma round_half_even_bounds (n d : Z) :
  (0 < d)%Z ->
  (n / d <= PyFloat.round_half_even n d <= n / d + 1)%Z
  /\ ((n mod d = 0)%Z -> PyFloat.round_half_even n d = (n / d)%Z).
Proof.
  intros Hd. unfold PyFloat.round_half_even. split.
  - destruct (2 * (n mod d) ?= d)%Z; [destruct (Z.even (n / d)) | |]; lia.
  - intros Hr. rewrite Hr. destruct d; [lia | reflexivity | lia].
Qed.

Lemma round_half_even_le (n d bound : Z) :
  (0 < d)%Z -> (0 <= n <= d * bound)%Z ->
  (0 <= PyFloat.round_half_even n d <= bound)%Z.
Proof.
  intros Hd [Hn Hb].
  destruct (round_half_even_bounds n d Hd) as [[Hlo Hhi] Hexact].
  assert (H0 : (0 <= n / d)%Z) by (apply Z.div_pos; lia).
  split; [lia |].
  destruct (Z.eq_dec n (d * bound)) as [-> | Hne].
  - rewrite Hexact.
    + rewrite Z.mul_comm, Z.div_mul; lia.
    + rewrite Z.mul_comm. apply Z.mod_mul. lia.
  - assert (n / d < bound)%Z by (apply Z.div_lt_upper_bound; lia). lia.
Qed.

Lemma float_div_unit (n d : Z) :
  (0 <= n <= d)%Z -> (0 < d)%Z -> (0 <= PyFloat.div n d <= 1)%Q.
Proof.
  intros [Hn Hnd] Hd. unfold PyFloat.div.
  destruct (Z.eqb_spec n 0) as [-> | Hn0]; [lra |].
  assert (He0 : (Z.log2 n - Z.log2 d <= 0)%Z).
  { pose proof (Z.log2_le_mono n d Hnd). lia. }
  set (e0 := (Z.log2 n - Z.log2 d)%Z) in *.
  set (e := (if PyFloat.below_pow2 n d e0 then e0 - 1 else e0)%Z).
  assert (He : (e <= 0)%Z) by (unfold e; destruct (PyFloat.below_pow2 n d e0); lia).
  assert (Hs : (0 <= 52 - e)%Z) by lia.
  destruct (Z.leb_spec 0 (52 - e)) as [_ | Hneg]; [| lia].
  set (s := (52 - e)%Z) in *.
  assert (Hp : (0 < 2 ^ s)%Z) by (apply Z.pow_pos_nonneg; lia).
  pose proof (round_half_even_le (n * 2 ^ s) d (2 ^ s) Hd) as Hm.
  assert (Hrange : (0 <= n * 2 ^ s <= d * 2 ^ s)%Z) by nia.
  specialize (Hm Hrange).
  rewrite Qred_correct. unfold Qle; simpl.
  rewrite Z2Pos.id by exact Hp. lia.
Qed.

Lemma ratio_unit (x y : list ascii) : (0 <= Difflib.ratio x y <= 1)%Q.
Proof.
  unfold Difflib.ratio.
  destruct (Nat.eqb_spec (List.length x + List.length y) 0) as [_ | Hlen].
  - vm_compute. split; discriminate.
  - destruct (matches_bounded x y) as [Hx Hy].
    apply float_div_unit; lia.
Qed.

(** X4: the similarity of any two strings is a number between 0 and 1. *)
Theorem similarity_score_between_0_and_1 (a b : string) :
  (0 <= similarity_score a b <= 1)%Q.
Proof. unfold similarity_score. apply ratio_unit. Qed.

(** ** A string compared with itself *)

Section Identical.

Variable x : list ascii.

Lemma run_length_step (i : nat) (c : ascii) :
  nth_error x i = Some c -> Difflib.popular x c = false ->
  run_length x i = S (run_before x i).
Proof.
  intros Hc Hp. destruct i as [| i']; cbn [run_length run_before];
    now rewrite Hc, Hp.
Qed.

Lemma run_length_popular (i : nat) (c : ascii) :
  nth_error x i = Some c -> Difflib.popular x c = true -> run_length x i = 0.
Proof.
  intros Hc Hp. destruct i as [| i']; cbn [run_length]; now rewrite Hc, Hp.
Qed.

Lemma run_length_le (i : nat) : run_length x i <= S i.
Proof.
  induction i as [| i IH]; cbn [run_length].
  - destruct (nth_error x 0) as [c |]; [destruct (Difflib.popular x c) |]; lia.
  - destruct (nth_error x (S i)) as [c |]; [destruct (Difflib.popular x c) |]; lia.
Qed.

Lemma indices_spec (c : ascii) (l : list ascii) :
  forall base j : nat,
    In j (Difflib.indices c l base) ->
    base <= j < base + List.length l /\ nth_error l (j - base) = Some c.
Proof.
  induction l as [| a l IH]; intros base j H; simpl in H; [contradiction |].
  apply in_app_or in H. destruct H as [H | H].
  - destruct (Ascii.eqb_spec a c) as [-> | _]; [| contradiction].
    destruct H as [<- | []]. simpl. rewrite Nat.sub_diag. split; [lia | reflexivity].
  - apply IH in H. destruct H as [Hj Hn]. simpl. split; [lia |].
    replace (j - base) with (S (j - S base)) by lia. exact Hn.
Qed.

Lemma indices_split (c : ascii) (l : list ascii) :
  forall base i : nat,
    nth_error l i = Some c ->
    exists l1 l2,
      Difflib.indices c l base = l1 ++ (base + i) :: l2
      /\ Forall (fun j => j < base + i) l1
      /\ Forall (fun j => base + i < j) l2.
Proof.
  induction l as [| a l IH]; intros base i H.
  - destruct i; discriminate.
  - destruct i as [| i']; simpl in H.
    + injection H as ->. simpl. rewrite Ascii.eqb_refl.
      exists [], (Difflib.indices c l (S base)). rewrite Nat.add_0_r.
      split; [reflexivity |]. split; [constructor |].
      apply Forall_forall. intros j Hj. apply indices_spec in Hj. lia.
    + destruct (IH (S base) i' H) as (l1 & l2 & E & H1 & H2).
      simpl. rewrite E.
      exists ((if Ascii.eqb a c then [base] else []) ++ l1), l2.
      replace (base + S i') with (S base + i') by lia.
      split; [now rewrite <- app_assoc |]. split; [| exact H2].
      apply Forall_app. split; [| exact H1].
      destruct (Ascii.eqb a c); constructor; [lia | constructor].
Qed.

Lemma filter_all {A : Type} (f : A -> bool) (l : list A) :
  Forall (fun a => f a = true) l -> filter f l = l.
Proof.
  induction 1 as [| a l Ha _ IH]; simpl; [reflexivity |]. now rewrite Ha, IH.
Qed.

Lemma b2j_in_range (c : ascii) :
  filter (fun j => (0 <=? j) && (j <? List.length x)) (Difflib.b2j x c)
  = Difflib.b2j x c.
Proof.
  apply filter_all. apply Forall_forall. intros j Hj.
  unfold Difflib.b2j in Hj. destruct (Difflib.popular x c); [contradiction |].
  apply indices_spec in Hj. destruct Hj as [Hj _].
  apply andb_true_iff. split; [reflexivity | apply Nat.ltb_lt; lia].
Qed.

Section Row.

Variables (i : nat) (c : ascii) (j2len : list (nat * nat)).
Hypothesis Hc : nth_error x i = Some c.
Hypothesis Hp : Difflib.popular x c = false.
Hypothesis Hruns :
  forall j, Difflib.j2len_get j2len j <= run_before x i
            /\ Difflib.j2len_get j2len j <= run_length x j.
Hypothesis Hdiag :
  forall i', i = S i' -> Difflib.j2len_get j2len i' = run_length x i'.

Lemma prev_run_bound (j : nat) :
  nth_error x j = Some c ->
  Difflib.j2len_prev j2len j + 1 <= run_length x i
  /\ Difflib.j2len_prev j2len j + 1 <= run_length x j.
Proof.
  intros Hj. rewrite (run_length_step i c Hc Hp), (run_length_step j c Hj Hp).
  destruct j as [| j']; unfold Difflib.j2len_prev, run_before at 2.
  - lia.
  - destruct (Hruns j'). lia.
Qed.

Lemma prev_run_diagonal : Difflib.j2len_prev j2len i + 1 = run_length x i.
Proof.
  rewrite (run_length_step i c Hc Hp).
  destruct i as [| i']; unfold Difflib.j2len_prev, run_before.
  - reflexivity.
  - rewrite (Hdiag i' eq_refl). lia.
Qed.

(** Positions whose run cannot beat the best block leave it as it is. *)
Lemma fold_inner_step_keeps_best (besti bestj bestsize : nat) (js : list nat) :
  Forall (fun j => nth_error x j = Some c /\ j <> i
                   /\ Nat.min (run_length x i) (run_length x j) <= bestsize) js ->
  forall new : list (nat * nat),
    (forall j, Difflib.j2len_get new j <= run_length x i
               /\ Difflib.j2len_get new j <= run_length x j) ->
    exists new',
      fold_left (Difflib.inner_step i j2len) js (new, (besti, bestj, bestsize))
      = (new', (besti, bestj, bestsize))
      /\ (forall j, Difflib.j2len_get new' j <= run_length x i
                    /\ Difflib.j2len_get new' j <= run_length x j)
      /\ Difflib.j2len_get new' i = Difflib.j2len_get new i.
Proof.
  induction 1 as [| j js (Hj & Hne & Hmin) _ IH]; intros new Hnew; simpl.
  - exists new. split; [reflexivity | split; [exact Hnew | reflexivity]].
  - destruct (prev_run_bound j Hj) as [Hk1 Hk2].
    assert (Hlt : (bestsize <? Difflib.j2len_prev j2len j + 1) = false)
      by (apply Nat.ltb_ge; lia).
    rewrite Hlt.
    destruct (IH ((j, Difflib.j2len_prev j2len j + 1) :: new)) as (new' & E & Hok & Hi).
    + intros j0. simpl. destruct (Nat.eqb_spec j j0) as [<- | _]; [lia | apply Hnew].
    + exists new'. split; [exact E |]. split; [exact Hok |].
      rewrite Hi. simpl. destruct (Nat.eqb_spec j i); [contradiction | reflexivity].
Qed.

End Row.

Lemma outer_step_diagonal (i : nat) (st : list (nat * nat) * Difflib.match_t) :
  i < List.length x ->
  diagonal_state x i st ->
  diagonal_state x (S i) (Difflib.outer_step x x 0 (List.length x) st i).
Proof.
  intros Hi Hst. destruct st as [j2len [[besti bestj] bestsize]].
  destruct Hst as (Hruns & Hdiag & Hbest & <- & Hend).
  unfold Difflib.outer_step.
  destruct (nth_error x i) as [c |] eqn:Hc;
    [| apply nth_error_None in Hc; lia].
  rewrite b2j_in_range. unfold Difflib.b2j.
  destruct (Difflib.popular x c) eqn:Hp.
  - (* a popular character starts no run *)
    simpl. pose proof (run_length_popular i c Hc Hp) as H0.
    split; [intros j; simpl; lia |].
    split; [intros i' E; injection E as <-; simpl; lia |].
    split; [| split; [reflexivity | lia]].
    intros i' Hi'. destruct (Nat.eq_dec i' i) as [-> | Hne]; [lia |].
    apply Hbest. lia.
  - destruct (indices_split c x 0 i Hc) as (l1 & l2 & E & H1 & H2).
    simpl in E, H1, H2.
    assert (Hin : forall j, In j (l1 ++ i :: l2) -> nth_error x j = Some c).
    { intros j Hj. rewrite <- E in Hj. apply indices_spec in Hj.
      destruct Hj as [_ Hj]. now rewrite Nat.sub_0_r in Hj. }
    pose proof (run_length_step i c Hc Hp) as HR.
    rewrite E, fold_left_app.
    (* the positions before the diagonal *)
    destruct (fold_inner_step_keeps_best i c j2len Hc Hp Hruns
                besti besti bestsize l1) with (new := @nil (nat * nat))
      as (new1 & E1 & Hok1 & _).
    { apply Forall_forall. intros j Hj.
      assert (Hlt : j < i) by (rewrite Forall_forall in H1; now apply H1).
      split; [apply Hin, in_or_app; now left |]. split; [lia |].
      specialize (Hbest j Hlt). lia. }
    { intros j. simpl. lia. }
    unfold Difflib.match_t in *.
    rewrite E1. cbn [fold_left].
    (* the diagonal *)
    assert (Hstep : exists new2 b2 s2,
               Difflib.inner_step i j2len (new1, (besti, besti, bestsize)) i
               = (new2, (b2, b2, s2))
               /\ (forall j, Difflib.j2len_get new2 j <= run_length x i
                             /\ Difflib.j2len_get new2 j <= run_length x j)
               /\ Difflib.j2len_get new2 i = run_length x i
               /\ run_length x i <= s2 /\ bestsize <= s2 /\ b2 + s2 <= S i).
    { unfold Difflib.inner_step.
      rewrite (prev_run_diagonal i c j2len Hc Hp Hruns Hdiag).
      assert (Hnew2 : forall j,
                 Difflib.j2len_get ((i, run_length x i) :: new1) j <= run_length x i
                 /\ Difflib.j2len_get ((i, run_length x i) :: new1) j
                    <= run_length x j).
      { intros j. simpl. destruct (Nat.eqb_spec i j) as [<- | _]; [lia | apply Hok1]. }
      assert (Hget : Difflib.j2len_get ((i, run_length x i) :: new1) i
                     = run_length x i)
        by (simpl; now rewrite Nat.eqb_refl).
      pose proof (run_length_le i) as Hle.
      destruct (Nat.ltb_spec bestsize (run_length x i)) as [Hlt | Hge].
      - exists ((i, run_length x i) :: new1), (i + 1 - run_length x i),
          (run_length x i).
        repeat split; try apply Hnew2; try exact Hget; lia.
      - exists ((i, run_length x i) :: new1), besti, bestsize.
        repeat split; try apply Hnew2; try exact Hget; lia. }
    destruct Hstep as (new2 & b2 & s2 & E2 & Hok2 & Hget2 & HRs & Hbs & Hend2).
    unfold Difflib.match_t in *.
    rewrite E2.
    (* the positions after the diagonal *)
    destruct (fold_inner_step_keeps_best i c j2len Hc Hp Hruns b2 b2 s2 l2)
      with (new := new2) as (new3 & E3 & Hok3 & Hget3).
    { apply Forall_forall. intros j Hj.
      assert (Hlt : i < j) by (rewrite Forall_forall in H2; now apply H2).
      split; [apply Hin, in_or_app; right; now right |]. split; lia. }
    { exact Hok2. }
    unfold Difflib.match_t in *.
    rewrite E3.
    split; [exact Hok3 |].
    split; [intros i' Ei; injection Ei as <-; congruence |].
    split; [| split; [reflexivity | exact Hend2]].
    intros i' Hi'. destruct (Nat.eq_dec i' i) as [-> | Hne]; [lia |].
    assert (i' < i) by lia. specialize (Hbest i' H). lia.
Qed.

Lemma fold_outer_step_diagonal (m : nat) :
  forall (i : nat) (st : list (nat * nat) * Difflib.match_t),
    i + m <= List.length x ->
    diagonal_state x i st ->
    diagonal_state x (i + m)
                   (fold_left (Difflib.outer_step x x 0 (List.length x))
                              (seq i m) st).
Proof.
  induction m as [| m IH]; intros i st Hlen Hst; simpl.
  - now rewrite Nat.add_0_r.
  - replace (i + S m) with (S i + m) by lia.
    apply IH; [lia |]. apply outer_step_diagonal; [lia | exact Hst].
Qed.

Lemma same_at_diagonal (i : nat) :
  i < List.length x -> Difflib.same_at x x i i = true.
Proof.
  intros Hi. unfold Difflib.same_at.
  destruct (nth_error x i) as [c |] eqn:Hc; [apply Ascii.eqb_refl |].
  apply nth_error_None in Hc. lia.
Qed.

Lemma extend_left_diagonal (besti : nat) :
  forall bestsize : nat,
    besti <= List.length x ->
    Difflib.extend_left x x 0 0 besti besti bestsize = (0, 0, besti + bestsize).
Proof.
  induction besti as [| i IH]; intros bestsize Hi; simpl; [reflexivity |].
  rewrite same_at_diagonal by lia. simpl.
  rewrite IH by lia. f_equal. lia.
Qed.

Lemma extend_right_diagonal (rounds : nat) :
  forall bestsize : nat,
    bestsize + rounds = List.length x ->
    Difflib.extend_right x x rounds (List.length x) (List.length x) 0 0 bestsize
    = List.length x.
Proof.
  induction rounds as [| n IH]; intros bestsize H; simpl; [lia |].
  assert (Hlt : (bestsize <? List.length x) = true) by (apply Nat.ltb_lt; lia).
  rewrite Hlt, same_at_diagonal by lia. simpl. apply IH. lia.
Qed.

(** The longest block of a string in itself is the whole string. *)
Lemma find_longest_match_identical :
  Difflib.find_longest_match x x 0 (List.length x) 0 (List.length x)
  = (0, 0, List.length x).
Proof.
  unfold Difflib.find_longest_match.
  pose proof (fold_outer_step_diagonal (List.length x) 0 ([], (0, 0, 0))) as H.
  simpl in H. rewrite Nat.sub_0_r.
  assert (H0 : diagonal_state x 0 ([], (0, 0, 0))).
  { simpl. split; [intros j; lia |]. split; [discriminate |].
    split; [intros i' Hi'; lia | split; [reflexivity | lia]]. }
  specialize (H (le_n _) H0).
  destruct (fold_left (Difflib.outer_step x x 0 (List.length x))
                      (seq 0 (List.length x)) ([], (0, 0, 0)))
    as [j2len [[besti bestj] bestsize]].
  destruct H as (_ & _ & _ & <- & Hend).
  rewrite extend_left_diagonal by lia.
  rewrite extend_right_diagonal by lia. reflexivity.
Qed.

Lemma matches_identical : Difflib.matches x x = List.length x.
Proof.
  unfold Difflib.matches, Difflib.get_matching_blocks.
  destruct (List.length x) as [| n] eqn:Hn; [reflexivity |].
  cbn [Difflib.matching_blocks]. rewrite <- Hn, find_longest_match_identical.
  rewrite Hn. cbn [Nat.eqb]. rewrite Nat.ltb_irrefl. simpl. lia.
Qed.

End Identical.

Lemma float_div_self (d : Z) : (0 < d)%Z -> PyFloat.div d d = 1%Q.
Proof.
  intros Hd. unfold PyFloat.div.
  destruct (Z.eqb_spec d 0) as [-> | _]; [lia |].
  rewrite Z.sub_diag. unfold PyFloat.below_pow2.
  change (0 <=? 0)%Z with true. cbv iota.
  replace (d <? d * 2 ^ 0)%Z with false by (symmetry; apply Z.ltb_ge; lia).
  change (0 <=? 52 - 0)%Z with true. cbv iota.
  destruct (round_half_even_bounds (d * 2 ^ (52 - 0)) d Hd) as [_ Hexact].
  rewrite Hexact by (rewrite Z.mul_comm; apply Z.mod_mul; lia).
  rewrite Z.mul_comm, Z.div_mul by lia.
  reflexivity.
Qed.

Lemma ratio_identical (x : list ascii) : Difflib.ratio x x = 1%Q.
Proof.
  unfold Difflib.ratio. rewrite matches_identical.
  destruct (Nat.eqb_spec (List.length x + List.length x) 0) as [_ | Hlen].
  - vm_compute. reflexivity.
  - replace (2 * Z.of_nat (List.length x))%Z
      with (Z.of_nat (List.length x + List.length x)) by lia.
    apply float_div_self. lia.
Qed.

(** X5: two strings that are equal up to case have the similarity 1.0. *)
Theorem similarity_of_equal_names_is_1 (a b : string) :
  lower a = lower b -> similarity_score a b = 1%Q.
Proof.
  intros E. unfold similarity_score. rewrite E. apply ratio_identical.
Qed.

(** X5 on a first name written in capitals. *)
Lemma similarity_of_equal_names_is_1_witness :
  lower "Jacob" = lower "JACOB" /\ similarity_score "Jacob" "JACOB" = 1%Q.
Proof.
  split; [reflexivity |].
  apply similarity_of_equal_names_is_1. reflexivity.
Defined.

(** X6: a candidate that the resolver does not skip and that equals, up to
    case, the first name of a roster entry assigned to the restaurant is
    always matched, with the confidence 1.0 (for a threshold of at most 1
    and non-empty full names). *)
Theorem exact_first_name_is_matched (S : set_iteration) (text : option string)
        (rn : string) (emps : employee_dict) (ms : PyFloat.float)
        (c : string) (item : string * employee_info) :
  In c (extract_potential_names S text) ->
  contains (lower c) skipped_words = false ->
  In item emps -> assigned rn item = true ->
  lower c = lower (first_name (snd item)) ->
  (ms <= 1)%Q ->
  (forall it, In it emps -> assigned rn it = true -> full_name (snd it) <> "") ->
  exists m,
    In m (match_employee_to_review S text rn emps ms)
    /\ potential_name m = c
    /\ (confidence m == 1)%Q.
Proof.
  intros Hc Hskip Hitem Ha Hlow Hms Hnames.
  assert (Hone : score_for c item = 1%Q).
  { unfold score_for, similarity_score. rewrite Hlow. apply ratio_identical. }
  destruct (qualifying_candidate_result S text rn emps ms c item Hnames Hc Hskip
              Hitem Ha) as (w & Hw & Haw & Hres); [rewrite Hone; lra .. |].
  eexists. split; [exact Hres |]. split; [reflexivity |]. simpl.
  destruct (best_for_best_so_far c rn emps ms) as (_ & _ & Hmax & Hsome).
  assert (Hlo : (1 <= best_score (best_for c rn emps ms))%Q).
  { rewrite <- Hone. apply Hmax; try assumption. rewrite Hone. exact Hms. }
  assert (Hhi : (best_score (best_for c rn emps ms) <= 1)%Q).
  { destruct (best_match (best_for c rn emps ms)) as [name |] eqn:Hbest.
    - destruct (Hsome name eq_refl) as (_ & _ & before & it & after & _ & _ & _ & _ & E & _).
      rewrite E. unfold score_for, similarity_score. apply ratio_unit.
    - destruct (best_for_best_so_far c rn emps ms) as (_ & Hnone & _).
      rewrite (Hnone Hbest). lra. }
  lra.
Qed.

(** X6 on the sample roster: Jacob is matched with the confidence 1.0. *)
Lemma exact_first_name_is_matched_witness :
  exists m,
    In m (match_employee_to_review insertion_order
            (Some "Jacob was excellent tonight!") "Grackle" jacob_roster
            default_min_similarity)
    /\ potential_name m = "Jacob"
    /\ (confidence m == 1)%Q.
Proof.
  apply (exact_first_name_is_matched insertion_order _ "Grackle" jacob_roster
           default_min_similarity "Jacob" ("jacob", jacob)).
  - vm_compute. left. reflexivity.
  - reflexivity.
  - left. reflexivity.
  - reflexivity.
  - reflexivity.
  - vm_compute. discriminate.
  - intros it [<- | []] _. discriminate.
Defined.

(** ** The similarity in both orders of its arguments

    For strings without popular characters the longest-block search
    returns the longest common block of the region, the one that starts
    first in its first argument and, among those, first in its second. *)

Ltac leb_cases :=
  repeat match goal with
         | |- context [?x <=? ?y] => destruct (Nat.leb_spec x y) as [? | ?]
         end.

Lemma indices_In (c : ascii) (l : list ascii) (base j : nat) :
  In j (Difflib.indices c l base) <-> base <= j /\ nth_error l (j - base) = Some c.
Proof.
  split.
  - intros H. apply indices_spec in H. destruct H as [H1 H2]. split; [lia | exact H2].
  - intros [H1 H2].
    destruct (indices_split c l base (j - base) H2) as (l1 & l2 & E & _).
    rewrite E. replace (base + (j - base)) with j by lia. apply in_elt.
Qed.

Lemma indices_sorted (c : ascii) (l : list ascii) :
  forall base : nat, StronglySorted lt (Difflib.indices c l base).
Proof.
  induction l as [| x l IH]; intros base; simpl; [constructor |].
  destruct (Ascii.eqb x c); simpl; [| apply IH].
  constructor; [apply IH |].
  apply Forall_forall. intros j Hj. apply indices_spec in Hj. lia.
Qed.

Lemma sorted_filter (f : nat -> bool) (l : list nat) :
  StronglySorted lt l -> StronglySorted lt (filter f l).
Proof.
  induction 1 as [| x l Hs IH Hall]; simpl; [constructor |].
  destruct (f x); [| exact IH]. constructor; [exact IH |].
  apply Forall_forall. intros y Hy. apply filter_In in Hy.
  rewrite Forall_forall in Hall. now apply Hall.
Qed.

Section LongestBlock.

Variables a b : list ascii.
Variables alo blo bhi : nat.
Hypothesis short : List.length b < 200.

Lemma popular_short (c : ascii) : Difflib.popular b c = false.
Proof.
  unfold Difflib.popular.
  destruct (Nat.leb_spec 200 (List.length b)) as [H | _]; [lia | reflexivity].
Qed.

Lemma run_at_eq (i j : nat) :
  run_at a b alo blo i j
  = if (alo <=? i) && (blo <=? j) && Difflib.same_at a b i j
    then S (run_pred a b alo blo i j) else 0.
Proof.
  destruct i as [| i'], j as [| j']; cbn [run_at run_pred]; reflexivity.
Qed.

Lemma run_at_low (i j : nat) : i < alo \/ j < blo -> run_at a b alo blo i j = 0.
Proof.
  intros H. rewrite run_at_eq. leb_cases; try reflexivity; lia.
Qed.

Lemma run_at_apart (i j : nat) :
  Difflib.same_at a b i j = false -> run_at a b alo blo i j = 0.
Proof. intros H. rewrite run_at_eq, H. now rewrite andb_false_r. Qed.

Lemma run_at_pos (i j : nat) :
  1 <= run_at a b alo blo i j ->
  alo <= i /\ blo <= j /\ Difflib.same_at a b i j = true
  /\ run_at a b alo blo i j = S (run_pred a b alo blo i j).
Proof.
  rewrite run_at_eq. leb_cases;
    destruct (Difflib.same_at a b i j); simpl; intros Hrun;
    repeat split; try assumption; lia.
Qed.

Lemma run_at_match (i j : nat) :
  alo <= i -> blo <= j -> Difflib.same_at a b i j = true ->
  run_at a b alo blo i j = S (run_pred a b alo blo i j).
Proof.
  intros Hi Hj Hs. rewrite run_at_eq, Hs. leb_cases; try lia. reflexivity.
Qed.

Lemma run_at_bound (i : nat) :
  forall j : nat,
    run_at a b alo blo i j <= i + 1 - alo /\ run_at a b alo blo i j <= j + 1 - blo.
Proof.
  induction i as [| i IH]; intros j.
  - destruct (Nat.eq_dec (run_at a b alo blo 0 j) 0) as [E0 | Hpos];
      [rewrite E0; lia |].
    destruct (run_at_pos 0 j) as (Hi & Hj & _ & E); [lia |].
    rewrite E. cbn [run_pred]. lia.
  - destruct (Nat.eq_dec (run_at a b alo blo (S i) j) 0) as [E0 | Hpos];
      [rewrite E0; lia |].
    destruct (run_at_pos (S i) j) as (Hi & Hj & _ & E); [lia |].
    rewrite E. destruct j as [| j']; cbn [run_pred]; [lia |].
    destruct (IH j') as [H1 H2].
    destruct (Nat.lt_ge_cases i alo) as [Hlow | Hge];
      [rewrite run_at_low by (left; exact Hlow); lia |].
    destruct (Nat.lt_ge_cases j' blo) as [Hlow' | Hge'];
      [rewrite run_at_low by (right; exact Hlow'); lia |].
    lia.
Qed.

Lemma run_at_common (i : nat) :
  forall j t : nat,
    t < run_at a b alo blo i j -> Difflib.same_at a b (i - t) (j - t) = true.
Proof.
  induction i as [| i IH]; intros j t Ht.
  - destruct (run_at_pos 0 j) as (_ & _ & Hs & E); [lia |].
    rewrite E in Ht. cbn [run_pred] in Ht.
    assert (t = 0) by lia. subst t.
    replace (0 - 0) with 0 by lia. replace (j - 0) with j by lia. exact Hs.
  - destruct (run_at_pos (S i) j) as (_ & _ & Hs & E); [lia |].
    rewrite E in Ht.
    destruct t as [| t'];
      [replace (S i - 0) with (S i) by lia; replace (j - 0) with j by lia;
       exact Hs |].
    destruct j as [| j']; cbn [run_pred] in Ht; [lia |].
    simpl. apply IH. lia.
Qed.

Lemma run_at_block (k : nat) :
  forall i j : nat,
    alo <= i -> blo <= j ->
    (forall t : nat, t < S k -> Difflib.same_at a b (i + t) (j + t) = true) ->
    S k <= run_at a b alo blo (i + k) (j + k).
Proof.
  induction k as [| k IH]; intros i j Hi Hj Hc.
  - rewrite run_at_match; [lia | lia | lia |]. apply Hc. lia.
  - rewrite run_at_match; [| lia | lia | apply Hc; lia].
    replace (i + S k) with (S (i + k)) by lia.
    replace (j + S k) with (S (j + k)) by lia.
    cbn [run_pred]. apply le_n_S. apply IH; [assumption | assumption |].
    intros t Ht. apply Hc. lia.
Qed.

(** The block of a run. *)
Lemma run_at_is_block (i j : nat) :
  common_block a b (i + 1 - run_at a b alo blo i j,
                    j + 1 - run_at a b alo blo i j,
                    run_at a b alo blo i j).
Proof.
  intros t Ht. pose proof (run_at_bound i j) as [H1 H2].
  replace (i + 1 - run_at a b alo blo i j + t)
    with (i - (run_at a b alo blo i j - 1 - t)) by lia.
  replace (j + 1 - run_at a b alo blo i j + t)
    with (j - (run_at a b alo blo i j - 1 - t)) by lia.
  apply run_at_common. lia.
Qed.

Lemma best_of_more (P Q : nat -> nat -> Prop) (best : Difflib.match_t) :
  (forall i j, P i j -> Q i j) ->
  (forall i j, Q i j -> P i j \/ run_at a b alo blo i j = 0) ->
  best_of a b alo blo P best -> best_of a b alo blo Q best.
Proof.
  destruct best as [[bi bj] bk]. intros HPQ HQP (H1 & H2 & H3).
  split; [| split].
  - intros i j Hq. destruct (HQP i j Hq) as [Hp | H0]; [now apply H1 | lia].
  - exact H2.
  - intros Hk. destruct (H3 Hk) as (ie & je & Hp & Hr & Ei & Ej & Hfirst).
    exists ie, je. split; [now apply HPQ |]. split; [exact Hr |].
    split; [exact Ei |]. split; [exact Ej |].
    intros i j Hq Hrun. destruct (HQP i j Hq) as [Hp' | H0]; [now apply Hfirst | lia].
Qed.

Lemma best_of_cell (P Q : nat -> nat -> Prop) (bi bj bk i j : nat) :
  (forall i' j', Q i' j' <-> P i' j' \/ (i' = i /\ j' = j)) ->
  (forall i' j', P i' j' -> i' < i \/ (i' = i /\ j' < j)) ->
  best_of a b alo blo P (bi, bj, bk) ->
  best_of a b alo blo Q
          (if bk <? run_at a b alo blo i j
           then (i + 1 - run_at a b alo blo i j, j + 1 - run_at a b alo blo i j,
                 run_at a b alo blo i j)
           else (bi, bj, bk)).
Proof.
  intros HQ Hbefore (H1 & H2 & H3).
  destruct (Nat.ltb_spec bk (run_at a b alo blo i j)) as [Hlt | Hge].
  - split; [| split].
    + intros i' j' Hq. apply HQ in Hq. destruct Hq as [Hp | [-> ->]]; [| lia].
      specialize (H1 i' j' Hp). lia.
    + lia.
    + intros _. exists i, j. split; [apply HQ; now right |].
      split; [reflexivity |]. split; [reflexivity |]. split; [reflexivity |].
      intros i' j' Hq Hrun. apply HQ in Hq. destruct Hq as [Hp | [-> ->]]; [| lia].
      specialize (H1 i' j' Hp). lia.
  - split; [| split].
    + intros i' j' Hq. apply HQ in Hq. destruct Hq as [Hp | [-> ->]]; [| lia].
      now apply H1.
    + exact H2.
    + intros Hk. destruct (H3 Hk) as (ie & je & Hp & Hr & Ei & Ej & Hfirst).
      exists ie, je. split; [apply HQ; now left |]. split; [exact Hr |].
      split; [exact Ei |]. split; [exact Ej |].
      intros i' j' Hq Hrun. apply HQ in Hq. destruct Hq as [Hp' | [-> ->]].
      * now apply Hfirst.
      * destruct (Hbefore ie je Hp) as [Hlt | [-> Hlt]]; [now left | right; lia].
Qed.

Section Row.

Variables (n : nat) (c : ascii) (d : list (nat * nat)).
Hypothesis Hc : nth_error a (alo + n) = Some c.
Hypothesis Hprev :
  forall j : nat,
    blo <= j < bhi -> Difflib.j2len_prev d j = run_pred a b alo blo (alo + n) j.

Lemma same_at_row (j : nat) :
  Difflib.same_at a b (alo + n) j = true <-> nth_error b j = Some c.
Proof.
  unfold Difflib.same_at. rewrite Hc.
  destruct (nth_error b j) as [y |]; [| split; discriminate].
  destruct (Ascii.eqb_spec c y) as [-> | Hne]; split; auto; try discriminate.
  intros E. injection E as ->. contradiction.
Qed.

Lemma run_at_row_other (j : nat) :
  nth_error b j <> Some c -> run_at a b alo blo (alo + n) j = 0.
Proof.
  intros H. apply run_at_apart.
  destruct (Difflib.same_at a b (alo + n) j) eqn:E; [| reflexivity].
  apply same_at_row in E. contradiction.
Qed.

Lemma inner_step_cell (new : list (nat * nat)) (bi bj bk j : nat) :
  blo <= j < bhi -> nth_error b j = Some c ->
  Difflib.inner_step (alo + n) d (new, (bi, bj, bk)) j
  = ((j, run_at a b alo blo (alo + n) j) :: new,
     if bk <? run_at a b alo blo (alo + n) j
     then (alo + n + 1 - run_at a b alo blo (alo + n) j,
           j + 1 - run_at a b alo blo (alo + n) j,
           run_at a b alo blo (alo + n) j)
     else (bi, bj, bk)).
Proof.
  intros Hj Hb. unfold Difflib.inner_step.
  rewrite (Hprev j Hj), Nat.add_1_r.
  rewrite <- (run_at_match (alo + n) j) by (try lia; now apply same_at_row).
  destruct (bk <? run_at a b alo blo (alo + n) j); reflexivity.
Qed.

Lemma inner_fold (js : list nat) :
  StronglySorted lt js ->
  forall (jf : nat) (new : list (nat * nat)) (best : Difflib.match_t),
    (forall j, In j js -> jf <= j /\ blo <= j < bhi /\ nth_error b j = Some c) ->
    (forall j, jf <= j -> blo <= j < bhi -> nth_error b j = Some c -> In j js) ->
    row_runs a b alo blo bhi (alo + n) jf new ->
    best_of a b alo blo (searched alo blo bhi n jf) best ->
    row_runs a b alo blo bhi (alo + n) bhi
             (fst (fold_left (Difflib.inner_step (alo + n) d) js (new, best)))
    /\ best_of a b alo blo (searched alo blo bhi (S n) 0)
               (snd (fold_left (Difflib.inner_step (alo + n) d) js (new, best))).
Proof.
  induction 1 as [| j js Hs IH Hall]; intros jf new best Hin Hall' Hrow Hbest.
  - assert (Hnone : forall j, jf <= j -> blo <= j < bhi ->
                              run_at a b alo blo (alo + n) j = 0).
    { intros j Hjf Hj. apply run_at_row_other. intros Hb.
      exact (Hall' j Hjf Hj Hb). }
    simpl. split.
    + intros j. rewrite (Hrow j).
      destruct (Nat.leb_spec blo j) as [H1 | H1]; [| reflexivity].
      destruct (Nat.ltb_spec j bhi) as [H2 | H2]; [| reflexivity].
      destruct (Nat.ltb_spec j jf) as [H3 | H3]; [reflexivity |].
      simpl. symmetry. apply Hnone; lia.
    + apply (best_of_more (searched alo blo bhi n jf)); [| | exact Hbest].
      * unfold searched. intros i' j' H. lia.
      * unfold searched. intros i' j' (H1 & H2 & H3).
        destruct (Nat.lt_ge_cases i' (alo + n)) as [Hlt | Hge]; [left; lia |].
        assert (i' = alo + n) by lia. subst i'.
        destruct (Nat.lt_ge_cases j' jf) as [Hlt | Hge']; [left; lia |].
        right. apply Hnone; lia.
  - destruct best as [[bi bj] bk].
    destruct (Hin j (or_introl eq_refl)) as (Hjf & Hj & Hb).
    rewrite Forall_forall in Hall.
    assert (Hgap : forall j0, jf <= j0 < j -> blo <= j0 < bhi ->
                               run_at a b alo blo (alo + n) j0 = 0).
    { intros j0 Hj0 Hr. apply run_at_row_other. intros Hb0.
      destruct (Hall' j0 (proj1 Hj0) Hr Hb0) as [E | Hin0]; [lia |].
      specialize (Hall j0 Hin0). lia. }
    cbn [fold_left]. rewrite inner_step_cell by assumption.
    apply (IH (S j)).
    + intros j0 Hj0. specialize (Hall j0 Hj0).
      destruct (Hin j0 (or_intror Hj0)) as (_ & H2 & H3). repeat split; try lia.
      exact H3.
    + intros j0 Hj0 Hr Hb0.
      destruct (Hall' j0 ltac:(lia) Hr Hb0) as [E | Hin0]; [lia | exact Hin0].
    + intros j0. cbn [Difflib.j2len_get].
      destruct (Nat.eqb_spec j j0) as [<- | Hne].
      * destruct (Nat.leb_spec blo j) as [H1 | H1]; [| lia].
        destruct (Nat.ltb_spec j bhi) as [H2 | H2]; [| lia].
        destruct (Nat.ltb_spec j (S j)) as [H3 | H3]; [reflexivity | lia].
      * rewrite (Hrow j0).
        destruct (Nat.leb_spec blo j0) as [H1 | H1]; [| reflexivity].
        destruct (Nat.ltb_spec j0 bhi) as [H2 | H2]; [| reflexivity].
        destruct (Nat.ltb_spec j0 jf) as [H3 | H3];
          destruct (Nat.ltb_spec j0 (S j)) as [H4 | H4]; simpl;
          try reflexivity; try lia.
        symmetry. apply Hgap; lia.
    + apply (best_of_cell (searched alo blo bhi n j)).
      * unfold searched. intros i' j'. split; intros H; lia.
      * unfold searched. intros i' j' H. lia.
      * apply (best_of_more (searched alo blo bhi n jf)); [| | exact Hbest].
        -- unfold searched. intros i' j' H. lia.
        -- unfold searched. intros i' j' (H1 & H2 & H3).
           destruct (Nat.lt_ge_cases i' (alo + n)) as [Hlt | Hge]; [left; lia |].
           assert (i' = alo + n) by lia. subst i'.
           destruct (Nat.lt_ge_cases j' jf) as [Hlt | Hge']; [left; lia |].
           right. apply Hgap; lia.
Qed.

End Row.

Lemma outer_step_rows_done (n : nat) (st : list (nat * nat) * Difflib.match_t) :
  rows_done a b alo blo bhi n st ->
  rows_done a b alo blo bhi (S n) (Difflib.outer_step a b blo bhi st (alo + n)).
Proof.
  destruct st as [d best]. intros [Hprev Hbest]. cbn [fst snd] in Hprev, Hbest.
  unfold Difflib.outer_step.
  destruct (nth_error a (alo + n)) as [c |] eqn:Hc.
  - unfold Difflib.b2j. rewrite popular_short.
    set (js := filter (fun j => (blo <=? j) && (j <? bhi)) (Difflib.indices c b 0)).
    assert (Hjs : forall j, In j js <-> blo <= j < bhi /\ nth_error b j = Some c).
    { intros j. unfold js. rewrite filter_In, indices_In, Nat.sub_0_r.
      rewrite andb_true_iff, Nat.leb_le, Nat.ltb_lt. split; intros H; repeat split; lia || apply H. }
    destruct (inner_fold n c d Hc Hprev js) with (jf := 0) (new := @nil (nat * nat))
                                                  (best := best) as [Hrow Hbest'].
    + apply sorted_filter, indices_sorted.
    + intros j Hj. apply Hjs in Hj. split; [lia | exact Hj].
    + intros j _ Hr Hb. apply Hjs. now split.
    + intros j. simpl. now rewrite andb_false_r.
    + exact Hbest.
    + split; [| exact Hbest'].
      intros j Hj. replace (alo + S n) with (S (alo + n)) by lia.
      destruct j as [| j']; [reflexivity |].
      cbn [Difflib.j2len_prev run_pred]. rewrite (Hrow j').
      destruct (Nat.leb_spec blo j') as [H1 | H1].
      * destruct (Nat.ltb_spec j' bhi) as [H2 | H2]; [| lia]. reflexivity.
      * simpl. symmetry. apply run_at_low. now right.
  - assert (Hnone : forall j, run_at a b alo blo (alo + n) j = 0).
    { intros j. apply run_at_apart. unfold Difflib.same_at. now rewrite Hc. }
    split.
    + intros j Hj. replace (alo + S n) with (S (alo + n)) by lia.
      destruct j as [| j']; [reflexivity |].
      cbn [fst Difflib.j2len_prev Difflib.j2len_get run_pred]. now rewrite Hnone.
    + cbn [snd]. apply (best_of_more (searched alo blo bhi n 0)); [| | exact Hbest].
      * unfold searched. intros i' j' H. lia.
      * unfold searched. intros i' j' (H1 & H2 & H3).
        destruct (Nat.lt_ge_cases i' (alo + n)) as [Hlt | Hge]; [left; lia |].
        assert (i' = alo + n) by lia. subst i'. right. apply Hnone.
Qed.

Lemma fold_outer_step_rows_done (m : nat) :
  forall (n : nat) (st : list (nat * nat) * Difflib.match_t),
    rows_done a b alo blo bhi n st ->
    rows_done a b alo blo bhi (n + m)
              (fold_left (Difflib.outer_step a b blo bhi) (seq (alo + n) m) st).
Proof.
  induction m as [| m IH]; intros n st Hst; simpl.
  - now rewrite Nat.add_0_r.
  - replace (n + S m) with (S n + m) by lia.
    replace (S (alo + n)) with (alo + S n) by lia.
    apply IH. now apply outer_step_rows_done.
Qed.

Lemma rows_done_start : rows_done a b alo blo bhi 0 ([], (alo, blo, 0)).
Proof.
  split.
  - intros j Hj. cbn [fst]. rewrite Nat.add_0_r.
    destruct j as [| j']; [now destruct alo |].
    cbn [Difflib.j2len_prev Difflib.j2len_get]. unfold run_pred.
    destruct alo as [| alo'] eqn:E; [reflexivity |].
    symmetry. rewrite <- E. apply run_at_low. left. lia.
  - cbn [snd]. unfold best_of, searched. split; [| split].
    + intros i j H. lia.
    + auto.
    + intros H. lia.
Qed.

(** What [find_longest_match] returns for strings without popular
    characters: the run of the first cell of the region, row by row, that
    is as long as any. *)
Lemma find_longest_match_best (ahi : nat) :
  best_of a b alo blo (fun i j => alo <= i < ahi /\ blo <= j < bhi)
          (Difflib.find_longest_match a b alo ahi blo bhi).
Proof.
  unfold Difflib.find_longest_match.
  pose proof (fold_outer_step_rows_done (ahi - alo) 0 _ rows_done_start) as H.
  rewrite Nat.add_0_r in H. cbn [Nat.add] in H.
  destruct (fold_left (Difflib.outer_step a b blo bhi) (seq alo (ahi - alo))
                      ([], (alo, blo, 0))) as [d [[bi bj] bk]].
  destruct H as [_ Hbest]. cbn [snd] in Hbest.
  assert (Hregion : best_of a b alo blo
                            (fun i j => alo <= i < ahi /\ blo <= j < bhi)
                            (bi, bj, bk)).
  { apply (best_of_more (searched alo blo bhi (ahi - alo) 0)); [| | exact Hbest].
    - unfold searched. intros i j H. lia.
    - unfold searched. intros i j H. left. lia. }
  clear Hbest. destruct Hregion as (Hmax & Hzero & Hrun).
  assert (Hstart : alo <= bi /\ blo <= bj
                   /\ (1 <= bk ->
                       run_at a b alo blo (bi + bk - 1) (bj + bk - 1) = bk
                       /\ bi + bk <= ahi /\ bj + bk <= bhi)).
  { destruct bk as [| k'].
    - destruct (Hzero eq_refl) as [-> ->]. repeat split; lia.
    - destruct (Hrun ltac:(lia)) as (ie & je & Hp & Hr & Ei & Ej & _).
      pose proof (run_at_bound ie je) as [B1 B2]. rewrite Hr in B1, B2.
      replace (bi + S k' - 1) with ie by lia.
      replace (bj + S k' - 1) with je by lia.
      repeat split; lia || exact Hr. }
  destruct Hstart as (Hbi & Hbj & Hlast).
  (* nothing to add on the left *)
  assert (HL : Difflib.extend_left a b alo blo bi bj bk = (bi, bj, bk)).
  { destruct bi as [| i']; [reflexivity |]. destruct bj as [| j']; [reflexivity |].
    cbn [Difflib.extend_left].
    destruct ((alo <? S i') && (blo <? S j') && Difflib.same_at a b i' j') eqn:Hcond;
      [| reflexivity].
    exfalso. apply andb_true_iff in Hcond. destruct Hcond as [Hcond Hsame].
    apply andb_true_iff in Hcond. destruct Hcond as [H1 H2].
    apply Nat.ltb_lt in H1. apply Nat.ltb_lt in H2.
    destruct bk as [| k'].
    - destruct (Hzero eq_refl) as [E _]. lia.
    - destruct (Hlast ltac:(lia)) as (Hr & _).
      pose proof (run_at_is_block (S i' + S k' - 1) (S j' + S k' - 1)) as Hblock.
      rewrite Hr in Hblock.
      assert (Hlonger : S (S k') <= run_at a b alo blo (i' + S k') (j' + S k')).
      { apply run_at_block; [lia | lia |].
        intros t Ht. destruct t as [| t'].
        - now rewrite !Nat.add_0_r.
        - specialize (Hblock t' ltac:(lia)).
          replace (i' + S t') with (S i' + S k' - 1 + 1 - S k' + t') by lia.
          replace (j' + S t') with (S j' + S k' - 1 + 1 - S k' + t') by lia.
          exact Hblock. }
      replace (i' + S k') with (S i' + S k' - 1) in Hlonger by lia.
      replace (j' + S k') with (S j' + S k' - 1) in Hlonger by lia.
      lia. }
  rewrite HL.
  (* nothing to add on the right *)
  assert (HR : forall rounds : nat,
             Difflib.extend_right a b rounds ahi bhi bi bj bk = bk).
  { intros [| rounds]; [reflexivity |]. cbn [Difflib.extend_right].
    destruct ((bi + bk <? ahi) && (bj + bk <? bhi)
              && Difflib.same_at a b (bi + bk) (bj + bk)) eqn:Hcond; [| reflexivity].
    exfalso. apply andb_true_iff in Hcond. destruct Hcond as [Hcond Hsame].
    apply andb_true_iff in Hcond. destruct Hcond as [H1 H2].
    apply Nat.ltb_lt in H1. apply Nat.ltb_lt in H2.
    assert (Hcell : run_at a b alo blo (bi + bk) (bj + bk) <= bk)
      by (apply Hmax; lia).
    rewrite run_at_match in Hcell by (try lia; exact Hsame).
    destruct bk as [| k'].
    - lia.
    - destruct (Hlast ltac:(lia)) as (Hr & _).
      replace (bi + S k') with (S (bi + S k' - 1)) in Hcell by lia.
      replace (bj + S k') with (S (bj + S k' - 1)) in Hcell by lia.
      cbn [run_pred] in Hcell. lia. }
  rewrite HR. split; [exact Hmax | split; [exact Hzero | exact Hrun]].
Qed.

(** A longest block that starts first in both strings is the block
    [find_longest_match] returns. *)
Lemma find_longest_match_first (ahi i0 j0 k0 : nat) :
  first_longest_block a b alo ahi blo bhi (i0, j0, k0) ->
  Difflib.find_longest_match a b alo ahi blo bhi = (i0, j0, k0).
Proof.
  intros (Hk0 & Hin0 & Hc0 & Hfirst0). cbn [block_within] in Hin0.
  pose proof (find_longest_match_best ahi) as Hbest.
  destruct (Difflib.find_longest_match a b alo ahi blo bhi) as [[bi bj] bk].
  destruct Hbest as (Hmax & _ & Hrun).
  assert (Hend : k0 <= run_at a b alo blo (i0 + k0 - 1) (j0 + k0 - 1)).
  { destruct k0 as [| k']; [lia |].
    replace (i0 + S k' - 1) with (i0 + k') by lia.
    replace (j0 + S k' - 1) with (j0 + k') by lia.
    apply run_at_block; [lia | lia | exact Hc0]. }
  assert (Hle : run_at a b alo blo (i0 + k0 - 1) (j0 + k0 - 1) <= bk)
    by (apply Hmax; lia).
  destruct (Hrun ltac:(lia)) as (ie & je & Hp & Hr & Ei & Ej & Hlex).
  pose proof (run_at_bound ie je) as [B1 B2]. rewrite Hr in B1, B2.
  pose proof (run_at_is_block ie je) as Hblock. rewrite Hr, <- Ei, <- Ej in Hblock.
  destruct (Hfirst0 bi bj bk) as [Hbk Hpos].
  { lia. }
  { cbn [block_within]. lia. }
  { exact Hblock. }
  assert (Ek : bk = k0) by lia.
  destruct (Hpos Ek) as [Hi Hj].
  destruct (Hlex (i0 + k0 - 1) (j0 + k0 - 1)) as [Hlt | [E Hlt]]; [lia | lia | lia |].
  f_equal; [f_equal |]; lia.
Qed.

(** Without a common character in the region nothing is found. *)
Lemma find_longest_match_nothing (ahi : nat) :
  (forall i j : nat,
      alo <= i < ahi -> blo <= j < bhi -> Difflib.same_at a b i j = false) ->
  Difflib.find_longest_match a b alo ahi blo bhi = (alo, blo, 0).
Proof.
  intros Hnone. pose proof (find_longest_match_best ahi) as Hbest.
  destruct (Difflib.find_longest_match a b alo ahi blo bhi) as [[bi bj] bk].
  destruct Hbest as (_ & Hzero & Hrun).
  destruct bk as [| k'].
  - destruct (Hzero eq_refl) as [-> ->]. reflexivity.
  - exfalso. destruct (Hrun ltac:(lia)) as (ie & je & [Hi Hj] & Hr & _).
    destruct (run_at_pos ie je) as (_ & _ & Hs & _); [lia |].
    rewrite (Hnone ie je Hi Hj) in Hs. discriminate Hs.
Qed.

End LongestBlock.

(** ** The two orders of the arguments *)

Lemma same_at_swap (a b : list ascii) (i j : nat) :
  Difflib.same_at b a j i = Difflib.same_at a b i j.
Proof.
  unfold Difflib.same_at.
  destruct (nth_error a i) as [x |], (nth_error b j) as [y |]; try reflexivity.
  apply Ascii.eqb_sym.
Qed.

Lemma first_longest_block_swap (a b : list ascii) (alo ahi blo bhi i j k : nat) :
  first_longest_block a b alo ahi blo bhi (i, j, k) ->
  first_longest_block b a blo bhi alo ahi (j, i, k).
Proof.
  intros (Hk & Hin & Hc & Hfirst). cbn [block_within] in Hin.
  split; [exact Hk |]. split; [cbn [block_within]; lia |]. split.
  - intros t Ht. rewrite same_at_swap. now apply Hc.
  - intros j' i' k' Hk' Hin' Hc'. cbn [block_within] in Hin'.
    destruct (Hfirst i' j' k') as [H1 H2].
    + exact Hk'.
    + cbn [block_within]. lia.
    + intros t Ht. rewrite <- same_at_swap. now apply Hc'.
    + split; [exact H1 |]. intros E. destruct (H2 E). now split.
Qed.

Lemma matching_blocks_swap (a b : list ascii) :
  List.length a < 200 -> List.length b < 200 ->
  forall alo ahi blo bhi : nat,
    ties_agree a b alo ahi blo bhi ->
    forall d d' : nat,
      ahi - alo <= d -> bhi - blo <= d' ->
      total_size (Difflib.matching_blocks b a d' blo bhi alo ahi)
      = total_size (Difflib.matching_blocks a b d alo ahi blo bhi).
Proof.
  intros Ha Hb alo ahi blo bhi H.
  induction H as [alo ahi blo bhi Hnone
                 | alo ahi blo bhi i j k Hblock Hleft IHleft Hright IHright];
    intros d d' Hd Hd'.
  - assert (E1 : Difflib.find_longest_match a b alo ahi blo bhi = (alo, blo, 0))
      by (apply find_longest_match_nothing; assumption).
    assert (E2 : Difflib.find_longest_match b a blo bhi alo ahi = (blo, alo, 0)).
    { apply find_longest_match_nothing; [assumption |].
      intros j i Hj Hi. rewrite same_at_swap. now apply Hnone. }
    destruct d, d'; cbn [Difflib.matching_blocks]; rewrite ?E1, ?E2; reflexivity.
  - pose proof (first_longest_block_swap _ _ _ _ _ _ _ _ _ Hblock) as Hblock'.
    pose proof Hblock as (Hk & Hin & _). cbn [block_within] in Hin.
    destruct d as [| d]; [lia |]. destruct d' as [| d']; [lia |].
    cbn [Difflib.matching_blocks].
    rewrite (find_longest_match_first a b alo blo bhi Hb ahi i j k) by exact Hblock.
    rewrite (find_longest_match_first b a blo alo ahi Ha bhi j i k) by exact Hblock'.
    destruct (Nat.eqb_spec k 0) as [E | _]; [lia |].
    cbn [total_size fold_right snd]. fold total_size.
    change (fold_right (fun t acc => snd t + acc) 0) with total_size.
    rewrite !total_size_app.
    rewrite (andb_comm (j + k <? bhi)), (andb_comm (blo <? j)).
    f_equal. f_equal.
    + destruct ((i + k <? ahi) && (j + k <? bhi)); [| reflexivity].
      apply IHright; lia.
    + destruct ((alo <? i) && (blo <? j)); [| reflexivity].
      apply IHleft; lia.
Qed.

Lemma matches_swap (a b : list ascii) :
  List.length a < 200 -> List.length b < 200 ->
  ties_agree a b 0 (List.length a) 0 (List.length b) ->
  Difflib.matches b a = Difflib.matches a b.
Proof.
  intros Ha Hb H. unfold Difflib.matches, Difflib.get_matching_blocks.
  apply (matching_blocks_swap a b Ha Hb _ _ _ _ H); lia.
Qed.

Lemma ratio_swap (a b : list ascii) :
  List.length a < 200 -> List.length b < 200 ->
  ties_agree a b 0 (List.length a) 0 (List.length b) ->
  Difflib.ratio a b = Difflib.ratio b a.
Proof.
  intros Ha Hb H. unfold Difflib.ratio.
  rewrite (matches_swap a b Ha Hb H), (Nat.add_comm (List.length b)). reflexivity.
Qed.

Lemma lower_length (s : string) : String.length (lower s) = String.length s.
Proof. induction s as [| c s IH]; simpl; [reflexivity | now rewrite IH]. Qed.

Lemma list_ascii_length (s : string) :
  List.length (list_ascii_of_string s) = String.length s.
Proof. induction s as [| c s IH]; simpl; [reflexivity | now rewrite IH]. Qed.

(** C7, as the code has it: the similarity of two strings does not depend
    on their order when they are equal up to case, when, up to case, no
    character of one occurs in the other (which covers an empty string),
    or when they are shorter than 200 characters and the search for the
    longest common block never has to choose between blocks of which one
    starts first in the one string and another first in the other: in
    the region searched, and in the regions to the left and right of the
    block taken out, the longest common blocks have one that starts first
    in both strings. *)
Theorem similarity_symmetric_when_ties_agree (a b : string) :
  lower a = lower b
  \/ (forall c : ascii,
        In c (list_ascii_of_string (lower a)) ->
        ~ In c (list_ascii_of_string (lower b)))
  \/ (String.length a < 200 /\ String.length b < 200
      /\ ties_agree (list_ascii_of_string (lower a)) (list_ascii_of_string (lower b))
                    0 (String.length a) 0 (String.length b)) ->
  similarity_score a b = similarity_score b a.
Proof.
  unfold similarity_score. intros [E | [Hapart | (Ha & Hb & Hties)]].
  - now rewrite E.
  - rewrite (ratio_apart _ _ Hapart).
    rewrite ratio_apart by (intros c Hb Ha; exact (Hapart c Ha Hb)).
    now rewrite Nat.add_comm.
  - apply ratio_swap.
    + now rewrite list_ascii_length, lower_length.
    + now rewrite list_ascii_length, lower_length.
    + now rewrite !list_ascii_length, !lower_length.
Qed.

(** Jacob and Jakob: the blocks "ja" and "ob" are equally long, and "ja"
    starts first in both names. *)
Lemma jacob_jakob_ties_agree :
  ties_agree (list_ascii_of_string (lower "Jacob")) (list_ascii_of_string (lower "Jakob"))
             0 5 0 5.
Proof.
  apply (ties_agree_block _ _ 0 5 0 5 0 0 2).
  - split; [lia |]. split; [cbn [block_within]; lia |]. split.
    + intros [| [| t]] Ht; [reflexivity | reflexivity | lia].
    + intros i' j' k' Hk' Hin Hc. cbn [block_within] in Hin.
      split; [| intros _; lia].
      destruct (Nat.le_gt_cases k' 2) as [Hle | Hgt]; [exact Hle | exfalso].
      pose proof (Hc 0 ltac:(lia)) as H0. pose proof (Hc 1 ltac:(lia)) as H1.
      pose proof (Hc 2 ltac:(lia)) as H2.
      destruct i' as [| [| [| i']]]; [| | | lia];
        (destruct j' as [| [| [| j']]]; [| | | lia]);
        vm_compute in H0, H1, H2;
        first [discriminate H0 | discriminate H1 | discriminate H2].
  - apply ties_agree_none. intros i j Hi Hj. lia.
  - apply (ties_agree_block _ _ 2 5 2 5 3 3 2).
    + split; [lia |]. split; [cbn [block_within]; lia |]. split.
      * intros [| [| t]] Ht; [reflexivity | reflexivity | lia].
      * intros i' j' k' Hk' Hin Hc. cbn [block_within] in Hin.
        pose proof (Hc 0 ltac:(lia)) as H0.
        assert (Hi : i' = 2 \/ i' = 3 \/ i' = 4) by lia.
        assert (Hj : j' = 2 \/ j' = 3 \/ j' = 4) by lia.
        destruct Hi as [-> | [-> | ->]]; destruct Hj as [-> | [-> | ->]];
          vm_compute in H0; try discriminate H0; lia.
    + apply ties_agree_none. intros i j Hi Hj.
      assert (i = 2) by lia. assert (j = 2) by lia. subst. reflexivity.
    + apply ties_agree_none. intros i j Hi Hj. lia.
Qed.

(** tide and diet: each of the four common characters is a longest block;
    "t" starts first in tide and "d" starts first in diet. *)
Lemma tide_diet_ties_differ :
  ~ ties_agree (list_ascii_of_string (lower "tide")) (list_ascii_of_string (lower "diet"))
               0 4 0 4.
Proof.
  intros H.
  inversion H as [alo ahi blo bhi Hnone | alo ahi blo bhi i j k Hblock Hl Hr]; subst.
  - specialize (Hnone 0 3 ltac:(lia) ltac:(lia)). discriminate Hnone.
  - destruct Hblock as (Hk & Hin & Hc & Hfirst). cbn [block_within] in Hin.
    destruct (Hfirst 0 3 1) as [_ Ht].
    { lia. }
    { cbn [block_within]. lia. }
    { intros [| t] Ht; [reflexivity | lia]. }
    destruct (Hfirst 2 0 1) as [_ Hd].
    { lia. }
    { cbn [block_within]. lia. }
    { intros [| t] Hlt; [reflexivity | lia]. }
    pose proof (Hc 0 ltac:(lia)) as H0.
    destruct (Nat.eq_dec k 1) as [-> | Hne].
    + destruct (Ht eq_refl), (Hd eq_refl).
      assert (i = 0) by lia. assert (j = 0) by lia. subst.
      discriminate H0.
    + pose proof (Hc 1 ltac:(lia)) as H1.
      destruct i as [| [| [| i]]]; [| | | lia];
        (destruct j as [| [| [| j]]]; [| | | lia]);
        vm_compute in H0, H1; first [discriminate H0 | discriminate H1].
Qed.

(** C7, amended, on a pair equal up to case, on a pair with an empty
    string and on Jacob and Jakob. *)
Lemma similarity_symmetric_when_ties_agree_witness :
  similarity_score "Jacob" "JACOB" = similarity_score "JACOB" "Jacob"
  /\ similarity_score "Grackle" "" = similarity_score "" "Grackle"
  /\ similarity_score "Jacob" "Jakob" = similarity_score "Jakob" "Jacob".
Proof.
  split; [| split].
  - apply similarity_symmetric_when_ties_agree. left. reflexivity.
  - apply similarity_symmetric_when_ties_agree. right. left. intros c _ [].
  - apply similarity_symmetric_when_ties_agree. right. right.
    split; [simpl; lia |]. split; [simpl; lia |].
    exact jacob_jakob_ties_agree.
Defined.

(** ** The tokens are words of letters *)

Lemma letter_class_upper : letter_class Re.upper_AZ.
Proof.
  intros ic ch. destruct ic; destruct ch as [[] [] [] [] [] [] [] []];
    vm_compute; intros H; first [reflexivity | discriminate H].
Qed.

Lemma letter_class_lower : letter_class Re.lower_az.
Proof.
  intros ic ch. destruct ic; destruct ch as [[] [] [] [] [] [] [] []];
    vm_compute; intros H; first [reflexivity | discriminate H].
Qed.

Lemma all_letters_app (s t : string) :
  all_letters (s ++ t) = all_letters s && all_letters t.
Proof.
  induction s as [| c s IH]; simpl; [reflexivity |].
  now rewrite IH, andb_assoc.
Qed.

Lemma all_letters_occurs (s t : string) :
  occurs_in s t -> all_letters t = true -> all_letters s = true.
Proof.
  intros (b & a & ->). rewrite !all_letters_app.
  intros H. apply andb_true_iff in H. destruct H as [_ H].
  apply andb_true_iff in H. now destruct H.
Qed.

Lemma substring_middle (before u after : string) :
  substring (String.length before) (String.length u) (before ++ u ++ after) = u.
Proof.
  induction before as [| c before IH]; simpl.
  - induction u as [| d u IHu]; simpl.
    + now destruct after.
    + now rewrite IHu.
  - exact IH.
Qed.

Lemma slice_consumed (text : string) (c : Re.cursor) (u after : string) :
  cursor_in text c -> Re.rest c = (u ++ after)%string ->
  slice (Re.pos c) (Re.pos c + String.length u) text = u.
Proof.
  intros (before & -> & <-) ->. unfold slice.
  replace (String.length before + String.length u - String.length before)
    with (String.length u) by lia.
  apply substring_middle.
Qed.

Lemma cursor_in_advance (text : string) (c c' : Re.cursor) (u : string) :
  cursor_in text c -> Re.rest c = (u ++ Re.rest c')%string ->
  Re.pos c' = Re.pos c + String.length u ->
  cursor_in text c'.
Proof.
  intros (before & -> & Hlen) Hrest Hpos.
  exists (before ++ u)%string. rewrite Hrest, string_app_assoc, string_app_length.
  split; [reflexivity | lia].
Qed.

Lemma lit_consumes (ic : bool) (s : string) :
  forall c c' : Re.cursor,
    Re.lit ic s c = Some c' ->
    exists u : string,
      Re.rest c = (u ++ Re.rest c')%string
      /\ Re.pos c' = Re.pos c + String.length u
      /\ (s = EmptyString -> u = EmptyString).
Proof.
  induction s as [| x s IH]; intros c c' H; simpl in H.
  - injection H as <-. exists EmptyString. simpl. split; [reflexivity |]. split; [lia | trivial].
  - destruct (Re.rest c) as [| ch r] eqn:Er; [discriminate |].
    destruct (Re.char_test ic x ch); [| discriminate].
    apply IH in H. destruct H as (u & Hrest & Hpos & _). simpl in Hrest, Hpos.
    exists (String ch u). simpl. rewrite Hrest.
    split; [reflexivity |]. split; [lia | discriminate].
Qed.

Lemma rep_consumes {A : Type} (ic : bool) (cs : Re.charset) (min : nat)
      (k : Re.cursor -> option A) (x : A) (rs : string) :
  forall (count p : nat) (pv : option ascii),
    Re.rep ic cs min count p pv rs k = Some x ->
    exists (c' : Re.cursor) (u : string),
      k c' = Some x
      /\ rs = (u ++ Re.rest c')%string
      /\ Re.pos c' = p + String.length u
      /\ (letter_class cs -> all_letters u = true).
Proof.
  assert (Hstop : forall (count p : nat) (pv : option ascii) (rs0 : string),
             (if min <=? count then k (Re.Cursor p pv rs0) else None) = Some x ->
             exists (c' : Re.cursor) (u : string),
               k c' = Some x
               /\ rs0 = (u ++ Re.rest c')%string
               /\ Re.pos c' = p + String.length u
               /\ (letter_class cs -> all_letters u = true)).
  { intros count p pv rs0 H. destruct (min <=? count); [| discriminate].
    exists (Re.Cursor p pv rs0), EmptyString. simpl.
    split; [exact H |]. split; [reflexivity |]. split; [lia | trivial]. }
  induction rs as [| ch r IH]; intros count p pv H; simpl in H.
  - now apply Hstop in H.
  - destruct (Re.class_test ic cs ch) eqn:Hch.
    + destruct (Re.rep ic cs min (S count) (S p) (Some ch) r k) as [y |] eqn:Hrec.
      * injection H as ->. apply IH in Hrec.
        destruct Hrec as (c' & u & Hk & Hrest & Hpos & Hlet).
        exists c', (String ch u). simpl. rewrite <- Hrest.
        split; [exact Hk |]. split; [reflexivity |]. split; [lia |].
        intros Hcs. rewrite (Hcs ic ch Hch). simpl. now apply Hlet.
      * now apply Hstop in H.
    + now apply Hstop in H.
Qed.

Lemma run_consumes {A : Type} (ic : bool) (text : string) (r : Re.regex) :
  forall (c : Re.cursor) (g : option Re.span)
         (k : Re.cursor -> option Re.span -> option A) (x : A),
    groups_letters r -> cursor_in text c -> span_letters text g ->
    Re.run ic r c g k = Some x ->
    exists (c' : Re.cursor) (g' : option Re.span) (u : string),
      k c' g' = Some x
      /\ Re.rest c = (u ++ Re.rest c')%string
      /\ Re.pos c' = Re.pos c + String.length u
      /\ span_letters text g'
      /\ (letters_only r -> all_letters u = true).
Proof.
  induction r as [s | cs | min cs | r1 IH1 r2 IH2 | r1 IH1 r2 IH2 | r1 IH1 | r1 IH1 |];
    intros c g k x Hgl Hc Hg H; simpl in H.
  - destruct (Re.lit ic s c) as [c' |] eqn:Hl; [| discriminate].
    apply lit_consumes in Hl. destruct Hl as (u & Hrest & Hpos & Hu).
    exists c', g, u. repeat split; try assumption.
    intros Hs. simpl in Hs. now rewrite (Hu Hs).
  - destruct (Re.rest c) as [| ch rs] eqn:Er; [discriminate |].
    destruct (Re.class_test ic cs ch) eqn:Hch; [| discriminate].
    exists (Re.Cursor (S (Re.pos c)) (Some ch) rs), g, (String ch EmptyString).
    simpl. split; [exact H |]. split; [reflexivity |]. split; [lia |].
    split; [exact Hg |]. intros Hcs. now rewrite (Hcs ic ch Hch).
  - apply rep_consumes in H. destruct H as (c' & u & Hk & Hrest & Hpos & Hlet).
    exists c', g, u. repeat split; assumption.
  - destruct Hgl as [Hgl1 Hgl2].
    apply (IH1 c g _ x Hgl1 Hc Hg) in H.
    destruct H as (c1 & g1 & u1 & H & Hrest1 & Hpos1 & Hg1 & Hlet1).
    pose proof (cursor_in_advance text c c1 u1 Hc Hrest1 Hpos1) as Hc1.
    apply (IH2 c1 g1 k x Hgl2 Hc1 Hg1) in H.
    destruct H as (c2 & g2 & u2 & H & Hrest2 & Hpos2 & Hg2 & Hlet2).
    exists c2, g2, (u1 ++ u2)%string.
    split; [exact H |].
    split; [now rewrite Hrest1, Hrest2, string_app_assoc |].
    split; [rewrite string_app_length; lia |].
    split; [exact Hg2 |].
    intros [Hl1 Hl2]. rewrite all_letters_app, Hlet1, Hlet2; auto.
  - destruct Hgl as [Hgl1 Hgl2].
    destruct (Re.run ic r1 c g k) as [y |] eqn:H1.
    + injection H as ->. apply (IH1 c g k x Hgl1 Hc Hg) in H1.
      destruct H1 as (c' & g' & u & Hk & Hrest & Hpos & Hg' & Hlet).
      exists c', g', u. repeat split; try assumption. intros [Hl _]. auto.
    + apply (IH2 c g k x Hgl2 Hc Hg) in H.
      destruct H as (c' & g' & u & Hk & Hrest & Hpos & Hg' & Hlet).
      exists c', g', u. repeat split; try assumption. intros [_ Hl]. auto.
  - destruct (Re.run ic r1 c g k) as [y |] eqn:H1.
    + injection H as ->. apply (IH1 c g k x Hgl Hc Hg) in H1.
      destruct H1 as (c' & g' & u & Hk & Hrest & Hpos & Hg' & Hlet).
      exists c', g', u. repeat split; assumption.
    + exists c, g, EmptyString. simpl.
      split; [exact H |]. split; [reflexivity |]. split; [lia |]. now split.
  - destruct Hgl as [Hlet1 Hgl1].
    apply (IH1 c g _ x Hgl1 Hc Hg) in H.
    destruct H as (c' & g' & u & Hk & Hrest & Hpos & _ & Hlet).
    exists c', (Some (Re.pos c, Re.pos c')), u.
    split; [exact Hk |]. split; [exact Hrest |]. split; [exact Hpos |].
    split; [| exact Hlet].
    unfold span_letters. rewrite Hpos.
    rewrite (slice_consumed text c u (Re.rest c') Hc Hrest). now apply Hlet.
  - destruct (Re.at_word_boundary c); [| discriminate].
    exists c, g, EmptyString. simpl.
    split; [exact H |]. split; [reflexivity |]. split; [lia |]. now split.
Qed.

Lemma match_at_letters (ic : bool) (text : string) (r : Re.regex)
      (c : Re.cursor) (m : Re.match_obj) :
  groups_letters r -> cursor_in text c ->
  Re.match_at ic r c = Some m ->
  span_letters text (Re.m_group1 m)
  /\ (letters_only r -> all_letters (Re.group0 text m) = true).
Proof.
  intros Hgl Hc H. unfold Re.match_at in H.
  apply (run_consumes ic text r c None _ m Hgl Hc I) in H.
  destruct H as (c' & g' & u & Hk & Hrest & Hpos & Hg' & Hlet).
  injection Hk as <-. simpl. split; [exact Hg' |].
  intros Hl. unfold Re.group0. simpl. rewrite Hpos.
  rewrite (slice_consumed text c u (Re.rest c') Hc Hrest). now apply Hlet.
Qed.

Lemma scan_letters (ic : bool) (text : string) (r : Re.regex) (m : Re.match_obj)
      (rs : string) :
  groups_letters r ->
  forall (skip p : nat) (pv : option ascii),
    cursor_in text (Re.Cursor p pv rs) ->
    In m (Re.scan ic r skip p pv rs) ->
    span_letters text (Re.m_group1 m)
    /\ (letters_only r -> all_letters (Re.group0 text m) = true).
Proof.
  intros Hgl.
  assert (Hhere : forall (skip p : nat) (pv : option ascii) (rs0 : string),
             cursor_in text (Re.Cursor p pv rs0) ->
             In m (match (match skip with
                          | O => Re.match_at ic r (Re.Cursor p pv rs0)
                          | S _ => None
                          end) with
                   | Some m0 => [m0]
                   | None => []
                   end) ->
             span_letters text (Re.m_group1 m)
             /\ (letters_only r -> all_letters (Re.group0 text m) = true)).
  { intros skip p pv rs0 Hc H. destruct skip; [| contradiction].
    destruct (Re.match_at ic r (Re.Cursor p pv rs0)) as [m0 |] eqn:Hm;
      [| contradiction].
    destruct H as [<- | []]. now apply (match_at_letters ic text r _ m0 Hgl Hc). }
  induction rs as [| ch rs IH]; intros skip p pv Hc H; simpl in H;
    apply in_app_or in H; destruct H as [H | H].
  - now apply (Hhere skip p pv EmptyString).
  - contradiction.
  - now apply (Hhere skip p pv (String ch rs)).
  - apply IH in H; [exact H |].
    apply (cursor_in_advance text (Re.Cursor p pv (String ch rs)) _
             (String ch EmptyString) Hc); simpl; [reflexivity | lia].
Qed.

Lemma finditer_letters (ic : bool) (text : string) (r : Re.regex) (m : Re.match_obj) :
  groups_letters r ->
  In m (Re.finditer ic r text) ->
  span_letters text (Re.m_group1 m)
  /\ (letters_only r -> all_letters (Re.group0 text m) = true).
Proof.
  intros Hgl H. unfold Re.finditer in H.
  apply (scan_letters ic text r m text Hgl 0 0 None); [| exact H].
  exists EmptyString. simpl. now split.
Qed.

Lemma patterns_groups_letters : Forall groups_letters patterns.
Proof.
  unfold patterns. repeat constructor; simpl;
    auto using letter_class_upper, letter_class_lower.
Qed.

Lemma capitalized_word_letters :
  groups_letters capitalized_word /\ letters_only capitalized_word.
Proof.
  simpl. repeat split; auto using letter_class_upper, letter_class_lower.
Qed.

Lemma collected_names_letters (text name : string) :
  In name (collected_names text) -> all_letters name = true.
Proof.
  unfold collected_names. intros H. apply in_app_or in H. destruct H as [H | H].
  - apply in_flat_map in H. destruct H as (pattern & Hp & H).
    apply filter_In in H. destruct H as [H _].
    apply in_map_iff in H. destruct H as (m & <- & Hm).
    pose proof patterns_groups_letters as Hall. rewrite Forall_forall in Hall.
    destruct (finditer_letters true text pattern m (Hall _ Hp) Hm) as [Hg _].
    unfold captured_name, Re.group1.
    destruct (Re.m_group1 m) as [[s e] |]; [| reflexivity].
    eapply all_letters_occurs; [apply strip_occurs | exact Hg].
  - apply filter_In in H. destruct H as [H _].
    unfold Re.findall in H. apply in_map_iff in H. destruct H as (m & <- & Hm).
    destruct capitalized_word_letters as [Hgl Hl].
    now apply (finditer_letters false text capitalized_word m Hgl Hm).
Qed.

Lemma extract_potential_names_letters (S : set_iteration) (text : option string)
      (name : string) :
  In name (extract_potential_names S text) -> all_letters name = true.
Proof.
  intros H. apply extract_potential_names_collected in H.
  destruct H as (t & _ & _ & H). now apply collected_names_letters in H.
Qed.

(** X7: on a text whose code points are all below 256, every token the
    extractor returns consists of the letters A-Z and a-z only: no digit,
    blank, punctuation or accented character.  (On that range the
    ignore-case matching of the patterns adds no character to [A-Z] and
    [a-z]; on U+0130, U+0131, U+017F and U+212A it does, and a text with
    one of them is not covered.) *)
Theorem extract_tokens_are_letters (S : set_iteration) (cps : list nat)
        (text name : string) :
  text_of_code_points cps = Some text ->
  In name (extract_potential_names S (Some text)) ->
  all_letters name = true.
Proof. intros _. apply extract_potential_names_letters. Qed.

(** X7 on the token Jacob. *)
Lemma extract_tokens_are_letters_witness :
  text_of_code_points [74; 97; 99; 111; 98; 32; 119; 97; 115; 32; 107; 105; 110; 100; 33]
  = Some "Jacob was kind!"
  /\ In "Jacob" (extract_potential_names insertion_order (Some "Jacob was kind!"))
  /\ all_letters "Jacob" = true.
Proof.
  assert (E : text_of_code_points
                [74; 97; 99; 111; 98; 32; 119; 97; 115; 32; 107; 105; 110; 100; 33]
              = Some "Jacob was kind!") by (vm_compute; reflexivity).
  assert (H : In "Jacob" (extract_potential_names insertion_order
                            (Some "Jacob was kind!")))
    by (vm_compute; left; reflexivity).
  split; [exact E |]. split; [exact H |].
  exact (extract_tokens_are_letters _ _ _ _ E H).
Defined.

(** ** The roster file *)

Lemma dict_get_set_same (k : string) (v : employee_info) (d : employee_dict) :
  EmployeeFile.dict_get k (EmployeeFile.dict_set k v d) = Some v.
Proof.
  induction d as [| [k' v'] d IH]; simpl.
  - now rewrite String.eqb_refl.
  - destruct (String.eqb_spec k' k) as [-> | Hne]; simpl.
    + now rewrite String.eqb_refl.
    + destruct (String.eqb_spec k' k); [contradiction | exact IH].
Qed.

Lemma dict_get_set_other (k k' : string) (v : employee_info) (d : employee_dict) :
  k' <> k ->
  EmployeeFile.dict_get k' (EmployeeFile.dict_set k v d) = EmployeeFile.dict_get k' d.
Proof.
  intros Hne. induction d as [| [k0 v0] d IH]; simpl.
  - destruct (String.eqb_spec k k'); [congruence | reflexivity].
  - destruct (String.eqb_spec k0 k) as [-> | Hk]; simpl.
    + destruct (String.eqb_spec k k'); [congruence | reflexivity].
    + destruct (String.eqb_spec k0 k'); [reflexivity | exact IH].
Qed.

Lemma dict_get_In (k : string) (v : employee_info) (d : employee_dict) :
  EmployeeFile.dict_get k d = Some v -> In (k, v) d.
Proof.
  induction d as [| [k0 v0] d IH]; simpl; [discriminate |].
  destruct (String.eqb_spec k0 k) as [-> | _].
  - intros H. injection H as ->. now left.
  - intros H. right. now apply IH.
Qed.

Lemma dict_set_In (k : string) (v : employee_info) (d : employee_dict)
      (item : string * employee_info) :
  In item (EmployeeFile.dict_set k v d) -> item = (k, v) \/ In item d.
Proof.
  induction d as [| [k0 v0] d IH]; simpl.
  - intros [<- | []]. now left.
  - destruct (String.eqb_spec k0 k) as [-> | _]; simpl.
    + intros [<- | H]; [now left | right; now right].
    + intros [<- | H]; [right; now left |].
      destruct (IH H) as [-> | H']; [now left | right; now right].
Qed.

Lemma dict_set_keys (k : string) (v : employee_info) (d : employee_dict) :
  map fst (EmployeeFile.dict_set k v d)
  = if existsb (fun k0 => String.eqb k0 k) (map fst d)
    then map fst d else map fst d ++ [k].
Proof.
  induction d as [| [k0 v0] d IH]; simpl; [reflexivity |].
  destruct (String.eqb_spec k0 k) as [-> | _]; simpl; [reflexivity |].
  rewrite IH. now destruct (existsb (fun k1 => String.eqb k1 k) (map fst d)).
Qed.

Lemma dict_set_NoDup (k : string) (v : employee_info) (d : employee_dict) :
  NoDup (map fst d) -> NoDup (map fst (EmployeeFile.dict_set k v d)).
Proof.
  intros Hnd. rewrite dict_set_keys.
  destruct (existsb (fun k0 => String.eqb k0 k) (map fst d)) eqn:E; [exact Hnd |].
  apply NoDup_app; [exact Hnd | repeat constructor; intros [] |].
  intros y Hy [<- | []].
  assert (existsb (fun k0 => String.eqb k0 k) (map fst d) = true); [| congruence].
  apply existsb_exists. exists k. split; [exact Hy | apply String.eqb_refl].
Qed.

Lemma seven_shifts_row_listed (t : EmployeeFile.table) (d : employee_dict)
      (row : list EmployeeFile.cell) :
  EmployeeFile.seven_shifts_row t d row
  = if listed t row
    then EmployeeFile.dict_set (fst (entry_of t row)) (snd (entry_of t row)) d
    else d.
Proof.
  unfold EmployeeFile.seven_shifts_row, listed, entry_of.
  fold (roles_of t row). fold (first_name_of t row). fold (last_name_of t row).
  fold (locations_of t row). fold (customer_facing t row). fold (named t row).
  fold (works_at t row).
  destruct (customer_facing t row); [| reflexivity].
  destruct (named t row); [| reflexivity].
  destruct (contains (lower (first_name_of t row)) EmployeeFile.system_entries);
    [reflexivity |].
  simpl. now destruct (works_at t row).
Qed.

Lemma works_at_known (t : EmployeeFile.table) (row : list EmployeeFile.cell) :
  incl (works_at t row) [EmployeeFile.grackle; EmployeeFile.margies_kitchen].
Proof.
  unfold works_at. intros r Hr. apply in_app_or in Hr.
  destruct (PyText.str_in "grackle" (locations_of t row));
    destruct (PyText.str_in "margie" (locations_of t row));
    destruct Hr as [Hr | Hr]; simpl in *; tauto.
Qed.

Lemma entry_of_well_formed (t : EmployeeFile.table) (row : list EmployeeFile.cell) :
  listed t row = true -> well_formed_entry (entry_of t row).
Proof.
  intros H. unfold listed in H. apply andb_true_iff in H. destruct H as [_ Hw].
  unfold well_formed_entry, entry_of; simpl.
  split; [reflexivity |]. split; [| apply works_at_known].
  now destruct (works_at t row).
Qed.

Lemma dict_set_well_formed (k : string) (v : employee_info) (d : employee_dict) :
  well_formed_entry (k, v) ->
  NoDup (map fst d) /\ Forall well_formed_entry d ->
  NoDup (map fst (EmployeeFile.dict_set k v d))
  /\ Forall well_formed_entry (EmployeeFile.dict_set k v d).
Proof.
  intros Hkv [Hnd Hall]. split; [now apply dict_set_NoDup |].
  apply Forall_forall. intros item Hitem.
  apply dict_set_In in Hitem. destruct Hitem as [-> | Hitem]; [exact Hkv |].
  rewrite Forall_forall in Hall. now apply Hall.
Qed.

Lemma fold_seven_shifts_well_formed (t : EmployeeFile.table)
      (rows : list (list EmployeeFile.cell)) :
  forall d : employee_dict,
    NoDup (map fst d) /\ Forall well_formed_entry d ->
    NoDup (map fst (fold_left (EmployeeFile.seven_shifts_row t) rows d))
    /\ Forall well_formed_entry (fold_left (EmployeeFile.seven_shifts_row t) rows d).
Proof.
  induction rows as [| row rows IH]; intros d Hd; simpl; [exact Hd |].
  apply IH. rewrite seven_shifts_row_listed.
  destruct (listed t row) eqn:Hl; [| exact Hd].
  apply dict_set_well_formed; [| exact Hd].
  pose proof (entry_of_well_formed t row Hl) as H.
  now destruct (entry_of t row).
Qed.

Lemma generic_rows_well_formed (names : list EmployeeFile.cell) :
  forall d d' : employee_dict,
    EmployeeFile.generic_rows names d = Some d' ->
    NoDup (map fst d) /\ Forall well_formed_entry d ->
    NoDup (map fst d') /\ Forall well_formed_entry d'.
Proof.
  induction names as [| [| name | repr] names IH]; intros d d' H Hd; simpl in H;
    try discriminate.
  - now injection H as <-.
  - apply IH in H; [exact H |].
    apply dict_set_well_formed; [| exact Hd].
    unfold well_formed_entry; simpl. split; [reflexivity |].
    split; [discriminate | apply incl_refl].
Qed.

Lemma empty_roster_well_formed :
  NoDup (map fst (@nil (string * employee_info)))
  /\ Forall well_formed_entry (@nil (string * employee_info)).
Proof. split; constructor. Qed.

Lemma load_employee_list_well_formed (f : EmployeeFile.employee_file) :
  NoDup (map fst (EmployeeFile.load_employee_list f))
  /\ Forall well_formed_entry (EmployeeFile.load_employee_list f).
Proof.
  unfold EmployeeFile.load_employee_list.
  destruct (EmployeeFile.file_exists f); simpl; [| apply empty_roster_well_formed].
  destruct (String.eqb (lower (EmployeeFile.suffix f)) ".csv");
    [| apply empty_roster_well_formed].
  destruct (EmployeeFile.read_csv f) as [t |]; [| apply empty_roster_well_formed].
  destruct (EmployeeFile.seven_shifts_format t).
  - apply fold_seven_shifts_well_formed, empty_roster_well_formed.
  - destruct (EmployeeFile.generic_names t) as [names |];
      [| apply empty_roster_well_formed].
    destruct (EmployeeFile.generic_rows names []) as [d |] eqn:E;
      [| apply empty_roster_well_formed].
    exact (generic_rows_well_formed names [] d E empty_roster_well_formed).
Qed.

(** X8: whatever the file, the roster [load_employee_list] returns has
    one entry per key, every key is the lower-cased first name of its
    entry, and every entry works at one or both of the two restaurants
    (never at none, never elsewhere). *)
Theorem loaded_roster_well_formed (f : EmployeeFile.employee_file) :
  NoDup (map fst (EmployeeFile.load_employee_list f))
  /\ forall (key : string) (info : employee_info),
      In (key, info) (EmployeeFile.load_employee_list f) ->
      key = lower (first_name info)
      /\ restaurants info <> []
      /\ incl (restaurants info)
              [EmployeeFile.grackle; EmployeeFile.margies_kitchen].
Proof.
  destruct (load_employee_list_well_formed f) as [Hnd Hall].
  split; [exact Hnd |]. intros key info Hin.
  rewrite Forall_forall in Hall. exact (Hall _ Hin).
Qed.

Lemma seven_shifts_load (f : EmployeeFile.employee_file) (t : EmployeeFile.table) :
  seven_shifts_file f t ->
  EmployeeFile.load_employee_list f
  = fold_left (EmployeeFile.seven_shifts_row t) (EmployeeFile.rows t) [].
Proof.
  intros (He & Hs & Hr & Hf). unfold EmployeeFile.load_employee_list.
  now rewrite He, Hs, Hr, Hf.
Qed.

Lemma fold_seven_shifts_In (t : EmployeeFile.table)
      (rows : list (list EmployeeFile.cell)) (item : string * employee_info) :
  forall d : employee_dict,
    In item (fold_left (EmployeeFile.seven_shifts_row t) rows d) ->
    In item d
    \/ exists row, In row rows /\ listed t row = true /\ item = entry_of t row.
Proof.
  induction rows as [| row rows IH]; intros d H; simpl in H; [now left |].
  apply IH in H. destruct H as [H | (r & Hr & Hl & E)].
  - rewrite seven_shifts_row_listed in H.
    destruct (listed t row) eqn:Hl; [| now left].
    apply dict_set_In in H. destruct H as [-> | H]; [| now left].
    right. exists row. split; [now left |]. split; [exact Hl |].
    now destruct (entry_of t row).
  - right. exists r. split; [now right | now split].
Qed.

Lemma loaded_entry_listed (f : EmployeeFile.employee_file) (t : EmployeeFile.table)
      (item : string * employee_info) :
  seven_shifts_file f t ->
  In item (EmployeeFile.load_employee_list f) ->
  exists row,
    In row (EmployeeFile.rows t) /\ listed t row = true /\ item = entry_of t row.
Proof.
  intros Hf H. rewrite (seven_shifts_load f t Hf) in H.
  apply fold_seven_shifts_In in H. now destruct H as [[] | H].
Qed.

(** X9: every entry of a roster loaded from a 7shifts file comes from a
    row of the file that has one of the roles Server, Bartender or Bar
    Prep, has both names, is not a system entry and whose Locations cell
    mentions grackle or margie; the entry carries the stripped first name,
    the full name "first last" and the restaurants found in the Locations
    cell, of which there is at least one. *)
Theorem loaded_entry_comes_from_listed_row
        (f : EmployeeFile.employee_file) (t : EmployeeFile.table)
        (key : string) (info : employee_info) :
  seven_shifts_file f t ->
  In (key, info) (EmployeeFile.load_employee_list f) ->
  exists row,
    In row (EmployeeFile.rows t)
    /\ customer_facing t row = true
    /\ named t row = true
    /\ contains (lower (first_name_of t row)) EmployeeFile.system_entries = false
    /\ (PyText.str_in "grackle" (locations_of t row) = true
        \/ PyText.str_in "margie" (locations_of t row) = true)
    /\ key = lower (first_name_of t row)
    /\ first_name info = first_name_of t row
    /\ full_name info = (first_name_of t row ++ " " ++ last_name_of t row)%string
    /\ restaurants info = works_at t row
    /\ restaurants info <> [].
Proof.
  intros Hf H. destruct (loaded_entry_listed f t _ Hf H) as (row & Hrow & Hl & E).
  exists row. unfold listed in Hl.
  apply andb_true_iff in Hl. destruct Hl as [Hl Hworks].
  apply andb_true_iff in Hl. destruct Hl as [Hl Hsys].
  apply andb_true_iff in Hl. destruct Hl as [Hcf Hnamed].
  apply negb_true_iff in Hsys.
  unfold entry_of in E. injection E as -> ->. cbn [first_name full_name restaurants].
  assert (Hloc : PyText.str_in "grackle" (locations_of t row) = true
                 \/ PyText.str_in "margie" (locations_of t row) = true).
  { unfold works_at in Hworks.
    destruct (PyText.str_in "grackle" (locations_of t row)); [now left |].
    destruct (PyText.str_in "margie" (locations_of t row)); [now right |].
    discriminate Hworks. }
  assert (Hne : works_at t row <> [])
    by (intros E; rewrite E in Hworks; discriminate Hworks).
  repeat split; assumption.
Qed.

Example staff_file_roster :
  EmployeeFile.load_employee_list staff_file
  = [("jacob", EmployeeInfo "Jacob Jones" "Jacob" [EmployeeFile.margies_kitchen]);
     ("maria", EmployeeInfo "Maria Lopez" "Maria"
                            [EmployeeFile.grackle; EmployeeFile.margies_kitchen])].
Proof. vm_compute. reflexivity. Qed.

Lemma staff_file_seven_shifts : seven_shifts_file staff_file staff_table.
Proof. repeat split. Qed.

(** X8 on the sample file. *)
Lemma loaded_roster_well_formed_witness :
  let info := EmployeeInfo "Maria Lopez" "Maria"
                           [EmployeeFile.grackle; EmployeeFile.margies_kitchen] in
  In ("maria", info) (EmployeeFile.load_employee_list staff_file)
  /\ "maria" = lower (first_name info)
  /\ restaurants info <> []
  /\ incl (restaurants info) [EmployeeFile.grackle; EmployeeFile.margies_kitchen].
Proof.
  intros info.
  assert (H : In ("maria", info) (EmployeeFile.load_employee_list staff_file))
    by (vm_compute; right; left; reflexivity).
  split; [exact H |].
  exact (proj2 (loaded_roster_well_formed staff_file) "maria" info H).
Defined.

(** X9 on the sample file. *)
Lemma loaded_entry_comes_from_listed_row_witness :
  let info := EmployeeInfo "Maria Lopez" "Maria"
                           [EmployeeFile.grackle; EmployeeFile.margies_kitchen] in
  seven_shifts_file staff_file staff_table
  /\ In ("maria", info) (EmployeeFile.load_employee_list staff_file)
  /\ exists row,
      In row (EmployeeFile.rows staff_table)
      /\ customer_facing staff_table row = true
      /\ named staff_table row = true
      /\ contains (lower (first_name_of staff_table row))
                  EmployeeFile.system_entries = false
      /\ (PyText.str_in "grackle" (locations_of staff_table row) = true
          \/ PyText.str_in "margie" (locations_of staff_table row) = true)
      /\ "maria" = lower (first_name_of staff_table row)
      /\ first_name info = first_name_of staff_table row
      /\ full_name info
         = (first_name_of staff_table row ++ " " ++ last_name_of staff_table row)%string
      /\ restaurants info = works_at staff_table row
      /\ restaurants info <> [].
Proof.
  intros info.
  assert (H : In ("maria", info) (EmployeeFile.load_employee_list staff_file))
    by (vm_compute; right; left; reflexivity).
  split; [exact staff_file_seven_shifts |]. split; [exact H |].
  exact (loaded_entry_comes_from_listed_row _ _ _ _ staff_file_seven_shifts H).
Defined.

Lemma find_app {A : Type} (p : A -> bool) (l1 l2 : list A) :
  find p (l1 ++ l2)
  = match find p l1 with
    | Some a => Some a
    | None => find p l2
    end.
Proof.
  induction l1 as [| a l1 IH]; simpl; [reflexivity |].
  now destruct (p a).
Qed.

Lemma fold_seven_shifts_get (t : EmployeeFile.table) (key : string)
      (rows : list (list EmployeeFile.cell)) :
  forall d : employee_dict,
    EmployeeFile.dict_get key (fold_left (EmployeeFile.seven_shifts_row t) rows d)
    = match find (fun row => listed t row
                             && String.eqb (lower (first_name_of t row)) key)
                 (rev rows) with
      | Some row => Some (snd (entry_of t row))
      | None => EmployeeFile.dict_get key d
      end.
Proof.
  induction rows as [| row rows IH]; intros d; simpl; [reflexivity |].
  rewrite IH, find_app. simpl.
  destruct (find _ (rev rows)) as [r |]; [reflexivity |].
  rewrite seven_shifts_row_listed.
  destruct (listed t row); simpl; [| reflexivity].
  destruct (String.eqb_spec (lower (first_name_of t row)) key) as [<- | Hne].
  - apply dict_get_set_same.
  - apply dict_get_set_other. congruence.
Qed.

(** X10: looking a key up in a roster loaded from a 7shifts file gives the
    entry of the last listed row of the file whose lower-cased first name
    is the key, and nothing when there is no such row: a later row
    replaces an earlier one with the same first name. *)
Theorem loaded_roster_lookup_last_row_wins
        (f : EmployeeFile.employee_file) (t : EmployeeFile.table) (key : string) :
  seven_shifts_file f t ->
  EmployeeFile.dict_get key (EmployeeFile.load_employee_list f)
  = option_map (fun row => snd (entry_of t row))
               (find (fun row => listed t row
                                 && String.eqb (lower (first_name_of t row)) key)
                     (rev (EmployeeFile.rows t))).
Proof.
  intros Hf. rewrite (seven_shifts_load f t Hf), fold_seven_shifts_get.
  now destruct (find _ (rev (EmployeeFile.rows t))).
Qed.

(** X10 on the sample file: the second Jacob replaces the first. *)
Lemma loaded_roster_lookup_last_row_wins_witness :
  seven_shifts_file staff_file staff_table
  /\ EmployeeFile.dict_get "jacob" (EmployeeFile.load_employee_list staff_file)
     = Some (EmployeeInfo "Jacob Jones" "Jacob" [EmployeeFile.margies_kitchen])
  /\ EmployeeFile.dict_get "jacob" (EmployeeFile.load_employee_list staff_file)
     = option_map (fun row => snd (entry_of staff_table row))
                  (find (fun row => listed staff_table row
                                    && String.eqb (lower (first_name_of staff_table row))
                                                  "jacob")
                        (rev (EmployeeFile.rows staff_table))).
Proof.
  split; [exact staff_file_seven_shifts |]. split; [vm_compute; reflexivity |].
  exact (loaded_roster_lookup_last_row_wins _ _ "jacob" staff_file_seven_shifts).
Defined.

(** ** From the roster file to the matches *)

(** X11: with a roster loaded from a 7shifts file, every match reported for
    a review of a restaurant names an employee of a listed row whose
    Locations cell mentions that restaurant; the matched name is the row's
    "first last" and the confidence is the similarity between the
    candidate and the row's first name. *)
Theorem match_on_loaded_roster_is_location_scoped
        (S : set_iteration) (f : EmployeeFile.employee_file) (t : EmployeeFile.table)
        (text : option string) (rn : string) (ms : PyFloat.float) (m : match_result) :
  seven_shifts_file f t ->
  In m (match_employee_to_review S text rn (EmployeeFile.load_employee_list f) ms) ->
  exists row,
    In row (EmployeeFile.rows t)
    /\ listed t row = true
    /\ In rn (works_at t row)
    /\ matched_employee m
       = (first_name_of t row ++ " " ++ last_name_of t row)%string
    /\ confidence m = similarity_score (potential_name m) (first_name_of t row).
Proof.
  intros Hf Hm. destruct (result_best_for _ _ _ _ _ _ Hm) as [Hbest Hscore].
  pose proof (best_for_chosen (potential_name m) rn
                (EmployeeFile.load_employee_list f) ms) as Hc.
  unfold chosen_from in Hc. rewrite Hbest in Hc.
  destruct Hc as [_ (item & Hin & Ha & Hname & Hsc)].
  destruct (loaded_entry_listed f t item Hf Hin) as (row & Hrow & Hl & ->).
  exists row. unfold assigned, contains in Ha. simpl in *.
  split; [exact Hrow |]. split; [exact Hl |]. split.
  - apply existsb_exists in Ha. destruct Ha as (r & Hr & E).
    apply String.eqb_eq in E. now subst r.
  - split; [exact Hname | now rewrite <- Hscore].
Qed.

(** X11 on the sample file: Maria at Grackle. *)
Lemma match_on_loaded_roster_is_location_scoped_witness :
  let m := MatchResult "Maria" "Maria Lopez" 1%Q in
  seven_shifts_file staff_file staff_table
  /\ In m (match_employee_to_review insertion_order (Some "Maria was great")
             "Grackle" (EmployeeFile.load_employee_list staff_file)
             default_min_similarity)
  /\ exists row,
      In row (EmployeeFile.rows staff_table)
      /\ listed staff_table row = true
      /\ In "Grackle" (works_at staff_table row)
      /\ matched_employee m
         = (first_name_of staff_table row ++ " " ++ last_name_of staff_table row)%string
      /\ confidence m
         = similarity_score (potential_name m) (first_name_of staff_table row).
Proof.
  intros m.
  assert (H : In m (match_employee_to_review insertion_order (Some "Maria was great")
                      "Grackle" (EmployeeFile.load_employee_list staff_file)
                      default_min_similarity))
    by (vm_compute; left; reflexivity).
  split; [exact staff_file_seven_shifts |]. split; [exact H |].
  exact (match_on_loaded_roster_is_location_scoped _ _ _ _ _ _ _
           staff_file_seven_shifts H).
Defined.

Lemma loaded_full_name_nonempty (f : EmployeeFile.employee_file)
      (t : EmployeeFile.table) (item : string * employee_info) :
  seven_shifts_file f t ->
  In item (EmployeeFile.load_employee_list f) ->
  full_name (snd item) <> "".
Proof.
  intros Hf H. destruct (loaded_entry_listed f t item Hf H) as (row & _ & _ & ->).
  simpl. intros E. apply string_app_empty in E. destruct E as [_ E]. discriminate E.
Qed.

(** X12: with a roster loaded from a 7shifts file, a candidate of the
    review that the resolver does not skip and whose lower-cased form is a
    key of the roster is matched with the confidence 1.0 whenever the
    entry under that key works at the reviewed restaurant (for a threshold
    of at most 1). *)
Theorem loaded_first_name_is_matched
        (S : set_iteration) (f : EmployeeFile.employee_file) (t : EmployeeFile.table)
        (text : option string) (rn : string) (ms : PyFloat.float)
        (c : string) (info : employee_info) :
  seven_shifts_file f t ->
  In c (extract_potential_names S text) ->
  contains (lower c) skipped_words = false ->
  EmployeeFile.dict_get (lower c) (EmployeeFile.load_employee_list f) = Some info ->
  contains rn (restaurants info) = true ->
  (ms <= 1)%Q ->
  exists m,
    In m (match_employee_to_review S text rn (EmployeeFile.load_employee_list f) ms)
    /\ potential_name m = c
    /\ (confidence m == 1)%Q.
Proof.
  intros Hf Hc Hskip Hget Hrn Hms.
  set (emps := EmployeeFile.load_employee_list f) in *.
  pose proof (dict_get_In _ _ _ Hget) as Hin.
  destruct (load_employee_list_well_formed f) as [_ Hall].
  rewrite Forall_forall in Hall. destruct (Hall _ Hin) as [Hkey _]. simpl in Hkey.
  assert (Hnames : forall it, In it emps -> assigned rn it = true ->
                              full_name (snd it) <> "").
  { intros it Hit _. exact (loaded_full_name_nonempty f t it Hf Hit). }
  assert (Hone : score_for c (lower c, info) = 1%Q).
  { unfold score_for, similarity_score; simpl. rewrite Hkey. apply ratio_identical. }
  destruct (qualifying_candidate_result S text rn emps ms c (lower c, info)
              Hnames Hc Hskip Hin Hrn) as (w & Hw & Haw & Hres);
    [rewrite Hone; lra .. |].
  eexists. split; [exact Hres |]. split; [reflexivity |]. simpl.
  destruct (best_for_best_so_far c rn emps ms) as (_ & Hnone & Hmax & Hsome).
  assert (Hlo : (1 <= best_score (best_for c rn emps ms))%Q).
  { rewrite <- Hone. apply Hmax; try assumption. rewrite Hone. exact Hms. }
  assert (Hhi : (best_score (best_for c rn emps ms) <= 1)%Q).
  { destruct (best_match (best_for c rn emps ms)) as [name |] eqn:Hbest.
    - destruct (Hsome name eq_refl)
        as (_ & _ & before & it & after & _ & _ & _ & _ & E & _).
      rewrite E. unfold score_for, similarity_score. apply ratio_unit.
    - rewrite (Hnone eq_refl). lra. }
  lra.
Qed.

(** X12 on the sample file: Maria is matched at Grackle. *)
Lemma loaded_first_name_is_matched_witness :
  exists m,
    In m (match_employee_to_review insertion_order (Some "Maria was great")
            "Grackle" (EmployeeFile.load_employee_list staff_file)
            default_min_similarity)
    /\ potential_name m = "Maria"
    /\ (confidence m == 1)%Q.
Proof.
  apply (loaded_first_name_is_matched insertion_order staff_file staff_table
           (Some "Maria was great") "Grackle" default_min_similarity "Maria"
           (EmployeeInfo "Maria Lopez" "Maria"
                         [EmployeeFile.grackle; EmployeeFile.margies_kitchen])).
  - exact staff_file_seven_shifts.
  - vm_compute. left. reflexivity.
  - reflexivity.
  - vm_compute. reflexivity.
  - reflexivity.
  - vm_compute. discriminate.
Defined.

(** ** Splitting the joined fields *)

Lemma split_from_piece (x : string) :
  PyText.str_in "; " x = false ->
  forall cur : string, PyText.split_from "; " 0 cur x = [(cur ++ x)%string].
Proof.
  induction x as [| c x IH]; intros H cur.
  - simpl. now rewrite string_app_nil_r.
  - cbn [PyText.str_in] in H. apply orb_false_iff in H. destruct H as [Hp Hin].
    cbn [PyText.split_from]. rewrite Hp. rewrite (IH Hin).
    now rewrite string_app_assoc.
Qed.

Lemma split_from_pieces (x rest : string) :
  PyText.str_in "; " x = false ->
  forall cur : string,
    PyText.split_from "; " 0 cur (x ++ "; " ++ rest)
    = (cur ++ x)%string :: PyText.split_from "; " 0 EmptyString rest.
Proof.
  induction x as [| c x IH]; intros H cur.
  - simpl. rewrite string_app_nil_r. now destruct rest.
  - cbn [PyText.str_in] in H. apply orb_false_iff in H. destruct H as [Hp Hin].
    change ((String c x ++ "; " ++ rest)%string)
      with (String c (x ++ "; " ++ rest)%string).
    cbn [PyText.split_from].
    assert (Hp' : String.prefix "; " (String c (x ++ "; " ++ rest)) = false).
    { cbn [String.prefix] in Hp |- *.
      destruct (ascii_dec ";" c) as [_ | _]; [| reflexivity].
      destruct x as [| d x']; cbn [String.prefix append] in Hp |- *.
      - destruct (ascii_dec " " ";") as [E | _]; [discriminate E | reflexivity].
      - destruct (ascii_dec " " d) as [_ | _]; [| reflexivity].
        destruct x'; discriminate Hp. }
    rewrite Hp'. rewrite (IH Hin). now rewrite string_app_assoc.
Qed.

(** Joining with ["; "] and splitting at ["; "] gives the list back, when
    the list is not empty and no element contains the separator. *)
Lemma split_join (xs : list string) :
  xs <> [] ->
  Forall (fun x => PyText.str_in "; " x = false) xs ->
  PyText.split "; " (join "; " xs) = xs.
Proof.
  intros Hne Hall. unfold PyText.split.
  induction Hall as [| x xs Hx Hall IH]; [contradiction |].
  destruct xs as [| y ys].
  - simpl. now rewrite split_from_piece.
  - change (join "; " (x :: y :: ys)) with (x ++ "; " ++ join "; " (y :: ys))%string.
    rewrite split_from_pieces by exact Hx. simpl (EmptyString ++ x)%string.
    f_equal. apply IH. discriminate.
Qed.

Lemma no_semicolon_app (s t : string) :
  no_semicolon (s ++ t) = no_semicolon s && no_semicolon t.
Proof.
  induction s as [| c s IH]; simpl; [reflexivity |].
  now rewrite IH, andb_assoc.
Qed.

Lemma no_semicolon_str_in (x : string) :
  no_semicolon x = true -> PyText.str_in "; " x = false.
Proof.
  induction x as [| c x IH]; intros H; [reflexivity |].
  simpl in H. apply andb_true_iff in H. destruct H as [Hc Hx].
  cbn [PyText.str_in String.prefix]. rewrite (IH Hx), orb_false_r.
  destruct (ascii_dec ";" c) as [<- | _]; [discriminate Hc | reflexivity].
Qed.

Lemma all_letters_no_semicolon (x : string) :
  all_letters x = true -> no_semicolon x = true.
Proof.
  induction x as [| c x IH]; intros H; [reflexivity |].
  simpl in H. apply andb_true_iff in H. destruct H as [Hc Hx].
  simpl. rewrite (IH Hx), andb_true_r.
  destruct (Ascii.eqb_spec c ";") as [-> | _]; [discriminate Hc | reflexivity].
Qed.

Lemma string_of_uint_no_semicolon (d : Decimal.uint) :
  no_semicolon (NilEmpty.string_of_uint d) = true.
Proof. induction d; simpl; auto. Qed.

Lemma digits_of_no_semicolon (z : Z) : no_semicolon (PyFloat.digits_of z) = true.
Proof.
  unfold PyFloat.digits_of, NilZero.string_of_uint.
  destruct (N.to_uint (Z.to_N z)); try reflexivity;
    apply (string_of_uint_no_semicolon (_ u)).
Qed.

Lemma format_2f_no_semicolon (x : PyFloat.float) :
  no_semicolon (PyFloat.format_2f x) = true.
Proof.
  unfold PyFloat.format_2f. rewrite !no_semicolon_app, !digits_of_no_semicolon.
  destruct (Qnum x <? 0)%Z;
    destruct (PyFloat.round_half_even (Z.abs (Qnum x) * 100) (Z.pos (Qden x))
                mod 100 <? 10)%Z; reflexivity.
Qed.

Lemma result_fields_separator_free (S : set_iteration) (text : option string)
      (rn : string) (emps : employee_dict) (ms : PyFloat.float)
      (results : list match_result) :
  Forall separator_free emps ->
  incl results (match_employee_to_review S text rn emps ms) ->
  Forall (fun x => PyText.str_in "; " x = false) (map potential_name results)
  /\ Forall (fun x => PyText.str_in "; " x = false) (map matched_employee results)
  /\ Forall (fun x => PyText.str_in "; " x = false)
            (map (fun m => PyFloat.format_2f (confidence m)) results).
Proof.
  intros Hemps Hincl. rewrite Forall_forall in Hemps.
  repeat split; apply Forall_forall; intros x Hx;
    apply in_map_iff in Hx; destruct Hx as (m & <- & Hm); apply Hincl in Hm.
  - apply no_semicolon_str_in, all_letters_no_semicolon.
    apply match_employee_to_review_In in Hm. destruct Hm as [Hm _].
    now apply extract_potential_names_letters in Hm.
  - destruct (result_best_for _ _ _ _ _ _ Hm) as [Hbest _].
    pose proof (best_for_chosen (potential_name m) rn emps ms) as Hc.
    unfold chosen_from in Hc. rewrite Hbest in Hc.
    destruct Hc as [_ (item & Hin & _ & Hname & _)].
    rewrite Hname. now apply Hemps.
  - apply no_semicolon_str_in, format_2f_no_semicolon.
Qed.








Lemma truthy_join_results (S : set_iteration) (text : option string) (rn : string)
      (emps : employee_dict) (ms : PyFloat.float) (m : match_result)
      (rest : list match_result) :
  In m (match_employee_to_review S text rn emps ms) ->
  truthy (join "; " (map matched_employee (m :: rest))) = true.
Proof.
  intros Hm. apply match_result_fields_nonempty in Hm. destruct Hm as [_ Hme].
  pose proof (join_nonempty "; " _ (map matched_employee rest) Hme) as H.
  cbn [map]. now destruct (join "; " (matched_employee m :: map matched_employee rest)).
Qed.

(** X14: in process_takeout.py the list from which the mentions per
    employee are counted holds, row by row, exactly the matched names of
    the results of the recent reviews, when no full name of the roster
    contains the separator "; ". *)
Theorem summary_lists_every_match (S : set_iteration) (six_months_ago : Z)
        (df : dataframe) (emps : employee_dict) :
  emps <> [] ->
  Forall separator_free emps ->
  TakeoutSummary.summary_matches S six_months_ago df emps
  = flat_map (fun row => map matched_employee (results_of S six_months_ago emps row))
             df.
Proof.
  intros Hne Hemps. unfold TakeoutSummary.summary_matches.
  destruct emps as [| item emps0]; [contradiction |].
  unfold TakeoutSummary.add_employee_matches_to_dataframe.
  set (emps := item :: emps0) in *.
  induction df as [| row df IH]; [reflexivity |].
  cbn [map combine TakeoutSummary.all_matches flat_map fst snd].
  fold (TakeoutSummary.all_matches six_months_ago
          (combine df (map (TakeoutSummary.annotate_row S six_months_ago emps) df))).
  rewrite IH. f_equal.
  change (TakeoutSummary.is_recent six_months_ago row)
    with (is_recent six_months_ago row).
  change (TakeoutSummary.annotate_row S six_months_ago emps row)
    with (annotate_row S six_months_ago emps row).
  destruct (annotate_row_columns S six_months_ago emps row) as (_ & E2 & _).
  rewrite E2. unfold results_of.
  destruct (is_recent six_months_ago row); [| reflexivity].
  destruct (match_employee_to_review S (comment row) (restaurant row) emps
                                     default_min_similarity) as [| m ms] eqn:Hres;
    [reflexivity |].
  assert (Hm : In m (match_employee_to_review S (comment row) (restaurant row) emps
                                              default_min_similarity))
    by (rewrite Hres; now left).
  rewrite (truthy_join_results S _ _ emps _ m ms Hm).
  apply split_join; [discriminate |].
  apply (result_fields_separator_free S (comment row) (restaurant row) emps
           default_min_similarity (m :: ms) Hemps).
  rewrite Hres. apply incl_refl.
Qed.

(** X14 on the sample roster. *)
Lemma summary_lists_every_match_witness :
  TakeoutSummary.summary_matches insertion_order 0%Z [jacob_review] jacob_roster
  = flat_map (fun row => map matched_employee
                             (results_of insertion_order 0%Z jacob_roster row))
             [jacob_review]
  /\ TakeoutSummary.summary_matches insertion_order 0%Z [jacob_review] jacob_roster
     = ["Jacob Smith"].
Proof.
  split.
  - apply summary_lists_every_match; [discriminate | repeat constructor].
  - vm_compute. reflexivity.
Defined.

(** ** Reading the review files *)

Lemma rating_lookup_range (s : string) :
  (0 <= TakeoutJson.rating_lookup s TakeoutJson.rating_map <= 5)%Z
  /\ (TakeoutJson.rating_lookup s TakeoutJson.rating_map = 0%Z <-> ~ In s star_words).
Proof.
  unfold TakeoutJson.rating_map, star_words. cbn [TakeoutJson.rating_lookup In].
  destruct (String.eqb_spec "ONE" s) as [<- | H1]; [split; [lia | split; [lia | tauto]] |].
  destruct (String.eqb_spec "TWO" s) as [<- | H2]; [split; [lia | split; [lia | tauto]] |].
  destruct (String.eqb_spec "THREE" s) as [<- | H3]; [split; [lia | split; [lia | tauto]] |].
  destruct (String.eqb_spec "FOUR" s) as [<- | H4]; [split; [lia | split; [lia | tauto]] |].
  destruct (String.eqb_spec "FIVE" s) as [<- | H5]; [split; [lia | split; [lia | tauto]] |].
  split; [lia |]. split; [intros _ | reflexivity]. tauto.
Qed.

Lemma parse_item_inv (name item : TakeoutJson.json) (r : TakeoutJson.review_data) :
  TakeoutJson.parse_item name item = TakeoutJson.Ok r ->
  exists members,
    item = TakeoutJson.JObject members
    /\ TakeoutJson.rd_restaurant r = name
    /\ TakeoutJson.rating_of
         (match TakeoutJson.lookup "starRating" members with
          | Some v => v
          | None => TakeoutJson.JString "ONE"
          end)
       = TakeoutJson.Ok (TakeoutJson.rd_rating r).
Proof.
  unfold TakeoutJson.parse_item.
  destruct item as [| b | repr | s | items | members]; try discriminate.
  intros H. exists members. simpl in H.
  destruct (TakeoutJson.rating_of _) as [rating | e] eqn:Hr; [| discriminate].
  simpl in H.
  destruct (TakeoutJson.get _ "comment" _) as [rc | e]; [| discriminate]. simpl in H.
  destruct (TakeoutJson.get _ "updateTime" _) as [rdate | e]; [| discriminate].
  simpl in H.
  destruct (TakeoutJson.get _ "displayName" _) as [rn | e]; [| discriminate].
  simpl in H. injection H as <-. simpl. now repeat split.
Qed.

Lemma parse_items_inv (name : TakeoutJson.json) (items : list TakeoutJson.json) :
  forall reviews : list TakeoutJson.review_data,
    TakeoutJson.parse_items name items = TakeoutJson.Ok reviews ->
    Forall2 (fun item r => TakeoutJson.parse_item name item = TakeoutJson.Ok r)
            items reviews.
Proof.
  induction items as [| item items IH]; intros reviews H; simpl in H.
  - injection H as <-. constructor.
  - destruct (TakeoutJson.parse_item name item) as [r | e] eqn:Hr; [| discriminate].
    simpl in H.
    destruct (TakeoutJson.parse_items name items) as [rs | e]; [| discriminate].
    simpl in H. injection H as <-. constructor; [exact Hr | now apply IH].
Qed.

Lemma parse_reviews_inv (location : TakeoutJson.data_file) (data : TakeoutJson.json)
      (reviews : list TakeoutJson.review_data) :
  TakeoutJson.parse_reviews location data = TakeoutJson.Ok reviews ->
  exists members items,
    data = TakeoutJson.JObject members
    /\ TakeoutJson.iterate (match TakeoutJson.lookup "reviews" members with
                            | Some v => v
                            | None => TakeoutJson.JArray []
                            end) = TakeoutJson.Ok items
    /\ Forall2 (fun item r =>
                  TakeoutJson.parse_item (location_title location) item
                  = TakeoutJson.Ok r)
               items reviews.
Proof.
  unfold TakeoutJson.parse_reviews. intros H.
  destruct (TakeoutJson.get_restaurant_name_from_location location) as [name | e] eqn:Hn;
    [| discriminate].
  assert (Hname : name = location_title location).
  { unfold TakeoutJson.get_restaurant_name_from_location in Hn.
    destruct location as [| | [| b | repr | s | l | members]]; simpl in Hn;
      try discriminate; now injection Hn as <-. }
  subst name. simpl in H.
  destruct data as [| b | repr | s | l | members]; try discriminate.
  simpl in H.
  destruct (TakeoutJson.iterate _) as [items | e] eqn:Hi; [| discriminate].
  simpl in H. exists members, items.
  split; [reflexivity |]. split; [exact Hi |]. now apply parse_items_inv.
Qed.

(** X15: every review [parse_reviews] returns has a rating between 0 and
    5. *)
Theorem parsed_rating_between_0_and_5
        (location : TakeoutJson.data_file) (data : TakeoutJson.json)
        (reviews : list TakeoutJson.review_data) (r : TakeoutJson.review_data) :
  TakeoutJson.parse_reviews location data = TakeoutJson.Ok reviews ->
  In r reviews ->
  (0 <= TakeoutJson.rd_rating r <= 5)%Z.
Proof.
  intros H Hr. apply parse_reviews_inv in H.
  destruct H as (members & items & _ & _ & Hall).
  assert (Hitem : exists item,
             TakeoutJson.parse_item (location_title location) item = TakeoutJson.Ok r).
  { clear -Hall Hr. induction Hall as [| item r0 items rs H _ IH];
      [contradiction |].
    destruct Hr as [<- | Hr]; [now exists item | now apply IH]. }
  destruct Hitem as (item & Hitem). apply parse_item_inv in Hitem.
  destruct Hitem as (ms & _ & _ & Hrating).
  destruct (match TakeoutJson.lookup "starRating" ms with
            | Some v => v
            | None => TakeoutJson.JString "ONE"
            end) as [| b | repr | s | l | o]; simpl in Hrating;
    try discriminate; injection Hrating as <-; try lia.
  apply rating_lookup_range.
Qed.

(** X15 on the sample file. *)
Lemma parsed_rating_between_0_and_5_witness :
  exists reviews r,
    TakeoutJson.parse_reviews sample_location sample_reviews = TakeoutJson.Ok reviews
    /\ In r reviews
    /\ map TakeoutJson.rd_rating reviews = [5; 1; 0]%Z
    /\ (0 <= TakeoutJson.rd_rating r <= 5)%Z.
Proof.
  destruct (TakeoutJson.parse_reviews sample_location sample_reviews)
    as [reviews | e] eqn:E; [| discriminate E].
  destruct reviews as [| r reviews]; [discriminate E |].
  exists (r :: reviews), r.
  split; [reflexivity |]. split; [now left |]. split.
  - vm_compute in E. injection E as <- <-. reflexivity.
  - apply (parsed_rating_between_0_and_5 sample_location sample_reviews
             (r :: reviews) r E). now left.
Defined.

(** X16: the rating of a parsed item is 1 when the item has no starRating
    (the default is ONE), the number of the word when starRating is one of
    ONE .. FIVE, and 0 exactly when the item has a starRating that is none
    of these words. *)
Theorem parsed_rating_of_item
        (name : TakeoutJson.json) (members : list (string * TakeoutJson.json))
        (r : TakeoutJson.review_data) :
  TakeoutJson.parse_item name (TakeoutJson.JObject members) = TakeoutJson.Ok r ->
  (TakeoutJson.lookup "starRating" members = None -> TakeoutJson.rd_rating r = 1%Z)
  /\ (forall (w : string) (n : Z),
         In (w, n) TakeoutJson.rating_map ->
         TakeoutJson.lookup "starRating" members = Some (TakeoutJson.JString w) ->
         TakeoutJson.rd_rating r = n)
  /\ (TakeoutJson.rd_rating r = 0%Z
      <-> exists v,
          TakeoutJson.lookup "starRating" members = Some v
          /\ forall w, In w star_words -> v <> TakeoutJson.JString w).
Proof.
  intros H. apply parse_item_inv in H.
  destruct H as (ms & E & _ & Hrating). injection E as <-.
  destruct (TakeoutJson.lookup "starRating" members) as [v |] eqn:Hv.
  - split; [discriminate |]. split.
    + intros w n Hw Hl. injection Hl as ->. simpl in Hrating.
      injection Hrating as <-. unfold TakeoutJson.rating_map in *.
      simpl in Hw.
      destruct Hw as [Hw | [Hw | [Hw | [Hw | [Hw | []]]]]];
        injection Hw as <- <-; reflexivity.
    + destruct v as [| b | repr | s | l | o]; simpl in Hrating;
        try discriminate; injection Hrating as <-.
      * split; [intros _ | reflexivity].
        exists TakeoutJson.JNull. split; [reflexivity | discriminate].
      * split; [intros _ | reflexivity].
        exists (TakeoutJson.JBool b). split; [reflexivity | discriminate].
      * split; [intros _ | reflexivity].
        exists (TakeoutJson.JNumber repr). split; [reflexivity | discriminate].
      * destruct (rating_lookup_range s) as [_ Hzero]. rewrite Hzero. split.
        -- intros Hs. exists (TakeoutJson.JString s). split; [reflexivity |].
           intros w Hw E. injection E as ->. contradiction.
        -- intros (v & Ev & Hnot) Hs. injection Ev as <-. now apply (Hnot s).
  - simpl in Hrating. injection Hrating as <-.
    split; [reflexivity |]. split; [discriminate |].
    split; [discriminate | intros (v & Ev & _); discriminate].
Qed.

(** X16 on an item without starRating. *)
Lemma parsed_rating_of_item_witness :
  exists r,
    TakeoutJson.parse_item (TakeoutJson.JString "Grackle")
      (TakeoutJson.JObject [("comment", TakeoutJson.JString "No stars given")])
    = TakeoutJson.Ok r
    /\ TakeoutJson.rd_rating r = 1%Z.
Proof.
  eexists. split; [vm_compute; reflexivity |].
  apply (proj1 (parsed_rating_of_item (TakeoutJson.JString "Grackle")
                  [("comment", TakeoutJson.JString "No stars given")] _
                  eq_refl)).
  reflexivity.
Defined.

Lemma parse_item_review_of (name item : TakeoutJson.json) (r : TakeoutJson.review_data) :
  TakeoutJson.parse_item name item = TakeoutJson.Ok r -> review_of name item r.
Proof.
  unfold TakeoutJson.parse_item. intros H.
  destruct item as [| b | repr | s | l | members]; try discriminate.
  exists members. split; [reflexivity |].
  cbn [TakeoutJson.get TakeoutJson.bind] in H.
  destruct (TakeoutJson.rating_of _) as [rating | e]; [| discriminate].
  cbn [TakeoutJson.bind] in H.
  destruct (TakeoutJson.get _ "comment" _) as [rc | e]; [| discriminate].
  cbn [TakeoutJson.bind] in H.
  destruct (TakeoutJson.get _ "updateTime" _) as [rdate | e]; [| discriminate].
  cbn [TakeoutJson.bind] in H.
  destruct (TakeoutJson.get _ "displayName" _) as [rn | e]; [| discriminate].
  cbn [TakeoutJson.bind] in H.
  injection H as <-. repeat split.
Qed.



(** X17: when [parse_reviews] returns, the review file is an object and
    the result has one review per entry of its "reviews" value (no entry
    when the key is absent), in the order of the entries; each review
    carries the title of the location's [data.json] ("Unknown" when that
    file is absent, is not JSON or has no title) and the entry's comment,
    dates and name, empty when absent. *)
Theorem parsed_reviews_follow_entries
        (location : TakeoutJson.data_file) (data : TakeoutJson.json)
        (reviews : list TakeoutJson.review_data) :
  TakeoutJson.parse_reviews location data = TakeoutJson.Ok reviews ->
  exists members items,
    data = TakeoutJson.JObject members
    /\ TakeoutJson.iterate (field "reviews" (TakeoutJson.JArray []) members)
       = TakeoutJson.Ok items
    /\ Forall2 (review_of (location_title location)) items reviews.
Proof.
  intros H. apply parse_reviews_inv in H.
  destruct H as (members & items & Hdata & Hitems & Hall).
  exists members, items. split; [exact Hdata |]. split; [exact Hitems |].
  clear -Hall. induction Hall as [| item r items rs H _ IH]; constructor.
  - now apply parse_item_review_of.
  - exact IH.
Qed.

(** X17 on the sample file. *)
Lemma parsed_reviews_follow_entries_witness :
  exists reviews members items,
    TakeoutJson.parse_reviews sample_location sample_reviews = TakeoutJson.Ok reviews
    /\ sample_reviews = TakeoutJson.JObject members
    /\ TakeoutJson.iterate (field "reviews" (TakeoutJson.JArray []) members)
       = TakeoutJson.Ok items
    /\ List.length items = 3
    /\ Forall2 (review_of (TakeoutJson.JString "Grackle")) items reviews.
Proof.
  destruct (TakeoutJson.parse_reviews sample_location sample_reviews)
    as [reviews | e] eqn:E; [| discriminate E].
  destruct (parsed_reviews_follow_entries sample_location sample_reviews reviews E)
    as (members & items & Hdata & Hitems & Hall).
  exists reviews, members, items.
  split; [reflexivity |]. split; [exact Hdata |]. split; [exact Hitems |].
  split; [| exact Hall].
  injection Hdata as <-. vm_compute in Hitems. injection Hitems as <-.
  reflexivity.
Defined.


